(** * BossNet: data vectorisation, hierarchical attention and dynamic decoding

    A shallow embedding of [src/data.py], [src/memn2n/attention_wrapper.py]
    and [src/memn2n/dynamic_decoder.py], with the properties of the
    specification stated and proved over it.

    Conventions.
    - Python integers are [Z]; [len] is [Z.of_nat (length _)]; Python's [%]
      is [Z.modulo] (both take the sign of the divisor).
    - Python dictionaries that are only read are [gmap string Z].
    - A Python exception is [None] of an [option], or [Err] of [result].
    - Floating point tensors are idealised as real numbers, with one extra
      value for the [-inf] used as the default score mask.
    - [int32] tensors are [Z] with the wrap-around written out. *)

From Stdlib Require Import ZArith List Reals Lra Lia String Sorted Permutation.
From stdpp Require Import gmap strings list.
Import ListNotations.

Local Open Scope Z_scope.

(** ** Python list helpers *)

Module Py.

(** Python exceptions, and a computation that returns or raises. *)
Inductive error :=
  | InvalidArgumentError
  | ValueError
  | AttributeError.

Inductive result (A : Type) :=
  | Ok (a : A)
  | Err (e : error).
Arguments Ok {A} a.
Arguments Err {A} e.

#[global] Instance result_ret : MRet result := fun A a => Ok a.

#[global] Instance result_bind : MBind result := fun A B f m =>
  match m with
  | Ok a => f a
  | Err e => Err e
  end.

(** [len(l)] *)
Definition len {A} (l : list A) : Z := Z.of_nat (length l).

(** [[x] * n]: the empty list when [n <= 0]. *)
Definition repeat_list {A} (x : A) (n : Z) : list A := replicate (Z.to_nat n) x.

(** [l[-n:]] for [n >= 1]: the last [n] elements. *)
Definition last_n {A} (n : Z) (l : list A) : list A :=
  drop (length l - Z.to_nat n) l.

(** [l[:-n]] for [n >= 1]: all but the last [n] elements. *)
Definition but_last_n {A} (n : Z) (l : list A) : list A :=
  take (length l - Z.to_nat n) l.

(** [l[::-1][:n][::-1]] for [n >= 1], written as the source writes it. *)
Definition rev_take_rev {A} (n : Z) (l : list A) : list A :=
  reverse (take (Z.to_nat n) (reverse l)).

(** [l.index(w)]: position of the first occurrence; [None] stands for the
    [ValueError] raised when [w] does not occur, so [index w l = None] is
    also the test [w not in l]. *)
Fixpoint index (w : string) (l : list string) : option nat :=
  match l with
  | [] => None
  | x :: l' => if decide (x = w) then Some 0%nat else S <$> index w l'
  end.

(** [sep.join(l)] *)
Fixpoint join (sep : string) (l : list string) : string :=
  match l with
  | [] => ""
  | [x] => x
  | x :: l' => x +:+ sep +:+ join sep l'
  end.

(** [l.sort(key=key, reverse=True)]: Python's sort is stable, also with
    [reverse=True]; elements with equal keys keep their input order.  The
    result is determined by that, so a stable insertion sort models it. *)
Section Sort.
Context {A : Type} (key : A -> Z).

Fixpoint insert_reverse (x : A) (l : list A) : list A :=
  match l with
  | [] => [x]
  | y :: l' =>
      if key x <? key y then y :: insert_reverse x l' else x :: y :: l'
  end.

Definition sort_reverse (l : list A) : list A :=
  foldr insert_reverse [] l.
End Sort.

End Py.

(** ** TensorFlow operations used by the two model files *)

Module Tf.

Import Py.

(** [tf.transpose] of the two leading dimensions of a tensor whose second
    dimension is [n]: the [j]-th result row collects the [j]-th entries. *)
Fixpoint transpose {A} (n : nat) (m : list (list A)) : list (list A) :=
  match n with
  | O => []
  | S n' => omap head m :: transpose n' (map tail m)
  end.

(** [tf.reshape(t, [rows, -1])] of a tensor given by its elements in
    row-major order. *)
Fixpoint chunks {A} (width rows : nat) (flat : list A) : list (list A) :=
  match rows with
  | O => []
  | S rows' => take width flat :: chunks width rows' (drop width flat)
  end.

Definition reshape_rows {A} (rows : nat) (flat : list A) : list (list A) :=
  chunks (length flat / rows) rows flat.

(** [array_ops.where(cond, x, y)] with a vector [cond]: entry (or row) [i]
    is taken from [x] when [cond[i]] holds and from [y] otherwise. *)
Fixpoint where_ {A} (cond : list bool) (x y : list A) : list A :=
  match cond, x, y with
  | c :: cond', a :: x', b :: y' => (if c then a else b) :: where_ cond' x' y'
  | _, _, _ => []
  end.

Definition logical_or (a b : list bool) : list bool := zip_with orb a b.
Definition logical_and (a b : list bool) : list bool := zip_with andb a b.
Definition logical_not (a : list bool) : list bool := map negb a.

(** [logical_or(a, s)] with a scalar [s], broadcast over [a]. *)
Definition logical_or_scalar (a : list bool) (s : bool) : list bool :=
  map (fun x => x || s) a.

Definition reduce_all (a : list bool) : bool := forallb (fun x => x) a.

(** [int32] arithmetic: the result of [+] wraps around. *)
Definition int32_wrap (z : Z) : Z := (z + 2 ^ 31) mod 2 ^ 32 - 2 ^ 31.
Definition int32_add (a b : Z) : Z := int32_wrap (a + b).
Definition in_int32 (z : Z) : bool := (- 2 ^ 31 <=? z) && (z <? 2 ^ 31).

(** A [TensorArray] with [size=0, dynamic_size=True]: a slot is written at
    most once; writing beyond the end grows the array. *)
Abbreviation TensorArray T := (list (option T)).

Definition ta_write {T} (ta : TensorArray T) (index : Z) (value : T)
  : result (TensorArray T) :=
  if index <? 0 then Err InvalidArgumentError else
  let i := Z.to_nat index in
  match ta !! i with
  | Some (Some _) => Err InvalidArgumentError
  | Some None => Ok (<[i := Some value]> ta)
  | None => Ok (ta ++ replicate (i - length ta) None ++ [Some value])
  end.

(** [ta.stack()]: every slot must have been written. *)
Fixpoint ta_stack {T} (ta : TensorArray T) : result (list T) :=
  match ta with
  | [] => Ok []
  | None :: _ => Err InvalidArgumentError
  | Some v :: ta' => vs ← ta_stack ta'; Ok (v :: vs)
  end.

(** [nest.map_structure(f, a, b)] on flattened structures; structures of
    different sizes raise [ValueError]. *)
Fixpoint map_structure2 {A B C} (f : A -> B -> result C)
         (a : list A) (b : list B) : result (list C) :=
  match a, b with
  | [], [] => Ok []
  | x :: a', y :: b' =>
      z ← f x y; zs ← map_structure2 f a' b'; Ok (z :: zs)
  | _, _ => Err ValueError
  end.

(** [nest.map_structure(f, a)] for an [f] that may raise. *)
Fixpoint map_structure {A B} (f : A -> result B) (a : list A) : result (list B) :=
  match a with
  | [] => Ok []
  | x :: a' => y ← f x; ys ← map_structure f a'; Ok (y :: ys)
  end.

(** [nest.assert_same_structure] on flattened structures. *)
Definition assert_same_structure {A B} (a : list A) (b : list B) : result unit :=
  if (length a =? length b)%nat then Ok tt else Err ValueError.

End Tf.

(** ** data.py *)

Module Data.

Definition PAD_INDEX : Z := 0.
Definition UNK_INDEX : Z := 1.
Definition GO_SYMBOL_INDEX : Z := 2.
Definition EOS_INDEX : Z := 3.

(** One element [x] of the [data] list: [x[0]] the story (a list of
    sentences), [x[1]] the query, [x[2]] the answer, [x[3]] the dialog id. *)
Record item := Item {
  item_story : list (list string);
  item_query : list string;
  item_answer : list string;
  item_dialog_id : Z
}.

(** [_extract_data_items]: [data.sort] works in place, so the function
    returns, next to its four lists, the caller's list as it is afterwards. *)
Definition _extract_data_items (data : list item)
  : list item
    * (list (list (list string)) * list (list string) * list (list string) * list Z) :=
  let data := Py.sort_reverse (fun x => Py.len (item_story x)) data in
  let stories := map item_story data in
  let queries := map item_query data in
  let answers := map item_answer data in
  let dialog_id := map item_dialog_id data in
  (data, (stories, queries, answers, dialog_id)).

(** [word_idx[w] if w in word_idx else UNK_INDEX] *)
Definition word_id (word_idx : gmap string Z) (w : string) : Z :=
  match word_idx !! w with
  | Some i => i
  | None => UNK_INDEX
  end.

Section VectorizeStories.
Variables (word_idx : gmap string Z) (sentence_size batch_size : Z)
          (decode_vocab_size max_memory_size : Z)
          (decoder_vocab : gmap string Z).

(** The body of [for w in sentence]: the id appended for [w] and the
    example's [oov_words] afterwards. *)
Definition oov_word_step (oov_words : list string) (w : string)
  : Z * list string :=
  match decoder_vocab !! w with
  | None =>
      match Py.index w oov_words with
      | None => (decode_vocab_size + Py.len oov_words, oov_words ++ [w])
      | Some k => (decode_vocab_size + Z.of_nat k, oov_words)
      end
  | Some i => (i, oov_words)
  end.

(** [for w in sentence: ...], from the [oov_words] so far. *)
Fixpoint oov_sentence_loop (oov_words : list string) (sentence : list string)
  : list Z * list string :=
  match sentence with
  | [] => ([], oov_words)
  | w :: rest =>
      let '(i, oov_words) := oov_word_step oov_words w in
      let '(ids, oov_words) := oov_sentence_loop oov_words rest in
      (i :: ids, oov_words)
  end.

(** What one pass of [for k, sentence in enumerate(story, 1)] appends. *)
Record sentence_vec := SentenceVec {
  sv_ss : list Z;
  sv_size : Z;
  sv_string : string;
  sv_oov_ids : list Z
}.

Definition sentence_body (oov_words : list string) (sentence : list string)
  : sentence_vec * list string :=
  let ls := Z.max 0 (sentence_size - Py.len sentence) in
  let '(oov_sentence_ids, oov_words) := oov_sentence_loop oov_words sentence in
  let story_element := Py.join " " (Py.but_last_n 2 sentence) in
  ({| sv_ss := map (word_id word_idx) sentence ++ Py.repeat_list 0 ls;
      sv_size := Py.len sentence;
      sv_string := Py.join " " (Py.last_n 2 sentence) +:+ " : " +:+ story_element;
      sv_oov_ids := oov_sentence_ids ++ Py.repeat_list PAD_INDEX ls |},
   oov_words).

Fixpoint story_loop (oov_words : list string) (story : list (list string))
  : list sentence_vec * list string :=
  match story with
  | [] => ([], oov_words)
  | sentence :: rest =>
      let '(v, oov_words) := sentence_body oov_words sentence in
      let '(vs, oov_words) := story_loop oov_words rest in
      (v :: vs, oov_words)
  end.

(** What one pass of [for i, story in enumerate(stories)] appends to
    [S], [SZ], [S_in_readable_form], [OOV_ids], [OOV_size], [OOV_words]. *)
Record story_vec := StoryVec {
  st_ss : list (list Z);
  st_sizes : list Z;
  st_string : list string;
  st_oov_ids : list (list Z);
  st_oov_size : Z;
  st_oov_words : list string
}.

Definition story_body (memory_size : Z) (story : list (list string)) : story_vec :=
  let '(vs, oov_words) := story_loop [] story in
  let ss := Py.rev_take_rev memory_size (map sv_ss vs) in
  let oov_ids := Py.rev_take_rev memory_size (map sv_oov_ids vs) in
  let sizes := Py.rev_take_rev memory_size (map sv_size vs) in
  let lm := Z.max 0 (memory_size - Py.len ss) in
  {| st_ss := ss ++ Py.repeat_list (Py.repeat_list 0 sentence_size) lm;
     st_sizes := sizes ++ Py.repeat_list 0 lm;
     st_string := map sv_string vs;
     st_oov_ids := oov_ids ++ Py.repeat_list (Py.repeat_list 0 sentence_size) lm;
     st_oov_size := Py.len oov_words;
     st_oov_words := oov_words |}.

(** The outer loop from index [i] on.  [memory_size] is the variable of
    that name: unset ([None]) before the first pass, set again whenever
    [i % batch_size == 0].  [i % 0] raises [ZeroDivisionError]; reading
    the unset variable would raise [NameError]. *)
Fixpoint stories_loop (i : Z) (memory_size : option Z)
         (stories : list (list (list string))) : option (list story_vec) :=
  match stories with
  | [] => Some []
  | story :: rest =>
      if decide (batch_size = 0) then None else
      let memory_size :=
        if decide (i mod batch_size = 0)
        then Some (Z.max 1 (Z.min max_memory_size (Py.len story)))
        else memory_size in
      m ← memory_size;
      vs ← stories_loop (i + 1) memory_size rest;
      Some (story_body m story :: vs)
  end.

Definition _vectorize_stories (stories : list (list (list string)))
  : option (list (list (list Z)) * list (list Z) * list (list string)
            * list (list (list Z)) * list Z * list (list string)) :=
  vs ← stories_loop 0 None stories;
  Some (map st_ss vs, map st_sizes vs, map st_string vs,
        map st_oov_ids vs, map st_oov_size vs, map st_oov_words vs).
End VectorizeStories.

(** [_vectorize_queries] *)
Definition query_body (word_idx : gmap string Z) (sentence_size : Z)
           (query : list string) : list Z * list Z * string :=
  let lq := Z.max 0 (sentence_size - Py.len query) in
  let q := map (word_id word_idx) query ++ Py.repeat_list 0 lq in
  (q, [Py.len query], Py.join " " query).

Definition _vectorize_queries (queries : list (list string))
           (word_idx : gmap string Z) (sentence_size : Z)
  : list (list Z) * list (list Z) * list string :=
  let r := map (query_body word_idx sentence_size) queries in
  (map (fun x => x.1.1) r, map (fun x => x.1.2) r, map snd r).

Section VectorizeAnswers.
Variables (decoder_vocab : gmap string Z) (candidate_sentence_size : Z)
          (OOV_words : list (list string)) (decode_vocab_size : Z).

(** The body of [for w in answer]: the ids appended to [a] and to
    [a_emb_lookup].  [OOV_words[i]] is only evaluated for a word outside
    the vocabulary; [None] is its [IndexError]. *)
Definition answer_word (i : nat) (w : string) : option (Z * Z) :=
  match decoder_vocab !! w with
  | Some id => Some (id, id)
  | None =>
      oov ← OOV_words !! i;
      match Py.index w oov with
      | Some k => Some (decode_vocab_size + Z.of_nat k, UNK_INDEX)
      | None => Some (UNK_INDEX, UNK_INDEX)
      end
  end.

(** What one pass of [for i, answer in enumerate(answers)] appends to
    [A], [AZ], [A_in_readable_form], [A_for_embeddding_lookup]. *)
Record answer_vec := AnswerVec {
  av_a : list Z;
  av_size : list Z;
  av_string : string;
  av_emb_lookup : list Z
}.

Definition answer_body (i : nat) (answer : list string) : option answer_vec :=
  let aq := Z.max 0 (candidate_sentence_size - Py.len answer - 1) in
  ids ← mapM (answer_word i) answer;
  Some {| av_a := map fst ids ++ [EOS_INDEX] ++ Py.repeat_list PAD_INDEX aq;
          av_size := [Py.len answer + 1];
          av_string := Py.join " " answer;
          av_emb_lookup :=
            map snd ids ++ [EOS_INDEX] ++ Py.repeat_list PAD_INDEX aq |}.

Fixpoint answers_loop (i : nat) (answers : list (list string))
  : option (list answer_vec) :=
  match answers with
  | [] => Some []
  | answer :: rest =>
      v ← answer_body i answer;
      vs ← answers_loop (S i) rest;
      Some (v :: vs)
  end.

Definition _vectorize_answers (answers : list (list string))
  : option (list (list Z) * list (list Z) * list string * list (list Z)) :=
  vs ← answers_loop 0 answers;
  Some (map av_a vs, map av_size vs, map av_string vs, map av_emb_lookup vs).
End VectorizeAnswers.

(** *** The vectorisers, in the words of their specification *)

(** The distinct elements of a list, in the order of their first
    appearance. *)
Fixpoint distinct (ws : list string) : list string :=
  match ws with
  | [] => []
  | w :: rest => w :: filter (fun v => v <> w) (distinct rest)
  end.

(** The out-of-vocabulary words of an example, numbered from 0 in the
    order of their first appearance in the example's sentences. *)
Definition oov_table (decoder_vocab : gmap string Z)
           (story : list (list string)) : list string :=
  distinct (filter (fun w => decoder_vocab !! w = None) (concat story)).

(** The table [oov] after the further words [ws]: the new
    out-of-vocabulary words follow, in the order of their first
    appearance. *)
Definition table_after (decoder_vocab : gmap string Z)
           (oov ws : list string) : list string :=
  oov ++ filter (fun w => w ∉ oov)
           (distinct (filter (fun w => decoder_vocab !! w = None) ws)).

(** The copy id of a story word: its vocabulary id, or the vocabulary size
    plus its number in the example's table. *)
Definition copy_id (decode_vocab_size : Z) (decoder_vocab : gmap string Z)
           (table : list string) (w : string) : Z :=
  match decoder_vocab !! w with
  | Some i => i
  | None =>
      decode_vocab_size +
      match Py.index w table with
      | Some k => Z.of_nat k
      | None => Py.len table
      end
  end.

(** The id of an answer word: its vocabulary id, its copy id when the
    example's memory holds it, [UNK] otherwise; and the id under which its
    embedding is looked up. *)
Definition answer_id (decode_vocab_size : Z) (decoder_vocab : gmap string Z)
           (table : list string) (w : string) : Z :=
  match decoder_vocab !! w with
  | Some i => i
  | None =>
      match Py.index w table with
      | Some k => decode_vocab_size + Z.of_nat k
      | None => UNK_INDEX
      end
  end.

Definition answer_emb_id (decoder_vocab : gmap string Z) (w : string) : Z :=
  match decoder_vocab !! w with
  | Some i => i
  | None => UNK_INDEX
  end.

(** Inputs to run the vectorisers on. *)
Definition example_vocab : gmap string Z :=
  {[ "<pad>" := 0; "<unk>" := 1; "<go>" := 2; "<eos>" := 3;
     "the" := 4; "is" := 5 ]}.

Definition example_data : list item :=
  [ {| item_story := [["rome"; "is"; "$u"; "#1"]];
       item_query := ["where"; "is"; "rome"];
       item_answer := ["italy"];
       item_dialog_id := 7 |};
    {| item_story := [["paris"; "is"; "the"; "capital"; "$u"; "#1"];
                      ["the"; "capital"; "is"; "paris"; "$s"; "#2"]];
       item_query := ["the"; "capital"];
       item_answer := ["the"; "capital"; "is"; "paris"];
       item_dialog_id := 8 |} ].

(** The attributes a [Data] object holds after [__init__]. *)
Record data_obj := DataObj {
  _decode_vocab_size : Z;
  _stories_ext : list (list (list string));
  _queries_ext : list (list string);
  _answers_ext : list (list string);
  _dialog_ids : list Z;
  _stories : list (list (list Z));
  _story_sizes : list (list Z);
  _read_stories : list (list string);
  _oov_ids : list (list (list Z));
  _oov_sizes : list Z;
  _oov_words : list (list string);
  _queries : list (list Z);
  _query_sizes : list (list Z);
  _read_queries : list string;
  _answers : list (list Z);
  _answer_sizes : list (list Z);
  _read_answers : list string;
  _answers_emb_lookup : list (list Z)
}.

(** [Data.__init__]: the caller's [data] list afterwards, and the object
    ([None] when a vectoriser raised).  The sort has happened either way. *)
Definition __init__ (data : list item) (word_idx : gmap string Z)
           (sentence_size batch_size max_memory_size : Z)
           (decoder_vocab : gmap string Z) (candidate_sentence_size : Z)
  : list item * option data_obj :=
  let decode_vocab_size := Z.of_nat (size decoder_vocab) in
  let '(data, (stories_ext, queries_ext, answers_ext, dialog_ids)) :=
    _extract_data_items data in
  (data,
   '(stories, story_sizes, read_stories, oov_ids, oov_sizes, oov_words) ←
     _vectorize_stories word_idx sentence_size batch_size decode_vocab_size
       max_memory_size decoder_vocab stories_ext;
   let '(queries, query_sizes, read_queries) :=
     _vectorize_queries queries_ext word_idx sentence_size in
   '(answers, answer_sizes, read_answers, answers_emb_lookup) ←
     _vectorize_answers decoder_vocab candidate_sentence_size oov_words
       decode_vocab_size answers_ext;
   Some {| _decode_vocab_size := decode_vocab_size;
           _stories_ext := stories_ext;
           _queries_ext := queries_ext;
           _answers_ext := answers_ext;
           _dialog_ids := dialog_ids;
           _stories := stories;
           _story_sizes := story_sizes;
           _read_stories := read_stories;
           _oov_ids := oov_ids;
           _oov_sizes := oov_sizes;
           _oov_words := oov_words;
           _queries := queries;
           _query_sizes := query_sizes;
           _read_queries := read_queries;
           _answers := answers;
           _answer_sizes := answer_sizes;
           _read_answers := read_answers;
           _answers_emb_lookup := answers_emb_lookup |}).

(** Read-only properties of a [Data] object. *)
Definition stories (d : data_obj) := _stories d.
Definition queries (d : data_obj) := _queries d.
Definition answers (d : data_obj) := _answers d.
Definition dialog_ids (d : data_obj) := _dialog_ids d.
Definition oov_ids (d : data_obj) := _oov_ids d.
Definition answers_emb_lookup (d : data_obj) := _answers_emb_lookup d.
Definition answer_sizes (d : data_obj) := _answer_sizes d.

End Data.

(** ** memn2n/attention_wrapper.py *)

Module Attention.

Import Py Tf.
Local Open Scope R_scope.

(** A masked score: a real, or the [float("-inf")] that is the default
    [score_mask_value]. *)
Inductive score_t :=
  | NegInf
  | Fin (r : R).

(** [exp] on masked scores; [exp(-inf) = 0]. *)
Definition score_exp (x : score_t) : R :=
  match x with
  | NegInf => 0
  | Fin r => exp r
  end.

(** [reduce_sum] of a vector. *)
Definition sum_list (l : list R) : R := foldr Rplus 0 l.

(** Inner product of two vectors of the same depth. *)
Definition dot (x y : list R) : R := sum_list (zip_with Rmult x y).

(** [nn_ops.softmax] over the last dimension of one row. *)
Definition softmax_row (row : list score_t) : list R :=
  let e := map score_exp row in
  map (fun x => x / sum_list e) e.

Definition softmax (score : list (list score_t)) : list (list R) :=
  map softmax_row score.

(** [check_ops.assert_positive] *)
Definition assert_positive (l : list Z) : bool :=
  forallb (fun x => (0 <? x)%Z) l.

(** One row of [array_ops.where(sequence_mask(l, maxlen), score, mask)],
    [maxlen] being the row's length: position [t] keeps its score when
    [t < l]. *)
Definition mask_row (score_mask_value : score_t) (l : Z) (row : list R)
  : list score_t :=
  imap (fun t s => if (Z.of_nat t <? l)%Z then Fin s else score_mask_value) row.

(** [_maybe_mask_score] *)
Definition _maybe_mask_score (score : list (list R))
           (memory_sequence_length : option (list Z))
           (score_mask_value : score_t) : result (list (list score_t)) :=
  match memory_sequence_length with
  | None => Ok (map (map Fin) score)
  | Some lengths =>
      if negb (assert_positive lengths) then Err InvalidArgumentError
      else if negb (length lengths =? length score)%nat then Err InvalidArgumentError
      else Ok (zip_with (mask_row score_mask_value) lengths score)
  end.

(** [squeeze(matmul(expand_dims(query, 1), key, transpose_b=True), [1])]
    for [query : [batch, depth]] and [key : [batch, time, depth]]. *)
Definition query_matmul (query : list (list R)) (key : list (list (list R)))
  : list (list R) :=
  zip_with (fun q ks => map (dot q) ks) query key.

(** The test [depth != key_units], on the rows at hand. *)
Definition depth_matches (query : list (list R)) (keys : list (list (list R)))
  : bool :=
  forallb (fun q => forallb (fun ks =>
     forallb (fun k => (length k =? length q)%nat) ks) keys) query.

(** [_luong_score]; [g] is the value of the variable [attention_g]. *)
Definition _luong_score (query : list (list R)) (keys : list (list (list R)))
           (scale : bool) (g : R) : result (list (list R)) :=
  if negb (depth_matches query keys) then Err ValueError else
  let score := query_matmul query keys in
  Ok (if scale then map (map (Rmult g)) score else score).

(** [_luong_word_score]: [word_keys : [batch, sentences, words, depth]].
    [size] is the number of sentences; the source leaves it unused and
    [tf.transpose] reads the dimensions off the tensors, which the nested
    lists cannot give when a dimension is empty. *)
Definition _luong_word_score (query : list (list R))
           (word_keys : list (list (list (list R))))
           (scale : bool) (g : R) (size : nat)
  : result (list (list (list R))) :=
  if negb (forallb (depth_matches query) word_keys) then Err ValueError else
  let word_keys := transpose size word_keys in
  let context_fn := fun key => query_matmul query key in
  let scores := map context_fn word_keys in
  let scores := transpose (length query) scores in
  Ok (if scale then map (map (map (Rmult g))) scores else scores).

(** The attributes of a [CustomAttention] object: the prepared memories and
    what the constructor was given. *)
Record CustomAttention := {
  _keys : list (list (list R));
  _values : list (list (list R));
  _word_values : list (list (list (list R)));
  _scale : bool;
  attention_g : R;
  probability_fn : option (list (list score_t) -> list (list R));
  line_memory_sequence_length : option (list Z);
  score_mask_value : score_t;
  _batch_size : nat;
  _alignments_size : nat;
  _word_alignments_size : nat
}.

(** [self._probability_fn]: the given normaliser, [softmax] by default,
    after [_maybe_mask_score]. *)
Definition _probability_fn (self : CustomAttention) (score : list (list R))
  : result (list (list R)) :=
  masked ← _maybe_mask_score score (line_memory_sequence_length self)
               (score_mask_value self);
  Ok (match probability_fn self with
      | None => softmax masked
      | Some f => f masked
      end).

(** [math_ops.multiply(word_scores, expand_dims(score, 1))] for
    [word_scores : [batch, words, sentences]] and [score : [batch, sentences]]. *)
Definition multiply_broadcast (word_scores : list (list (list R)))
           (score : list (list R)) : list (list (list R)) :=
  zip_with (fun ws s => map (fun row => zip_with Rmult row s) ws) word_scores score.

(** [CustomAttention.__call__]: the sentence alignment and the flattened
    word alignment.  [previous_alignments] is not used.  A failed
    assertion of [_maybe_mask_score] fails the evaluation of the step. *)
Definition __call__ (self : CustomAttention) (query : list (list R))
           (previous_alignments : list (list R))
  : result (list (list R) * list (list R)) :=
  score ← _luong_score query (_keys self) (_scale self) (attention_g self);
  word_scores ← _luong_word_score query (_word_values self) (_scale self)
                    (attention_g self) (_alignments_size self);
  alignments ← _probability_fn self score;
  let word_scores := map (transpose (_word_alignments_size self)) word_scores in
  let word_alignments := multiply_broadcast word_scores score in
  let word_alignments := map (transpose (_alignments_size self)) word_alignments in
  Ok (alignments,
      reshape_rows (_batch_size self) (concat (concat word_alignments))).

(** The shapes [__init__] reads [_batch_size], [_alignments_size] and
    [_word_alignments_size] from, for a query of the same batch size:
    [_keys : [batch, sentences, depth]] and
    [_word_values : [batch, sentences, words, depth]]. *)
Definition well_shaped (self : CustomAttention) (query : list (list R)) : Prop :=
  length query = _batch_size self /\
  length (_keys self) = _batch_size self /\
  length (_word_values self) = _batch_size self /\
  Forall (fun ks => length ks = _alignments_size self) (_keys self) /\
  Forall (fun ws => length ws = _alignments_size self /\
            Forall (fun sentence => length sentence = _word_alignments_size self) ws)
    (_word_values self).

(** The raw score of a vector [k] for the query [q]: their inner product,
    times [attention_g] when [scale] is set. *)
Definition raw_score (scale : bool) (g : R) (q k : list R) : R :=
  if scale then g * dot q k else dot q k.

(** For one batch element, sentence after sentence and word after word:
    the raw score of the word times the raw score of its sentence. *)
Definition raw_word_alignment (scale : bool) (g : R) (q : list R)
           (keys : list (list R)) (words : list (list (list R))) : list R :=
  concat (zip_with (fun k sentence =>
                      map (fun w => raw_score scale g q w * raw_score scale g q k)
                        sentence)
            keys words).

(** A memory of one sentence of one word, and a memory of three sentences
    of which one is valid. *)
Definition one_word_memory : CustomAttention :=
  {| _keys := [[[1]]];
     _values := [[[1]]];
     _word_values := [[[[2]]]];
     _scale := false;
     attention_g := 1;
     probability_fn := None;
     line_memory_sequence_length := None;
     score_mask_value := NegInf;
     _batch_size := 1;
     _alignments_size := 1;
     _word_alignments_size := 1 |}.

Definition padded_memory : CustomAttention :=
  {| _keys := [[[1]; [0]; [0]]];
     _values := [[[1]; [0]; [0]]];
     _word_values := [[[[2]; [3]]; [[0]; [0]]; [[0]; [0]]]];
     _scale := false;
     attention_g := 1;
     probability_fn := None;
     line_memory_sequence_length := Some [1%Z];
     score_mask_value := NegInf;
     _batch_size := 1;
     _alignments_size := 3;
     _word_alignments_size := 2 |}.

(** An argument of [linear]: its static shape ([None] for an unknown
    dimension) and, for a matrix, its rows. *)
Record tensor := Tensor {
  get_shape : list (option Z);
  rows : list (list R)
}.

(** What [linear] may be given as [args]. *)
Inductive py_args :=
  | ArgsNone
  | ArgsTensor (t : tensor)
  | ArgsList (l : list tensor).

(** [tf.concat(axis=1, values=args)] on the rows. *)
Definition concat_axis1 (args : list (list (list R))) : list (list R) :=
  match args with
  | [] => []
  | a :: rest => foldl (zip_with app) a rest
  end.

(** [tf.matmul] of a [batch x n] by an [n x m] matrix, [m = output_size]. *)
Definition matmul (output_size : nat) (a : list (list R)) (matrix : list (list R))
  : list (list R) :=
  map (fun row => map (dot row) (transpose output_size matrix)) a.

(** The loop over [shapes]: the total size on dimension 1. *)
Fixpoint total_arg_size (shapes : list (list (option Z))) (acc : Z)
  : result Z :=
  match shapes with
  | [] => Ok acc
  | shape :: rest =>
      match shape with
      | [_; d1] =>
          match d1 with
          | None => Err ValueError
          | Some 0%Z => Err ValueError
          | Some n => total_arg_size rest (acc + n)%Z
          end
      | _ => Err ValueError
      end
  end.

(** [linear]; [Matrix] and [Bias] are the values of the variables of these
    names. *)
Definition linear (args : py_args) (output_size : nat) (bias : bool)
           (Matrix : list (list R)) (Bias : list R) : result (list (list R)) :=
  match args with
  | ArgsNone => Err ValueError
  | ArgsList [] => Err ValueError
  | _ =>
      let args := match args with
                  | ArgsList l => l
                  | ArgsTensor t => [t]
                  | ArgsNone => []
                  end in
      _ ← total_arg_size (map get_shape args) 0%Z;
      let res := match args with
                 | [a] => matmul output_size (rows a) Matrix
                 | _ => matmul output_size (concat_axis1 (map rows args)) Matrix
                 end in
      Ok (if bias then map (fun r => zip_with Rplus r Bias) res else res)
  end.

End Attention.

(** ** memn2n/dynamic_decoder.py *)

Module Decoder.

Import Py Tf.

(** An object handed back to the caller: a dense tensor, or a
    [TensorArray] that was not stacked. *)
Inductive returned (T : Type) :=
  | Dense (t : list T)
  | Buffer (ta : TensorArray T).
Arguments Dense {T} t.
Arguments Buffer {T} ta.

Section Decoding.
(** [V]: the contents of a tensor below its batch dimension (one row of a
    batched tensor; the value of a scalar tensor).  [Inp]: the decoder's
    inputs.  [Attn], [PGen]: one step's attention and copy gate tensors.
    [Shape], [DType]: entries of [output_size] and [output_dtype]. *)
Context {V Inp Attn PGen Shape DType : Type}.

(** [array_ops.zeros] of the given shape and type, below the batch
    dimension. *)
Variable zeros : Shape -> DType -> V.

(** A tensor of a state: a scalar ([ndims == 0]) or one value per batch
    element. *)
Inductive tensor :=
  | Scalar (v : V)
  | Batch (rows : list V).

(** An entry of a (flattened) state structure. *)
Inductive state_field :=
  | FTensor (t : tensor)
  | FArray (ta : TensorArray tensor).

(** The [Decoder] interface, as [dynamic_decode] uses it.  Output and
    state structures are flattened; an output field has one value per
    batch element.  [finalize = None] is a decoder whose [finalize] raises
    [NotImplementedError]. *)
Record Decoder := {
  batch_size : nat;
  output_size : list Shape;
  output_dtype : list DType;
  initialize : list bool * Inp * list state_field;
  step : Z -> Inp -> list state_field ->
         list (list V) * list Attn * PGen * list state_field * Inp * list bool;
  finalize : option (list (list (list V)) -> list state_field -> list Z ->
                     list (list (list V)) * list state_field)
}.

(** [_create_zero_outputs] *)
Definition _create_zero_outputs (size : list Shape) (dtype : list DType)
           (batch_size : nat) : result (list (list V)) :=
  map_structure2 (fun s d => Ok (replicate batch_size (zeros s d))) size dtype.

(** The [Helper] interface, as [BasicDecoder] uses it. *)
Record Helper := {
  helper_batch_size : nat;
  sample_ids_shape : Shape;
  sample_ids_dtype : DType;
  helper_initialize : list bool * Inp;
  sample : Z -> list V -> list state_field -> list V;
  next_inputs : Z -> list V -> list state_field -> list V ->
                list bool * Inp * list state_field
}.

(** The attributes of a [BasicDecoder].  [_cell] returns the triple
    [(cell_outputs, attention, p_gens)] and the next state;
    [_rnn_output_size] and [_dtype] are what the methods of these names
    compute from the cell, the layer and the initial state. *)
Record BasicDecoder := {
  _cell : Inp -> list state_field ->
          (list V * list Attn * PGen) * list state_field;
  _helper : Helper;
  _initial_state : list state_field;
  _output_layer : option (list V -> list V);
  _rnn_output_size : Shape;
  _dtype : DType
}.

(** [BasicDecoder.step] *)
Definition BasicDecoder_step (self : BasicDecoder) (time : Z) (inputs : Inp)
           (state : list state_field)
  : list (list V) * list Attn * PGen * list state_field * Inp * list bool :=
  let '(cell_outputs, cell_state) := _cell self inputs state in
  let '(cell_outputs, attention, p_gens) := cell_outputs in
  let cell_outputs :=
    match _output_layer self with
    | Some layer => layer cell_outputs
    | None => cell_outputs
    end in
  let sample_ids := sample (_helper self) time cell_outputs cell_state in
  let '(finished, next_inputs, next_state) :=
    next_inputs (_helper self) time cell_outputs cell_state sample_ids in
  let outputs := [cell_outputs; sample_ids] in
  (outputs, attention, p_gens, next_state, next_inputs, finished).

(** A [BasicDecoder] seen through the [Decoder] interface; it inherits
    the [finalize] that raises [NotImplementedError]. *)
Definition BasicDecoder_as_Decoder (self : BasicDecoder) : Decoder :=
  {| batch_size := helper_batch_size (_helper self);
     output_size := [_rnn_output_size self; sample_ids_shape (_helper self)];
     output_dtype := [_dtype self; sample_ids_dtype (_helper self)];
     initialize := (helper_initialize (_helper self), _initial_state self);
     step := BasicDecoder_step self;
     finalize := None |}.

(** The loop variables of [while_loop]. *)
Record loop_vars := LoopVars {
  time : Z;
  outputs_ta : list (TensorArray (list V));
  state : list state_field;
  inputs : Inp;
  finished : list bool;
  sequence_lengths : list Z;
  attention : list (TensorArray Attn);
  p_gens : TensorArray PGen
}.

Definition condition (vars : loop_vars) : bool :=
  negb (reduce_all (finished vars)).

Section Body.
Variables (decoder : Decoder) (impute_finished : bool)
          (maximum_iterations : option Z) (zero_outputs : list (list V)).

(** [_maybe_copy_state]; [new.set_shape(cur.shape)] raises when [new]
    is a [TensorArray] or when the ranks differ. *)
Definition _maybe_copy_state (finished : list bool) (new cur : state_field)
  : result state_field :=
  match cur with
  | FArray _ => Ok new
  | FTensor cur =>
      match new with
      | FArray _ => Err AttributeError
      | FTensor (Scalar _) =>
          match cur with
          | Scalar _ => Ok new
          | Batch _ => Err ValueError
          end
      | FTensor (Batch new) =>
          match cur with
          | Scalar _ => Err ValueError
          | Batch cur => Ok (FTensor (Batch (where_ finished cur new)))
          end
      end
  end.

(** [body], the body of the [while_loop]. *)
Definition body (vars : loop_vars) : result loop_vars :=
  let '(next_outputs, next_attention, next_p_gens, decoder_state,
        next_inputs, decoder_finished) :=
    step decoder (time vars) (inputs vars) (state vars) in
  let next_finished := logical_or decoder_finished (finished vars) in
  let next_finished :=
    match maximum_iterations with
    | Some m => logical_or_scalar next_finished (m <=? int32_add (time vars) 1)
    | None => next_finished
    end in
  let next_sequence_lengths :=
    where_ (logical_and (logical_not (finished vars)) next_finished)
           (replicate (length (sequence_lengths vars)) (int32_add (time vars) 1))
           (sequence_lengths vars) in
  _ ← assert_same_structure (state vars) decoder_state;
  _ ← assert_same_structure (outputs_ta vars) next_outputs;
  _ ← assert_same_structure (attention vars) next_attention;
  emit ←
    (if impute_finished
     then map_structure2 (fun out zero => Ok (where_ (finished vars) zero out))
            next_outputs zero_outputs
     else Ok next_outputs);
  next_state ←
    (if impute_finished
     then map_structure2 (_maybe_copy_state (finished vars)) decoder_state (state vars)
     else Ok decoder_state);
  outputs_ta ←
    map_structure2 (fun ta out => ta_write ta (time vars) out) (outputs_ta vars) emit;
  attention ←
    map_structure2 (fun ta out => ta_write ta (time vars) out)
      (attention vars) next_attention;
  p_gens ← ta_write (p_gens vars) (time vars) next_p_gens;
  Ok {| time := int32_add (time vars) 1;
        outputs_ta := outputs_ta;
        state := next_state;
        inputs := next_inputs;
        finished := next_finished;
        sequence_lengths := next_sequence_lengths;
        attention := attention;
        p_gens := p_gens |}.

(** What a pass through [body] computes from the variables before it, as
    functions of these variables: the decoder's [finished] signals, the
    new flags, the emitted outputs, the attention and the copy gate. *)
Definition decoder_finished_of (vars : loop_vars) : list bool :=
  (step decoder (time vars) (inputs vars) (state vars)).2.

Definition next_finished_of (vars : loop_vars) : list bool :=
  let f := logical_or (decoder_finished_of vars) (finished vars) in
  match maximum_iterations with
  | Some m => logical_or_scalar f (m <=? int32_add (time vars) 1)
  | None => f
  end.

Definition next_outputs_of (vars : loop_vars) : list (list V) :=
  (step decoder (time vars) (inputs vars) (state vars)).1.1.1.1.1.

Definition emit_of (vars : loop_vars) : list (list V) :=
  if impute_finished
  then zip_with (fun out zero => where_ (finished vars) zero out)
         (next_outputs_of vars) zero_outputs
  else next_outputs_of vars.

Definition next_attention_of (vars : loop_vars) : list Attn :=
  (step decoder (time vars) (inputs vars) (state vars)).1.1.1.1.2.

Definition next_p_gens_of (vars : loop_vars) : PGen :=
  (step decoder (time vars) (inputs vars) (state vars)).1.1.1.2.

(** How a run of [control_flow_ops.while_loop] ends: the condition
    turned false after [n] passes through the body, or the pass after
    the [n]-th raised.  [OutOfFuel]: the model stopped a loop that was
    still running. *)
Inductive outcome :=
  | Exited (n : nat) (vars : loop_vars)
  | Raised (n : nat) (e : error)
  | OutOfFuel.

Fixpoint while_loop (fuel : nat) (n : nat) (vars : loop_vars) : outcome :=
  if condition vars then
    match fuel with
    | O => OutOfFuel
    | S fuel' =>
        match body vars with
        | Ok vars' => while_loop fuel' (S n) vars'
        | Err e => Raised n e
        end
    end
  else Exited n vars.

(** The loop variables after [k] passes through the body, when the loop
    makes that many. *)
Fixpoint vars_after (k : nat) (vars : loop_vars) : option loop_vars :=
  match k with
  | O => Some vars
  | S k' =>
      if condition vars then
        match body vars with
        | Ok vars' => vars_after k' vars'
        | Err _ => None
        end
      else None
  end.
End Body.

(** What [maximum_iterations] may be given as: nothing, an integer, or
    something that is not a scalar. *)
Inductive max_iter_arg :=
  | MaxNone
  | MaxInt (m : Z)
  | MaxNonScalar (l : list Z).

(** [ops.convert_to_tensor(maximum_iterations, dtype=int32)] and the
    scalar test. *)
Definition convert_maximum_iterations (a : max_iter_arg) : result (option Z) :=
  match a with
  | MaxNone => Ok None
  | MaxInt m => if in_int32 m then Ok (Some m) else Err ValueError
  | MaxNonScalar _ => Err ValueError
  end.

(** [_transpose_batch_time] of a stacked buffer [[time, batch, ...]]. *)
Definition _transpose_batch_time (batch_size : nat) (x : list (list V))
  : list (list V) :=
  transpose batch_size x.

(** The tuple [dynamic_decode] returns. *)
Record decoded := Decoded {
  final_outputs : list (returned (list V));
  final_state : list state_field;
  final_sequence_lengths : list Z;
  final_attention : list (returned Attn);
  final_p_gens : returned PGen
}.

(** The loop variables before the first pass.  [attention_size] is a
    single shape ([map_structure] pairs it with the one type [float32]), so
    there is one attention buffer; it and the one shape [1] of the copy
    gate only give the element shapes of their buffers. *)
Definition initial_vars (decoder : Decoder) (attention_size : Shape)
           (maximum_iterations : option Z) : loop_vars :=
  let '(initial_finished, initial_inputs, initial_state) := initialize decoder in
  let initial_finished :=
    match maximum_iterations with
    | Some m => logical_or_scalar initial_finished (m <=? 0)
    | None => initial_finished
    end in
  {| time := 0;
     outputs_ta := map (fun _ => []) (output_size decoder);
     state := initial_state;
     inputs := initial_inputs;
     finished := initial_finished;
     sequence_lengths := map (fun _ => 0) initial_finished;
     attention := [[]];
     p_gens := [] |}.

(** What follows the loop. *)
Definition after_loop (decoder : Decoder) (output_time_major : bool)
           (res : loop_vars) : result decoded :=
  final_outputs ← map_structure ta_stack (outputs_ta res);
  let '(final_outputs, final_state) :=
    match finalize decoder with
    | Some f => f final_outputs (state res) (sequence_lengths res)
    | None => (final_outputs, state res)
    end in
  let final_outputs :=
    if negb output_time_major
    then map (_transpose_batch_time (batch_size decoder)) final_outputs
    else final_outputs in
  Ok {| final_outputs := map Dense final_outputs;
        final_state := final_state;
        final_sequence_lengths := sequence_lengths res;
        final_attention := map Buffer (attention res);
        final_p_gens := Buffer (p_gens res) |}.

(** [dynamic_decode] up to the end of its [while_loop]. *)
Definition run_loop (fuel : nat) (decoder : Decoder)
           (attention_size : Shape) (impute_finished : bool)
           (maximum_iterations : max_iter_arg) : result outcome :=
  maximum_iterations ← convert_maximum_iterations maximum_iterations;
  zero_outputs ← _create_zero_outputs (output_size decoder)
                   (output_dtype decoder) (batch_size decoder);
  Ok (while_loop decoder impute_finished maximum_iterations zero_outputs
        fuel 0 (initial_vars decoder attention_size maximum_iterations)).

(** [dynamic_decode].  [None]: the model ran out of fuel. *)
Definition dynamic_decode (fuel : nat) (decoder : Decoder)
           (attention_size : Shape)
           (output_time_major impute_finished : bool)
           (maximum_iterations : max_iter_arg) : option (result decoded) :=
  match run_loop fuel decoder attention_size impute_finished
          maximum_iterations with
  | Err e => Some (Err e)
  | Ok OutOfFuel => None
  | Ok (Raised _ e) => Some (Err e)
  | Ok (Exited _ res) => Some (after_loop decoder output_time_major res)
  end.
End Decoding.

End Decoder.

(** ** A small decoder to run the driver on

    Two batch elements decoded with teacher forcing against targets of
    lengths 1 and 3.  Tensors hold one integer per batch element; the state
    has a batched field, a scalar step counter and a history buffer. *)

Module Toy.

Import Py Tf Decoder.

Definition zeros (_ _ : unit) : Z := 0.

Definition cell (inputs : list Z) (state : list (@state_field Z))
  : (list Z * list (list Z) * Z) * list (@state_field Z) :=
  match state with
  | [FTensor (Batch h); FTensor (Scalar t); FArray history] =>
      let h' := zip_with Z.add h inputs in
      ((h', [h'], t),
       [FTensor (Batch h'); FTensor (Scalar (t + 1));
        FArray (history ++ [Some (Batch h')])])
  | _ => (([], [], 0), state)
  end.

Definition helper : @Helper Z (list Z) unit unit :=
  {| helper_batch_size := 2;
     sample_ids_shape := tt;
     sample_ids_dtype := tt;
     helper_initialize := ([false; false], [1; 1]);
     sample := fun _ outputs _ => outputs;
     next_inputs := fun time outputs state _ =>
       (map (fun l => l <=? time + 1) [1; 3], [time + 2; time + 2], state) |}.

Definition basic_decoder : @BasicDecoder Z (list Z) (list Z) Z unit unit :=
  {| _cell := cell;
     _helper := helper;
     _initial_state := [FTensor (Batch [10; 20]); FTensor (Scalar 0); FArray []];
     _output_layer := None;
     _rnn_output_size := tt;
     _dtype := tt |}.

Definition decoder : @Decoder.Decoder Z (list Z) (list Z) Z unit unit :=
  BasicDecoder_as_Decoder basic_decoder.

(** The loop variables of a run with [maximum_iterations = 5]. *)
Definition vars0 : @loop_vars Z (list Z) (list Z) Z :=
  initial_vars decoder tt (Some 5).

Definition zero_outputs : list (list Z) := [[0; 0]; [0; 0]].

(** The loop variables after one, two and three passes, with
    [impute_finished] on: the first element finishes in the first pass,
    the second in the third. *)
Definition vars1 : @loop_vars Z (list Z) (list Z) Z :=
  {| time := 1;
     outputs_ta := [[Some [11; 21]]; [Some [11; 21]]];
     state := [FTensor (Batch [11; 21]); FTensor (Scalar 1);
               FArray [Some (Batch [11; 21])]];
     inputs := [2; 2];
     finished := [true; false];
     sequence_lengths := [1; 0];
     attention := [[Some [11; 21]]];
     p_gens := [Some 0] |}.

Definition vars2 : @loop_vars Z (list Z) (list Z) Z :=
  {| time := 2;
     outputs_ta := [[Some [11; 21]; Some [0; 23]]; [Some [11; 21]; Some [0; 23]]];
     state := [FTensor (Batch [11; 23]); FTensor (Scalar 2);
               FArray [Some (Batch [11; 21]); Some (Batch [13; 23])]];
     inputs := [3; 3];
     finished := [true; false];
     sequence_lengths := [1; 0];
     attention := [[Some [11; 21]; Some [13; 23]]];
     p_gens := [Some 0; Some 1] |}.

Definition vars3 : @loop_vars Z (list Z) (list Z) Z :=
  {| time := 3;
     outputs_ta := [[Some [11; 21]; Some [0; 23]; Some [0; 26]];
                    [Some [11; 21]; Some [0; 23]; Some [0; 26]]];
     state := [FTensor (Batch [11; 26]); FTensor (Scalar 3);
               FArray [Some (Batch [11; 21]); Some (Batch [13; 23]);
                       Some (Batch [14; 26])]];
     inputs := [4; 4];
     finished := [true; true];
     sequence_lengths := [1; 3];
     attention := [[Some [11; 21]; Some [13; 23]; Some [14; 26]]];
     p_gens := [Some 0; Some 1; Some 2] |}.

(** What [dynamic_decode] returns for a batch-major run without
    [impute_finished]. *)
Definition decoded : @Decoder.decoded Z (list Z) Z :=
  {| final_outputs := [Dense [[11; 13; 16]; [21; 23; 26]];
                       Dense [[11; 13; 16]; [21; 23; 26]]];
     final_state :=
       [FTensor (Batch [16; 26]); FTensor (Scalar 3);
        FArray [Some (Batch [11; 21]); Some (Batch [13; 23]);
                Some (Batch [16; 26])]];
     final_sequence_lengths := [1; 3];
     final_attention := [Buffer [Some [11; 21]; Some [13; 23]; Some [16; 26]]];
     final_p_gens := Buffer [Some 0; Some 1; Some 2] |}.

End Toy.

(** ** data.py: the [Batch] class *)

Module Batch.

Import Py Data.

(** [l[start:end]] for Python integers: a negative index counts from the
    end, and both are clipped to the list. *)
Definition slice_index {A} (l : list A) (i : Z) : Z :=
  if i <? 0 then Z.max 0 (i + len l) else Z.min i (len l).

Definition slice {A} (start end_ : Z) (l : list A) : list A :=
  let s := slice_index l start in
  let e := slice_index l end_ in
  take (Z.to_nat (e - s)) (drop (Z.to_nat s) l).

(** [_get_vocab_as_list]: the distinct entries of the story and the query
    other than 0.  In which order [list(set(...))] lists them is the
    interpreter's affair; the list is only drawn from at random, so the
    order taken here only renames the draws. *)
Definition _get_vocab_as_list (story : list (list Z)) (query : list Z) : list Z :=
  filter (fun x => x <> 0) (remove_dups (concat story ++ query)).

(** [random.choice(seq)], [r] being the random number behind the draw:
    [None] is the [IndexError] raised for an empty sequence. *)
Definition random_choice (r : nat) (seq : list Z) : option Z :=
  seq !! (r mod length seq)%nat.

(** [a[a == element] = UNK_INDEX] on one row. *)
Definition replace_word (element : Z) (row : list Z) : list Z :=
  map (fun x => if decide (x = element) then UNK_INDEX else x) row.

(** [for element in sampled_words: ...]: the story and the query arrays
    after the loop. *)
Definition drop_words (sampled_words : list Z) (story : list (list Z))
           (query : list Z) : list (list Z) * list Z :=
  foldl (fun sq element => (map (replace_word element) sq.1,
                            replace_word element sq.2))
    (story, query) sampled_words.

Section RandomUnk.
(** [rand k] is the random number behind the [k]-th draw of the run. *)
Variables (rand : nat -> nat) (_unk_size : Z).

(** [list(map(lambda _: random.choice(vocab), range(self._unk_size)))],
    [c] draws having been made before. *)
Definition sampled_words (c : nat) (vocab : list Z) : option (list Z) :=
  mapM (fun j => random_choice (rand (c + j)) vocab)
       (seq 0 (Z.to_nat _unk_size)).

(** [_random_unk], for the integer arrays that [np.array] makes of rows
    of one length: the arrays of [stories] and [queries] as the loop leaves
    them (they are changed in place and returned), and the number of draws
    made so far. *)
Fixpoint _random_unk (c : nat) (stories : list (list (list Z)))
         (queries : list (list Z))
  : option (list (list (list Z)) * list (list Z) * nat) :=
  match stories, queries with
  | story :: stories', query :: queries' =>
      let vocab := _get_vocab_as_list story query in
      sampled ← sampled_words c vocab;
      let '(story, query) := drop_words sampled story query in
      '(new_stories, new_queries, c') ←
        _random_unk (c + Z.to_nat _unk_size) stories' queries';
      Some (story :: new_stories, query :: new_queries, c')
  | _, _ => Some ([], [], c)
  end.
End RandomUnk.

(** The attributes a [Batch] object holds after [__init__]. *)
Record batch_obj := BatchObj {
  _unk_size : Z;
  _stories : list (list (list Z));
  _queries : list (list Z);
  _answers : list (list Z);
  _answers_emb_lookup : list (list Z);
  _story_sizes : list (list Z);
  _query_sizes : list (list Z);
  _answer_sizes : list (list Z);
  _read_stories : list (list string);
  _read_queries : list string;
  _read_answers : list string;
  _oov_ids : list (list (list Z));
  _oov_sizes : list Z;
  _dialog_ids : list Z
}.

(** The list [l] with the arrays from place [start] on replaced by [new];
    [start] is a place of [l]. *)
Definition overwrite {A} (start : nat) (new l : list A) : list A :=
  take start l ++ new ++ drop (start + length new) l.

(** A [Data] object with other story and query arrays, the rest as it
    is. *)
Definition with_arrays (d : data_obj) (S : list (list (list Z)))
           (Q : list (list Z)) : data_obj :=
  {| Data._decode_vocab_size := Data._decode_vocab_size d;
     Data._stories_ext := Data._stories_ext d;
     Data._queries_ext := Data._queries_ext d;
     Data._answers_ext := Data._answers_ext d;
     Data._dialog_ids := Data._dialog_ids d;
     Data._stories := S;
     Data._story_sizes := Data._story_sizes d;
     Data._read_stories := Data._read_stories d;
     Data._oov_ids := Data._oov_ids d;
     Data._oov_sizes := Data._oov_sizes d;
     Data._oov_words := Data._oov_words d;
     Data._queries := Q;
     Data._query_sizes := Data._query_sizes d;
     Data._read_queries := Data._read_queries d;
     Data._answers := Data._answers d;
     Data._answer_sizes := Data._answer_sizes d;
     Data._read_answers := Data._read_answers d;
     Data._answers_emb_lookup := Data._answers_emb_lookup d |}.

(** [Batch.__init__].  The slices of [data.stories] and [data.queries] hold
    the arrays of [data] themselves, and [_random_unk] writes into them:
    the function returns the [Data] object as it is afterwards, the batch,
    and the number of draws made.  [None]: [random.choice] raised. *)
Definition __init__ (rand : nat -> nat) (c : nat) (data : data_obj)
           (start end_ : Z) (unk_size : Z) (word_drop : bool)
  : option (data_obj * batch_obj * nat) :=
  let stories := slice start end_ (Data.stories data) in
  let queries := slice start end_ (Data.queries data) in
  '(stories, queries, c) ←
    (if word_drop then _random_unk rand unk_size c stories queries
     else Some (stories, queries, c));
  let s := Z.to_nat (slice_index (Data.stories data) start) in
  let q := Z.to_nat (slice_index (Data.queries data) start) in
  Some (with_arrays data (overwrite s stories (Data._stories data))
          (overwrite q queries (Data._queries data)),
        {| _unk_size := unk_size;
           _stories := stories;
           _queries := queries;
           _answers := slice start end_ (Data.answers data);
           _answers_emb_lookup := slice start end_ (Data.answers_emb_lookup data);
           _story_sizes := slice start end_ (Data._story_sizes data);
           _query_sizes := slice start end_ (Data._query_sizes data);
           _answer_sizes := slice start end_ (Data.answer_sizes data);
           _read_stories := slice start end_ (Data._read_stories data);
           _read_queries := slice start end_ (Data._read_queries data);
           _read_answers := slice start end_ (Data._read_answers data);
           _oov_ids := slice start end_ (Data.oov_ids data);
           _oov_sizes := slice start end_ (Data._oov_sizes data);
           _dialog_ids := slice start end_ (Data.dialog_ids data) |},
        c).

(** A data set of three examples to cut batches from. *)
Definition example : data_obj :=
  {| Data._decode_vocab_size := 6;
     Data._stories_ext := [];
     Data._queries_ext := [];
     Data._answers_ext := [];
     Data._dialog_ids := [8; 7; 9];
     Data._stories := [[[4; 5; 0]; [5; 7; 0]]; [[6; 5; 0]; [0; 0; 0]];
                       [[0; 0; 0]; [0; 0; 0]]];
     Data._story_sizes := [[2; 2]; [2; 0]; [0; 0]];
     Data._read_stories := [["s0"]; ["s1"]; ["s2"]];
     Data._oov_ids := [[[4; 5; 0]; [5; 6; 0]]; [[6; 5; 0]; [0; 0; 0]];
                       [[0; 0; 0]; [0; 0; 0]]];
     Data._oov_sizes := [1; 1; 0];
     Data._oov_words := [["rome"]; ["paris"]; []];
     Data._queries := [[4; 7; 0]; [5; 0; 0]; [0; 0; 0]];
     Data._query_sizes := [[2]; [1]; [0]];
     Data._read_queries := ["q0"; "q1"; "q2"];
     Data._answers := [[4; 3; 0]; [5; 3; 0]; [3; 0; 0]];
     Data._answer_sizes := [[2]; [2]; [1]];
     Data._read_answers := ["a0"; "a1"; "a2"];
     Data._answers_emb_lookup := [[4; 3; 0]; [5; 3; 0]; [3; 0; 0]] |}.

End Batch.

(** ** memn2n/attention_wrapper.py: memory preparation and context *)

Module Memory.

Import Py Tf Attention.
Local Open Scope R_scope.

(** One entry of [array_ops.sequence_mask(lengths, maxlen, dtype)]. *)
Definition mask_value (l : Z) (t : nat) : R :=
  if (Z.of_nat t <? l)%Z then 1 else 0.

(** [m * seq_len_mask] on a vector and on a matrix below the time
    dimension: the mask is broadcast over the inner dimensions. *)
Definition scale_vector (v : list R) (c : R) : list R :=
  map (fun x => x * c) v.

Definition scale_matrix (m : list (list R)) (c : R) : list (list R) :=
  map (fun v => scale_vector v c) m.

(** [_prepare_memory] for a memory [[batch, time, ...]]; [mul] is the
    product with one mask entry below the time dimension, and
    [inner_dims_defined] is [m.get_shape()[2:].is_fully_defined()].  The
    batch sizes of the lengths and the memory are compared by
    [check_ops.assert_equal]. *)
Definition _prepare_memory {T} (mul : T -> R -> T) (memory : list (list T))
           (memory_sequence_length : option (list Z))
           (check_inner_dims_defined inner_dims_defined : bool)
  : result (list (list T)) :=
  if check_inner_dims_defined && negb inner_dims_defined then Err ValueError
  else
    match memory_sequence_length with
    | None => Ok memory
    | Some lengths =>
        if negb (length lengths =? length memory)%nat
        then Err InvalidArgumentError
        else Ok (zip_with (fun l row => imap (fun t x => mul x (mask_value l t)) row)
                   lengths memory)
    end.

(** [initial_alignments]: [_zero_state_tensors(max_time, batch_size, dtype)]
    with [max_time = self._word_alignments_size * self._alignments_size]. *)
Definition initial_alignments (self : CustomAttention) (batch_size : nat)
  : list (list R) :=
  let max_time := (_word_alignments_size self * _alignments_size self)%nat in
  replicate batch_size (replicate max_time 0).

(** The depth of the memory values, which the source reads off the static
    shape of [values]. *)
Definition values_depth (self : CustomAttention) : nat :=
  match _values self with
  | (v :: _) :: _ => length v
  | _ => O
  end.

(** [squeeze(matmul(expand_dims(alignments, 1), values), [1])] for
    [alignments : [batch, time]] and [values : [batch, time, depth]]. *)
Definition context_matmul (depth : nat) (alignments : list (list R))
           (values : list (list (list R))) : list (list R) :=
  zip_with (fun a vs => map (dot a) (transpose depth vs)) alignments values.

(** [_compute_attention].  [attention_layer] is a [Dense] layer without
    bias, given by its number of units and its kernel. *)
Definition _compute_attention (attention_mechanism : CustomAttention)
           (cell_output previous_alignments : list (list R))
           (attention_layer : option (nat * list (list R)))
  : result (list (list R) * list (list R)) :=
  '(alignments, word_alignments) ←
    __call__ attention_mechanism cell_output previous_alignments;
  let context :=
    context_matmul (values_depth attention_mechanism) alignments
      (_values attention_mechanism) in
  let attention :=
    match attention_layer with
    | Some (units, kernel) =>
        matmul units (concat_axis1 [cell_output; context]) kernel
    | None => context
    end in
  Ok (attention, word_alignments).

End Memory.

(** ** memn2n/dynamic_decoder.py: what the driver expects of a decoder *)

Module Structure.

Import Py Tf Decoder.

(** The kinds of entries of a state structure that [_maybe_copy_state]
    tells apart. *)
Inductive kind :=
  | KScalar
  | KBatch
  | KArray.

Definition kind_of {V} (f : @state_field V) : kind :=
  match f with
  | FTensor (Scalar _) => KScalar
  | FTensor (Batch _) => KBatch
  | FArray _ => KArray
  end.

(** A decoder whose [step] returns the structures the loop was set up for:
    one output for each entry of [output_size] (which has one type each),
    one attention tensor, and, for a state with the entries of the initial
    state, kind by kind, a state with these entries again. *)
Definition keeps_structure {V Inp Attn PGen Shape DType}
           (decoder : @Decoder V Inp Attn PGen Shape DType) : Prop :=
  length (output_size decoder) = length (output_dtype decoder) /\
  forall (time : Z) (inputs : Inp) (state : list (@state_field V)),
    map kind_of state = map kind_of (initialize decoder).2 ->
    let r := step decoder time inputs state in
    length r.1.1.1.1.1 = length (output_size decoder) /\
    length r.1.1.1.1.2 = 1%nat /\
    map kind_of r.1.1.2 = map kind_of state.

(** What [dynamic_decode] returns for the decoder of [Toy] in a time-major
    run with [impute_finished]. *)
Definition imputed : @Decoder.decoded Z (list Z) Z :=
  {| final_outputs := [Dense [[11; 21]; [0; 23]; [0; 26]];
                       Dense [[11; 21]; [0; 23]; [0; 26]]];
     final_state := state Toy.vars3;
     final_sequence_lengths := [1; 3];
     final_attention := [Buffer [Some [11; 21]; Some [13; 23]; Some [14; 26]]];
     final_p_gens := Buffer [Some 0; Some 1; Some 2] |}.

(** The same run with batch-major outputs. *)
Definition imputed_batch_major : @Decoder.decoded Z (list Z) Z :=
  {| final_outputs := [Dense [[11; 0; 0]; [21; 23; 26]];
                       Dense [[11; 0; 0]; [21; 23; 26]]];
     final_state := state Toy.vars3;
     final_sequence_lengths := [1; 3];
     final_attention := [Buffer [Some [11; 21]; Some [13; 23]; Some [14; 26]]];
     final_p_gens := Buffer [Some 0; Some 1; Some 2] |}.

End Structure.

(** ** [linear], in the words of its docstring *)

Module LinearSpec.

Import Py Tf Attention.
Local Open Scope R_scope.

(** The sum of two matrices of the same shape. *)
Definition matrix_add (a b : list (list R)) : list (list R) :=
  zip_with (zip_with Rplus) a b.

(** [sum_i(args[i] * W[i])] for [batch x n_i] arguments and [n_i x m]
    matrices [W[i]]. *)
Definition sum_of_products (m batch : nat) (args : list (list (list R)))
           (W : list (list (list R))) : list (list R) :=
  foldr matrix_add (replicate batch (replicate m 0)) (zip_with (matmul m) args W).

(** An argument [a] of [batch] rows and the block [W[i]] of [m] columns by
    which it is multiplied: the width of [a] is the height of the block. *)
Definition block (m batch : nat) (a : list (list R)) (Wi : list (list R)) : Prop :=
  length a = batch /\ Forall (fun r => length r = length Wi) a /\
  Forall (fun w => length w = m) Wi.

(** An argument whose static shape [linear] accepts: two dimensions, the
    second one known and not 0. *)
Definition accepted (a : tensor) : Prop :=
  exists (d0 : option Z) (n : Z), get_shape a = [d0; Some n] /\ n <> 0%Z.

End LinearSpec.

(** ** data.py: the shapes of the arrays *)

Module Shapes.

Import Py Data.

(** The index of the first example of the batch that holds example [i]. *)
Definition batch_lead (batch_size i : nat) : nat := (i - i mod batch_size)%nat.

(** The value of [memory_size] in the pass for example [i]: the one set in
    the pass for the first example of its batch. *)
Definition memory_size_at (max_memory_size : Z) (batch_size : nat)
           (stories : list (list (list string))) (i : nat) : Z :=
  Z.max 1 (Z.min max_memory_size
             (len (default [] (stories !! batch_lead batch_size i)))).

(** The row of word ids of a sentence, padded to [sentence_size]. *)
Definition word_row (word_idx : gmap string Z) (sentence_size : Z)
           (sentence : list string) : list Z :=
  map (word_id word_idx) sentence
  ++ repeat_list 0 (Z.max 0 (sentence_size - len sentence)).

End Shapes.

(** ** data.py: a batch and the data it is cut from *)

Module BatchSpec.

Import Py Data.

(** What an object holds for one example: its entry in each of the lists
    that have one entry for each example. *)
Definition example_view : Type :=
  option (list (list Z)) * option (list Z) * option (list Z) * option (list Z)
  * option (list Z) * option (list Z) * option (list Z)
  * option (list string) * option string * option string
  * option (list (list Z)) * option Z * option Z.

Definition data_example (d : data_obj) (i : nat) : example_view :=
  (stories d !! i, queries d !! i, answers d !! i, answers_emb_lookup d !! i,
   _story_sizes d !! i, _query_sizes d !! i, answer_sizes d !! i,
   _read_stories d !! i, _read_queries d !! i, _read_answers d !! i,
   oov_ids d !! i, _oov_sizes d !! i, dialog_ids d !! i).

Definition batch_example (b : Batch.batch_obj) (k : nat) : example_view :=
  (Batch._stories b !! k, Batch._queries b !! k, Batch._answers b !! k,
   Batch._answers_emb_lookup b !! k,
   Batch._story_sizes b !! k, Batch._query_sizes b !! k,
   Batch._answer_sizes b !! k,
   Batch._read_stories b !! k, Batch._read_queries b !! k,
   Batch._read_answers b !! k,
   Batch._oov_ids b !! k, Batch._oov_sizes b !! k, Batch._dialog_ids b !! k).

Definition no_example : example_view :=
  (None, None, None, None, None, None, None, None, None, None, None, None, None).

(** An entry of an example of which the words [dropped] were replaced. *)
Definition drop_words_of (dropped : list Z) (x : Z) : Z :=
  if decide (x ∈ dropped) then UNK_INDEX else x.

End BatchSpec.

(** * Properties *)

(** ** Computations that return or raise *)

Module ResultFacts.

Import Py.

Lemma bind_Ok {A B} (m : result A) (f : A -> result B) (b : B) :
  m ≫= f = Ok b -> exists a, m = Ok a /\ f a = Ok b.
Proof. destruct m as [a|e]; simpl; [eauto | discriminate]. Qed.

End ResultFacts.

(** ** data.py *)

Module DataProps.

Import Py Data.

(** *** Python's sort *)
Section Sort.
Context {A : Type} (key : A -> Z).

Lemma insert_reverse_perm (x : A) (l : list A) :
  Permutation (insert_reverse key x l) (x :: l).
Proof.
  induction l as [|y l IH]; simpl; [reflexivity|].
  destruct (key x <? key y); [|reflexivity].
  rewrite IH. apply perm_swap.
Qed.

Lemma sort_reverse_perm (l : list A) : Permutation (sort_reverse key l) l.
Proof.
  induction l as [|x l IH]; simpl; [reflexivity|].
  rewrite insert_reverse_perm. constructor. exact IH.
Qed.

Lemma insert_reverse_sorted (x : A) (l : list A) :
  StronglySorted (fun a b => key b <= key a) l ->
  StronglySorted (fun a b => key b <= key a) (insert_reverse key x l).
Proof.
  induction 1 as [|y l Hl IH Hy]; simpl.
  - repeat constructor.
  - destruct (Z.ltb_spec (key x) (key y)) as [Hlt|Hge].
    + constructor; [exact IH|].
      rewrite insert_reverse_perm. constructor; [lia | exact Hy].
    + constructor; [constructor; assumption|].
      constructor; [exact Hge|].
      eapply Forall_impl; [exact Hy|]. simpl. intros z Hz. lia.
Qed.

Lemma sort_reverse_sorted (l : list A) :
  StronglySorted (fun a b => key b <= key a) (sort_reverse key l).
Proof.
  induction l as [|x l IH]; simpl; [constructor|].
  apply insert_reverse_sorted. exact IH.
Qed.

(** Stability: elements with the same key keep their input order. *)
Lemma insert_reverse_stable (n : Z) (x : A) (l : list A) :
  StronglySorted (fun a b => key b <= key a) l ->
  filter (fun a => key a = n) (insert_reverse key x l) =
  filter (fun a => key a = n) (x :: l).
Proof.
  induction 1 as [|y l Hl IH Hy]; simpl; [reflexivity|].
  destruct (Z.ltb_spec (key x) (key y)) as [Hlt|Hge]; [|reflexivity].
  rewrite !filter_cons in *.
  destruct (decide (key y = n)) as [Hy'|Hy'];
    destruct (decide (key x = n)) as [Hx'|Hx']; rewrite IH; try reflexivity.
  lia.
Qed.

Lemma sort_reverse_stable (n : Z) (l : list A) :
  filter (fun a => key a = n) (sort_reverse key l) =
  filter (fun a => key a = n) l.
Proof.
  induction l as [|x l IH]; simpl; [reflexivity|].
  rewrite insert_reverse_stable by apply sort_reverse_sorted.
  rewrite !filter_cons, IH. reflexivity.
Qed.
End Sort.

(** *** [list.index] *)

Lemma index_None (w : string) (l : list string) :
  index w l = None <-> w ∉ l.
Proof.
  induction l as [|x l IH]; simpl.
  - split; [intros _; apply not_elem_of_nil | reflexivity].
  - destruct (decide (x = w)) as [->|Hne].
    + split; [discriminate | intros H; exfalso; apply H; left].
    + rewrite not_elem_of_cons. destruct (index w l); simpl.
      * split; [discriminate|]. intros [_ H]. apply IH in H. discriminate.
      * split; [|reflexivity]. intros _. split; [congruence | apply IH; reflexivity].
Qed.

Lemma index_Some (w : string) (l : list string) (k : nat) :
  index w l = Some k -> l !! k = Some w.
Proof.
  revert k. induction l as [|x l IH]; intros k; simpl; [discriminate|].
  destruct (decide (x = w)) as [->|Hne].
  - intros H. inversion H. reflexivity.
  - destruct (index w l) as [j|]; simpl; [|discriminate].
    intros H. inversion H. simpl. apply IH. reflexivity.
Qed.

Lemma index_elem (w : string) (l : list string) :
  w ∈ l -> exists k, index w l = Some k.
Proof.
  intros H. destruct (index w l) as [k|] eqn:E; [eauto|].
  apply index_None in E. contradiction.
Qed.

Lemma index_app_l (w : string) (l ext : list string) (k : nat) :
  index w l = Some k -> index w (l ++ ext) = Some k.
Proof.
  revert k. induction l as [|x l IH]; intros k; simpl; [discriminate|].
  destruct (decide (x = w)); [auto|].
  destruct (index w l) as [j|]; simpl; [|discriminate].
  intros H. rewrite (IH j eq_refl). exact H.
Qed.

Lemma index_app_new (w : string) (l : list string) :
  index w l = None -> index w (l ++ [w]) = Some (length l).
Proof.
  induction l as [|x l IH]; simpl.
  - intros _. destruct (decide (w = w)); [reflexivity | contradiction].
  - destruct (decide (x = w)); [discriminate|].
    destruct (index w l); simpl; [discriminate|].
    intros _. rewrite IH; reflexivity.
Qed.

Lemma index_NoDup (l : list string) (j : nat) (w : string) :
  NoDup l -> l !! j = Some w -> index w l = Some j.
Proof.
  intros Hnd. revert j. induction Hnd as [|x l Hx Hnd IH]; intros j Hj;
    [discriminate|].
  destruct j as [|j]; simpl in *.
  - inversion Hj; subst. destruct (decide (w = w)); [reflexivity | contradiction].
  - destruct (decide (x = w)) as [->|Hne].
    + exfalso. apply Hx. eapply list_elem_of_lookup_2. exact Hj.
    + rewrite (IH j Hj). reflexivity.
Qed.

(** *** First appearances *)

Lemma elem_of_distinct (w : string) (l : list string) :
  w ∈ distinct l <-> w ∈ l.
Proof.
  induction l as [|x l IH]; simpl; [reflexivity|].
  rewrite !elem_of_cons, list_elem_of_filter, IH.
  destruct (decide (w = x)); tauto.
Qed.

Lemma NoDup_distinct (l : list string) : NoDup (distinct l).
Proof.
  induction l as [|x l IH]; simpl; constructor.
  - rewrite list_elem_of_filter. tauto.
  - apply NoDup_filter. exact IH.
Qed.

Lemma index_cons_ne (x w : string) (l : list string) (p : nat) :
  x <> w -> index w l = Some p -> index w (x :: l) = Some (S p).
Proof.
  intros Hne Hp. simpl. destruct (decide (x = w)); [contradiction|].
  rewrite Hp. reflexivity.
Qed.

(** [filter] keeps the relative order of the elements it keeps. *)
Lemma filter_lookup_order (P : string -> Prop) `{forall x, Decision (P x)}
      (l : list string) (a b : nat) (x y : string) :
  filter P l !! a = Some x -> filter P l !! b = Some y -> (a < b)%nat ->
  exists a' b', l !! a' = Some x /\ l !! b' = Some y /\ (a' < b')%nat.
Proof.
  revert a b. induction l as [|z l IH]; intros a b Ha Hb Hab; [discriminate|].
  rewrite filter_cons in Ha, Hb. destruct (decide (P z)) as [Hz|Hz].
  - destruct b as [|b]; [lia|]. simpl in Hb. destruct a as [|a]; simpl in Ha.
    + inversion Ha; subst z.
      assert (Hy : y ∈ l).
      { apply (list_elem_of_filter P). eapply list_elem_of_lookup_2. exact Hb. }
      apply list_elem_of_lookup_1 in Hy. destruct Hy as (b' & Hb').
      exists 0%nat, (S b'). repeat split; [exact Hb' | lia].
    + destruct (IH a b Ha Hb ltac:(lia)) as (a' & b' & ? & ? & ?).
      exists (S a'), (S b'). repeat split; [assumption | assumption | lia].
  - destruct (IH a b Ha Hb Hab) as (a' & b' & ? & ? & ?).
    exists (S a'), (S b'). repeat split; [assumption | assumption | lia].
Qed.

Lemma index_filter_order (P : string -> Prop) `{forall x, Decision (P x)}
      (l : list string) (w1 w2 : string) (p1 p2 : nat) :
  index w1 (filter P l) = Some p1 -> index w2 (filter P l) = Some p2 ->
  (p1 < p2)%nat ->
  exists q1 q2, index w1 l = Some q1 /\ index w2 l = Some q2 /\ (q1 < q2)%nat.
Proof.
  revert p1 p2. induction l as [|z l IH]; intros p1 p2 H1 H2 Hlt; [discriminate|].
  rewrite filter_cons in H1, H2. destruct (decide (P z)) as [Hz|Hz].
  - simpl in H1, H2. destruct (decide (z = w1)) as [->|Hne1].
    + inversion H1; subst p1.
      destruct (decide (w1 = w2)) as [->|Hne2]; [inversion H2; lia|].
      destruct (index w2 (filter P l)) as [p|] eqn:Hp; [|discriminate].
      assert (Hin : w2 ∈ l).
      { apply (list_elem_of_filter P). eapply list_elem_of_lookup_2.
        apply index_Some. exact Hp. }
      destruct (index_elem _ _ Hin) as (q & Hq).
      exists 0%nat, (S q). split; [|split; [apply index_cons_ne; assumption | lia]].
      simpl. destruct (decide (w1 = w1)); [reflexivity | contradiction].
    + destruct (index w1 (filter P l)) as [p1'|] eqn:Hp1; [|discriminate].
      inversion H1; subst p1.
      destruct (decide (z = w2)) as [->|Hne2]; [inversion H2; lia|].
      destruct (index w2 (filter P l)) as [p2'|] eqn:Hp2; [|discriminate].
      inversion H2; subst p2.
      destruct (IH p1' p2' eq_refl eq_refl ltac:(lia)) as (q1 & q2 & ? & ? & ?).
      exists (S q1), (S q2).
      split; [apply index_cons_ne; assumption|].
      split; [apply index_cons_ne; assumption | lia].
  - assert (Hne : forall w p, index w (filter P l) = Some p -> z <> w).
    { intros w p Hp ->. apply Hz.
      apply (list_elem_of_filter P l w). eapply list_elem_of_lookup_2.
      apply index_Some. exact Hp. }
    destruct (IH p1 p2 H1 H2 Hlt) as (q1 & q2 & ? & ? & ?).
    exists (S q1), (S q2).
    split; [apply index_cons_ne; [eapply Hne; exact H1 | assumption]|].
    split; [apply index_cons_ne; [eapply Hne; exact H2 | assumption] | lia].
Qed.

(** [distinct] lists the elements in the order of their first appearance. *)
Lemma distinct_order (l : list string) (j1 j2 : nat) (w1 w2 : string) :
  distinct l !! j1 = Some w1 -> distinct l !! j2 = Some w2 -> (j1 < j2)%nat ->
  exists p1 p2, index w1 l = Some p1 /\ index w2 l = Some p2 /\ (p1 < p2)%nat.
Proof.
  revert j1 j2. induction l as [|x l IH]; intros j1 j2 H1 H2 Hlt; [discriminate|].
  simpl in H1, H2. destruct j2 as [|j2]; [lia|]. simpl in H2.
  assert (Hw2 : w2 <> x /\ w2 ∈ l).
  { apply list_elem_of_lookup_2 in H2. apply list_elem_of_filter in H2.
    destruct H2 as [Hne Hin]. split; [exact Hne|].
    apply elem_of_distinct. exact Hin. }
  destruct Hw2 as [Hne2 Hin2].
  destruct j1 as [|j1]; simpl in H1.
  - inversion H1; subst x.
    destruct (index_elem _ _ Hin2) as (p & Hp).
    exists 0%nat, (S p). split; [|split; [apply index_cons_ne; auto | lia]].
    simpl. destruct (decide (w1 = w1)); [reflexivity | contradiction].
  - assert (Hne1 : w1 <> x).
    { apply list_elem_of_lookup_2 in H1. apply list_elem_of_filter in H1.
      apply H1. }
    destruct (filter_lookup_order _ _ _ _ _ _ H1 H2 ltac:(lia))
      as (a & b & Ha & Hb & Hab).
    destruct (IH a b Ha Hb Hab) as (p1 & p2 & ? & ? & ?).
    exists (S p1), (S p2).
    split; [apply index_cons_ne; auto|].
    split; [apply index_cons_ne; auto | lia].
Qed.

(** *** [_vectorize_stories] *)
Section Stories.
Variables (word_idx : gmap string Z) (sentence_size batch_size : Z)
          (decode_vocab_size max_memory_size : Z)
          (decoder_vocab : gmap string Z).

Local Abbreviation oov_word_step := (oov_word_step decode_vocab_size decoder_vocab).
Local Abbreviation oov_sentence_loop :=
  (oov_sentence_loop decode_vocab_size decoder_vocab).
Local Abbreviation sentence_body :=
  (sentence_body word_idx sentence_size decode_vocab_size decoder_vocab).
Local Abbreviation story_loop :=
  (story_loop word_idx sentence_size decode_vocab_size decoder_vocab).
Local Abbreviation story_body :=
  (story_body word_idx sentence_size decode_vocab_size decoder_vocab).
Local Abbreviation stories_loop :=
  (stories_loop word_idx sentence_size batch_size decode_vocab_size
     max_memory_size decoder_vocab).
Local Abbreviation copy_id := (copy_id decode_vocab_size decoder_vocab).

(** The table after the words [ws], from the table [oov]. *)
Local Abbreviation table_after := (table_after decoder_vocab).

Lemma oov_word_step_table (oov : list string) (w : string) :
  forall rest : list string,
    table_after (oov_word_step oov w).2 rest = table_after oov (w :: rest).
Proof.
  intros rest. unfold Data.oov_word_step, Data.table_after.
  destruct (decoder_vocab !! w) as [i|] eqn:Hw; simpl.
  - rewrite filter_cons_False by congruence. reflexivity.
  - rewrite (filter_cons_True _ w) by exact Hw. simpl.
    destruct (index w oov) as [k|] eqn:Hk; simpl.
    + assert (Hin : w ∈ oov).
      { eapply list_elem_of_lookup_2. apply index_Some. exact Hk. }
      rewrite filter_cons_False by (intros H; apply H; exact Hin).
      rewrite list_filter_filter. f_equal. apply list_filter_iff.
      intros x. split; [|intros [Hx _]; exact Hx].
      intros Hx. split; [exact Hx|]. intros ->. contradiction.
    + apply index_None in Hk.
      rewrite filter_cons_True by exact Hk.
      rewrite list_filter_filter, <- app_assoc. simpl. do 2 f_equal.
      apply list_filter_iff. intros x.
      rewrite not_elem_of_app, not_elem_of_cons. pose proof (not_elem_of_nil x).
      split; [intros (? & ? & _); split; assumption|].
      intros [? ?]. repeat split; assumption.
Qed.

Lemma table_after_nil (ws : list string) :
  table_after [] ws =
  distinct (filter (fun w => decoder_vocab !! w = None) ws).
Proof.
  unfold Data.table_after. simpl.
  induction (distinct _) as [|x l IH]; [reflexivity|].
  rewrite filter_cons_True by apply not_elem_of_nil. f_equal. exact IH.
Qed.

Lemma table_after_done (oov : list string) : table_after oov [] = oov.
Proof. unfold Data.table_after. simpl. apply app_nil_r. Qed.

(** The word loop: the table it leaves, and the ids it appends, which no
    later growth of the table changes. *)
Lemma oov_sentence_loop_spec (sentence oov : list string) :
  forall rest : list string,
    table_after (oov_sentence_loop oov sentence).2 rest =
    table_after oov (sentence ++ rest).
Proof.
  revert oov. induction sentence as [|w sentence IH]; intros oov rest;
    [reflexivity|].
  simpl. destruct (Data.oov_word_step _ _ oov w) as [i oov1] eqn:Hstep.
  destruct (Data.oov_sentence_loop _ _ oov1 sentence) as [ids oov2] eqn:Hloop.
  simpl. rewrite <- oov_word_step_table, Hstep. simpl.
  rewrite <- IH, Hloop. reflexivity.
Qed.

Lemma oov_word_step_id (oov : list string) (w : string) :
  exists ext, (oov_word_step oov w).2 = oov ++ ext /\
    forall ext', (oov_word_step oov w).1 =
                 copy_id ((oov_word_step oov w).2 ++ ext') w.
Proof.
  unfold Data.oov_word_step, Data.copy_id.
  destruct (decoder_vocab !! w) as [i|] eqn:Hw; simpl.
  - exists []. rewrite app_nil_r. auto.
  - destruct (index w oov) as [k|] eqn:Hk; simpl.
    + exists []. rewrite app_nil_r. split; [reflexivity|]. intros ext'.
      rewrite (index_app_l _ _ ext' _ Hk). reflexivity.
    + exists [w]. split; [reflexivity|]. intros ext'.
      rewrite (index_app_l _ _ ext' _ (index_app_new _ _ Hk)). reflexivity.
Qed.

Lemma oov_sentence_loop_ids (sentence oov : list string) :
  exists ext, (oov_sentence_loop oov sentence).2 = oov ++ ext /\
    forall ext', (oov_sentence_loop oov sentence).1 =
                 map (copy_id ((oov_sentence_loop oov sentence).2 ++ ext')) sentence.
Proof.
  revert oov. induction sentence as [|w sentence IH]; intros oov.
  - exists []. rewrite app_nil_r. auto.
  - simpl. destruct (oov_word_step_id oov w) as (e1 & He1 & Hid).
    destruct (Data.oov_word_step _ _ oov w) as [i oov1] eqn:Hstep.
    simpl in He1, Hid.
    destruct (IH oov1) as (e2 & He2 & Hids).
    destruct (Data.oov_sentence_loop _ _ oov1 sentence) as [ids oov2] eqn:Hloop.
    simpl in He2, Hids |- *.
    exists (e1 ++ e2). split; [rewrite He2, He1, app_assoc; reflexivity|].
    intros ext'. rewrite <- Hids. f_equal.
    rewrite (Hid (e2 ++ ext')), He2, app_assoc. reflexivity.
Qed.

Lemma sentence_body_eq (oov sentence : list string) :
  sentence_body oov sentence =
  ({| sv_ss := map (word_id word_idx) sentence
               ++ repeat_list 0 (Z.max 0 (sentence_size - len sentence));
      sv_size := len sentence;
      sv_string := join " " (last_n 2 sentence) +:+ " : "
                   +:+ join " " (but_last_n 2 sentence);
      sv_oov_ids := (oov_sentence_loop oov sentence).1
               ++ repeat_list PAD_INDEX (Z.max 0 (sentence_size - len sentence)) |},
   (oov_sentence_loop oov sentence).2).
Proof.
  unfold Data.sentence_body.
  destruct (Data.oov_sentence_loop _ _ oov sentence) as [ids oov']. reflexivity.
Qed.

(** The row of copy ids of one sentence, under the example's table. *)
Local Abbreviation oov_row table :=
  (fun sentence : list string =>
     app (map (copy_id table) sentence)
       (repeat_list PAD_INDEX (Z.max 0 (sentence_size - len sentence)))).

Lemma story_loop_spec (story : list (list string)) (oov : list string) :
  (forall rest : list string,
     table_after (story_loop oov story).2 rest =
     table_after oov (concat story ++ rest)) /\
  (exists ext, (story_loop oov story).2 = oov ++ ext /\
     forall ext', map sv_oov_ids (story_loop oov story).1 =
                  map (oov_row ((story_loop oov story).2 ++ ext')) story) /\
  map sv_ss (story_loop oov story).1 =
    map (fun sentence => map (word_id word_idx) sentence
           ++ repeat_list 0 (Z.max 0 (sentence_size - len sentence))) story /\
  map sv_size (story_loop oov story).1 = map len story.
Proof.
  revert oov. induction story as [|sentence story IH]; intros oov.
  - simpl. split; [reflexivity|]. split; [|split; reflexivity].
    exists []. rewrite app_nil_r. auto.
  - cbn [Data.story_loop]. rewrite sentence_body_eq.
    destruct (oov_sentence_loop_ids sentence oov) as (e1 & He1 & Hids).
    pose proof (oov_sentence_loop_spec sentence oov) as Htab.
    destruct (Data.oov_sentence_loop _ _ oov sentence) as [ids oov1] eqn:Hloop.
    cbn [fst snd] in He1, Hids, Htab |- *.
    destruct (IH oov1) as (Htab' & (e2 & He2 & Hrows) & Hss & Hsz).
    destruct (Data.story_loop _ _ _ _ oov1 story) as [vs oov2] eqn:Hstory.
    cbn [fst snd map] in Htab', He2, Hrows, Hss, Hsz |- *.
    split; [|split; [|split]].
    + intros rest. rewrite Htab', Htab, app_assoc. reflexivity.
    + exists (e1 ++ e2). split; [rewrite He2, He1, app_assoc; reflexivity|].
      intros ext'. rewrite <- Hrows. f_equal. f_equal.
      rewrite (Hids (e2 ++ ext')), He2, app_assoc. reflexivity.
    + rewrite Hss. reflexivity.
    + rewrite Hsz. reflexivity.
Qed.

(** What [story_body] yields for the copy mechanism: the example's table,
    and the rows of the most recent [memory_size] sentences under it,
    padded with empty rows. *)
Lemma story_body_oov (memory_size : Z) (story : list (list string)) :
  let table := oov_table decoder_vocab story in
  let rows := rev_take_rev memory_size (map (oov_row table) story) in
  st_oov_words (story_body memory_size story) = table /\
  st_oov_size (story_body memory_size story) = len table /\
  st_oov_ids (story_body memory_size story) =
    rows ++ repeat_list (repeat_list 0 sentence_size)
              (Z.max 0 (memory_size - len rows)).
Proof.
  intros table rows. unfold Data.story_body.
  destruct (story_loop_spec story []) as (Htab & (ext & Hext & Hrows) & Hss & Hsz).
  destruct (Data.story_loop _ _ _ _ [] story) as [vs oov'] eqn:Hloop.
  cbn [fst snd] in Htab, Hext, Hrows, Hss, Hsz |- *. clear Hext.
  assert (Htable : oov' = table).
  { specialize (Htab []). rewrite table_after_done, app_nil_r in Htab.
    rewrite Htab, table_after_nil. reflexivity. }
  subst oov'. split; [reflexivity|]. split; [reflexivity|].
  specialize (Hrows []). rewrite app_nil_r in Hrows.
  rewrite Hrows, Hss. fold rows.
  assert (Hlen : forall (A B : Type) (f : list string -> A) (g : list string -> B),
            len (rev_take_rev memory_size (map f story)) =
            len (rev_take_rev memory_size (map g story))).
  { intros A B f g. unfold len, rev_take_rev.
    rewrite !length_reverse, !length_take, !length_reverse, !length_fmap.
    reflexivity. }
  unfold rows. rewrite (Hlen _ _ _ (oov_row table)). reflexivity.
Qed.

Lemma stories_loop_spec (stories : list (list (list string))) :
  batch_size <> 0 ->
  forall (i0 : Z) (memory_size : option Z),
    (i0 mod batch_size = 0 \/ exists m, memory_size = Some m /\ 1 <= m) ->
    exists vs, stories_loop i0 memory_size stories = Some vs /\
      length vs = length stories /\
      forall (j : nat) (story : list (list string)), stories !! j = Some story ->
        exists m, 1 <= m /\ vs !! j = Some (story_body m story).
Proof.
  intros Hb. induction stories as [|story stories IH]; intros i0 ms Hms.
  - exists []. split; [reflexivity|]. split; [reflexivity|]. intros j s Hj.
    discriminate.
  - cbn [Data.stories_loop].
    destruct (decide (batch_size = 0)) as [|_]; [contradiction|].
    set (ms' := if decide (i0 mod batch_size = 0)
                then Some (Z.max 1 (Z.min max_memory_size (len story)))
                else ms).
    assert (Hms' : exists m, ms' = Some m /\ 1 <= m).
    { unfold ms'. destruct (decide (i0 mod batch_size = 0)) as [|Hne].
      - eexists. split; [reflexivity | lia].
      - destruct Hms as [|Hm]; [contradiction | exact Hm]. }
    destruct Hms' as (m & Hm & Hm1). rewrite Hm. simpl.
    destruct (IH (i0 + 1) (Some m)) as (vs & Hvs & Hl & Hj); [eauto|].
    rewrite Hvs. simpl. eexists. split; [reflexivity|].
    split; [simpl; rewrite Hl; reflexivity|].
    intros [|j] s Hs; simpl in Hs.
    + inversion Hs; subst s. exists m. split; [exact Hm1 | reflexivity].
    + apply (Hj j s Hs).
Qed.

End Stories.

(** C7. [_vectorize_stories] returns (for a batch size other than 0), and
    for every example: its table of out-of-vocabulary words is the
    distinct words of its sentences that are absent from the decoder
    vocabulary, in the order of their first appearance; the words of the
    vocabulary keep their vocabulary ids; the word at place [j] of the
    table has the id [decode_vocab_size + j] wherever it occurs, so the
    first such word has the id [decode_vocab_size], the next new one
    [decode_vocab_size + 1], and so on, all ids being at least
    [decode_vocab_size]; the table depends on this example alone, so the
    numbering starts again with each example.  The rows returned are those
    of the most recent [memory_size] sentences, padded. *)
Theorem C7_oov_ids_in_order_of_first_appearance
    (word_idx : gmap string Z) (sentence_size batch_size : Z)
    (decode_vocab_size max_memory_size : Z) (decoder_vocab : gmap string Z)
    (stories : list (list (list string))) :
  batch_size <> 0 ->
  exists (S : list (list (list Z))) (SZ : list (list Z))
         (RS : list (list string))
         (OOV_ids : list (list (list Z))) (OOV_size : list Z)
         (OOV_words : list (list string)),
    _vectorize_stories word_idx sentence_size batch_size decode_vocab_size
      max_memory_size decoder_vocab stories
      = Some (S, SZ, RS, OOV_ids, OOV_size, OOV_words) /\
    forall (i : nat) (story : list (list string)), stories !! i = Some story ->
      let table := oov_table decoder_vocab story in
      let id := copy_id decode_vocab_size decoder_vocab table in
      OOV_words !! i = Some table /\
      OOV_size !! i = Some (len table) /\
      (exists memory_size : Z, 1 <= memory_size /\
         let rows :=
           rev_take_rev memory_size
             (map (fun sentence : list string =>
                     map id sentence ++
                     repeat_list PAD_INDEX
                       (Z.max 0 (sentence_size - len sentence))) story) in
         OOV_ids !! i =
           Some (rows ++ repeat_list (repeat_list 0 sentence_size)
                           (Z.max 0 (memory_size - len rows)))) /\
      NoDup table /\
      (forall w : string,
         w ∈ table <-> w ∈ concat story /\ decoder_vocab !! w = None) /\
      (forall (j : nat) (w : string), table !! j = Some w ->
         id w = decode_vocab_size + Z.of_nat j) /\
      (forall w : string, w ∈ concat story -> decoder_vocab !! w = None ->
         decode_vocab_size <= id w) /\
      (forall (w : string) (v : Z), decoder_vocab !! w = Some v -> id w = v) /\
      (forall (j1 j2 : nat) (w1 w2 : string),
         table !! j1 = Some w1 -> table !! j2 = Some w2 -> (j1 < j2)%nat ->
         exists p1 p2 : nat,
           index w1 (concat story) = Some p1 /\
           index w2 (concat story) = Some p2 /\ (p1 < p2)%nat).
Proof.
  intros Hb.
  destruct (stories_loop_spec word_idx sentence_size batch_size decode_vocab_size
              max_memory_size decoder_vocab stories Hb 0 None)
    as (vs & Hvs & Hl & Hj).
  { left. apply Z.mod_0_l. exact Hb. }
  exists (map st_ss vs), (map st_sizes vs), (map st_string vs),
         (map st_oov_ids vs), (map st_oov_size vs), (map st_oov_words vs).
  split; [unfold _vectorize_stories; rewrite Hvs; reflexivity|].
  intros i story Hi table id.
  destruct (Hj i story Hi) as (m & Hm & Hv).
  destruct (story_body_oov word_idx sentence_size decode_vocab_size
              decoder_vocab m story) as (Hw & Hs & Hids).
  rewrite !list_lookup_fmap, Hv. simpl. rewrite Hw, Hs, Hids.
  assert (Hnd : NoDup table) by apply NoDup_distinct.
  assert (Hin : forall w : string,
            w ∈ table <-> w ∈ concat story /\ decoder_vocab !! w = None).
  { intros w. unfold table, oov_table.
    rewrite elem_of_distinct, list_elem_of_filter. tauto. }
  split; [reflexivity|]. split; [reflexivity|].
  split; [exists m; split; [exact Hm | reflexivity]|].
  split; [exact Hnd|]. split; [exact Hin|].
  split; [|split; [|split]].
  - intros j w Hjw. unfold id, copy_id.
    assert (Hw' : decoder_vocab !! w = None).
    { apply (Hin w). eapply list_elem_of_lookup_2. exact Hjw. }
    rewrite Hw', (index_NoDup table j w Hnd Hjw). reflexivity.
  - intros w Hws Hw'. unfold id, copy_id. rewrite Hw'.
    destruct (index w table); unfold len; lia.
  - intros w v Hv'. unfold id, copy_id. rewrite Hv'. reflexivity.
  - intros j1 j2 w1 w2 H1 H2 Hlt.
    destruct (distinct_order _ _ _ _ _ H1 H2 Hlt) as (p1 & p2 & Hp1 & Hp2 & Hp).
    exact (index_filter_order _ _ _ _ _ _ Hp1 Hp2 Hp).
Qed.


(** *** [_vectorize_answers] *)
Section Answers.
Variables (decoder_vocab : gmap string Z) (candidate_sentence_size : Z)
          (OOV_words : list (list string)) (decode_vocab_size : Z).

Local Abbreviation answer_word :=
  (answer_word decoder_vocab OOV_words decode_vocab_size).
Local Abbreviation answer_body :=
  (answer_body decoder_vocab candidate_sentence_size OOV_words decode_vocab_size).
Local Abbreviation answers_loop :=
  (answers_loop decoder_vocab candidate_sentence_size OOV_words decode_vocab_size).

Lemma answer_words (i : nat) (table : list string) (answer : list string) :
  OOV_words !! i = Some table ->
  mapM (answer_word i) answer =
  Some (map (fun w => (answer_id decode_vocab_size decoder_vocab table w,
                       answer_emb_id decoder_vocab w)) answer).
Proof.
  intros Hi. induction answer as [|w answer IH]; [reflexivity|].
  cbn [mapM map]. rewrite IH.
  unfold Data.answer_word, answer_id, answer_emb_id. rewrite Hi.
  destruct (decoder_vocab !! w); simpl; [reflexivity|].
  destruct (index w table); reflexivity.
Qed.

Lemma answer_body_eq (i : nat) (table : list string) (answer : list string) :
  OOV_words !! i = Some table ->
  answer_body i answer =
  Some {| av_a := map (answer_id decode_vocab_size decoder_vocab table) answer
                  ++ [EOS_INDEX]
                  ++ repeat_list PAD_INDEX
                       (Z.max 0 (candidate_sentence_size - len answer - 1));
          av_size := [len answer + 1];
          av_string := join " " answer;
          av_emb_lookup := map (answer_emb_id decoder_vocab) answer
                  ++ [EOS_INDEX]
                  ++ repeat_list PAD_INDEX
                       (Z.max 0 (candidate_sentence_size - len answer - 1)) |}.
Proof.
  intros Hi. unfold Data.answer_body. rewrite (answer_words i table answer Hi).
  simpl. rewrite !map_map. reflexivity.
Qed.

Lemma answers_loop_Some (i0 : nat) (answers : list (list string)) :
  (i0 + length answers <= length OOV_words)%nat ->
  exists vs, answers_loop i0 answers = Some vs /\
    length vs = length answers /\
    forall (j : nat) (answer : list string), answers !! j = Some answer ->
      (vs !! j : option answer_vec) = answer_body (i0 + j) answer.
Proof.
  revert i0. induction answers as [|answer answers IH]; intros i0 Hlen.
  - exists []. split; [reflexivity|]. split; [reflexivity|]. intros j a Hj.
    discriminate.
  - simpl in Hlen.
    destruct (lookup_lt_is_Some_2 OOV_words i0 ltac:(lia)) as [table Ht].
    destruct (IH (S i0) ltac:(lia)) as (vs & Hvs & Hl & Hj).
    cbn [Data.answers_loop]. rewrite (answer_body_eq i0 table answer Ht). simpl.
    rewrite Hvs. simpl. eexists. split; [reflexivity|].
    split; [simpl; rewrite Hl; reflexivity|].
    intros [|j] a Ha; simpl in Ha.
    + inversion Ha; subst a. rewrite Nat.add_0_r.
      rewrite (answer_body_eq i0 table answer Ht). reflexivity.
    + simpl. rewrite (Hj j a Ha). f_equal. lia.
Qed.

End Answers.

(** C10. Given one OOV table per answer, [_vectorize_answers] returns, and
    for the answer of example [i]: the vectorised answer is the ids of its
    words, then one [EOS] (3), then [PAD]s (0), and when the answer and
    its [EOS] fit in [candidate_sentence_size] the vector has exactly that
    length; the recorded size is the word count plus one; a word of the
    vocabulary has its vocabulary id in both variants; a word outside it
    has [UNK] (1) in the embedding-lookup variant and, in the main answer,
    its copy id (vocabulary size plus its number in the example's table)
    or [UNK] when the memory does not hold it; [EOS] and the [PAD]s are the
    same in both variants. *)
Theorem C10_answer_vectorisation
    (decoder_vocab : gmap string Z) (candidate_sentence_size : Z)
    (OOV_words : list (list string)) (decode_vocab_size : Z)
    (answers : list (list string)) :
  (length answers <= length OOV_words)%nat ->
  exists (A AZ : list (list Z)) (RA : list string) (AE : list (list Z)),
    _vectorize_answers decoder_vocab candidate_sentence_size OOV_words
      decode_vocab_size answers = Some (A, AZ, RA, AE) /\
    forall (i : nat) (answer table : list string),
      answers !! i = Some answer -> OOV_words !! i = Some table ->
      let pads := repeat_list PAD_INDEX
                    (Z.max 0 (candidate_sentence_size - len answer - 1)) in
      let a := map (answer_id decode_vocab_size decoder_vocab table) answer
               ++ [EOS_INDEX] ++ pads in
      let e := map (answer_emb_id decoder_vocab) answer ++ [EOS_INDEX] ++ pads in
      A !! i = Some a /\ AE !! i = Some e /\
      AZ !! i = Some [len answer + 1] /\
      (len answer + 1 <= candidate_sentence_size ->
       len a = candidate_sentence_size /\ len e = candidate_sentence_size) /\
      (forall (p : nat) (w : string), answer !! p = Some w ->
         match decoder_vocab !! w with
         | Some id => a !! p = Some id /\ e !! p = Some id
         | None =>
             e !! p = Some UNK_INDEX /\
             ((exists k : nat, table !! k = Some w /\
                 a !! p = Some (decode_vocab_size + Z.of_nat k)) \/
              ((w ∉ table) /\ a !! p = Some UNK_INDEX))
         end) /\
      (forall p : nat, (length answer <= p)%nat -> e !! p = a !! p) /\
      a !! length answer = Some EOS_INDEX /\
      (forall p : nat, (length answer < p < length a)%nat ->
         a !! p = Some PAD_INDEX).
Proof.
  intros Hlen.
  destruct (answers_loop_Some decoder_vocab candidate_sentence_size OOV_words
              decode_vocab_size 0 answers Hlen) as (vs & Hvs & Hl & Hj).
  exists (map av_a vs), (map av_size vs), (map av_string vs),
         (map av_emb_lookup vs).
  split; [unfold _vectorize_answers; rewrite Hvs; reflexivity|].
  intros i answer table Hi Ht pads a e.
  specialize (Hj i answer Hi). simpl in Hj.
  rewrite (answer_body_eq _ _ _ _ i table answer Ht) in Hj.
  rewrite !list_lookup_fmap, Hj. simpl.
  split; [reflexivity|]. split; [reflexivity|]. split; [reflexivity|].
  assert (Hla : forall f : string -> Z,
            length (map f answer ++ [EOS_INDEX] ++ pads) =
            (length answer + 1 +
             Z.to_nat (Z.max 0 (candidate_sentence_size - len answer - 1)))%nat).
  { intros f. rewrite !length_app, length_fmap. unfold pads, repeat_list.
    rewrite length_replicate. simpl. lia. }
  split; [|split; [|split; [|split]]].
  - intros Hfit. unfold a, e, len in *. rewrite !Hla. lia.
  - intros p w Hp.
    assert (Hp' : forall f : string -> Z,
              (map f answer ++ [EOS_INDEX] ++ pads) !! p = Some (f w)).
    { intros f. rewrite lookup_app_l
        by (rewrite length_fmap; eapply lookup_lt_Some; exact Hp).
      rewrite list_lookup_fmap, Hp. reflexivity. }
    unfold a, e. rewrite !Hp'. unfold answer_id, answer_emb_id.
    destruct (decoder_vocab !! w) as [id|]; [auto|].
    split; [reflexivity|].
    destruct (index w table) as [k|] eqn:Hk.
    + left. exists k. split; [apply index_Some; exact Hk | reflexivity].
    + right. split; [apply index_None; exact Hk | reflexivity].
  - intros p Hp. unfold a, e.
    rewrite (lookup_app_r (map (answer_emb_id decoder_vocab) answer))
      by (rewrite length_fmap; exact Hp).
    rewrite (lookup_app_r (map (answer_id decode_vocab_size decoder_vocab table) answer))
      by (rewrite length_fmap; exact Hp).
    rewrite !length_fmap. reflexivity.
  - unfold a. rewrite lookup_app_r by (rewrite length_fmap; lia).
    rewrite length_fmap, Nat.sub_diag. reflexivity.
  - intros p Hp. unfold a in *. rewrite Hla in Hp.
    rewrite lookup_app_r by (rewrite length_fmap; lia).
    rewrite length_fmap.
    destruct (p - length answer)%nat as [|d] eqn:Hd; [lia|]. simpl.
    unfold pads, repeat_list. apply lookup_replicate_2. lia.
Qed.

(** C9. [Data.__init__] leaves the caller's list sorted by non-increasing
    story length (a stable sort: a permutation of the input in which
    examples with stories of the same length keep their order), and the
    stories, queries, answers and dialog ids of the object are, index by
    index, those of the examples of the sorted list. *)
Theorem C9_data_sorted_in_place
    (data : list item) (word_idx : gmap string Z)
    (sentence_size batch_size max_memory_size : Z)
    (decoder_vocab : gmap string Z) (candidate_sentence_size : Z) :
  batch_size <> 0 ->
  let story_length := fun x : item => len (item_story x) in
  let sorted := sort_reverse story_length data in
  let V := Z.of_nat (size decoder_vocab) in
  exists d : data_obj,
    __init__ data word_idx sentence_size batch_size max_memory_size
      decoder_vocab candidate_sentence_size = (sorted, Some d) /\
    Permutation data sorted /\
    StronglySorted (fun x y => story_length y <= story_length x) sorted /\
    (forall n : Z, filter (fun x => story_length x = n) sorted =
                   filter (fun x => story_length x = n) data) /\
    length (stories d) = length data /\ length (queries d) = length data /\
    length (answers d) = length data /\ length (dialog_ids d) = length data /\
    forall (i : nat) (x : item), sorted !! i = Some x ->
      dialog_ids d !! i = Some (item_dialog_id x) /\
      queries d !! i =
        Some (map (word_id word_idx) (item_query x) ++
              repeat_list 0 (Z.max 0 (sentence_size - len (item_query x)))) /\
      (exists memory_size : Z, 1 <= memory_size /\
         stories d !! i =
           Some (st_ss (story_body word_idx sentence_size V decoder_vocab
                          memory_size (item_story x)))) /\
      answers d !! i =
        Some (map (answer_id V decoder_vocab
                     (oov_table decoder_vocab (item_story x))) (item_answer x) ++
              [EOS_INDEX] ++
              repeat_list PAD_INDEX
                (Z.max 0 (candidate_sentence_size - len (item_answer x) - 1))).
Proof.
  intros Hb story_length sorted V.
  destruct (stories_loop_spec word_idx sentence_size batch_size V
              max_memory_size decoder_vocab (map item_story sorted) Hb 0 None)
    as (vs & Hvs & Hl & Hj).
  { left. apply Z.mod_0_l. exact Hb. }
  rewrite length_fmap in Hl.
  destruct (answers_loop_Some decoder_vocab candidate_sentence_size
              (map st_oov_words vs) V 0 (map item_answer sorted))
    as (avs & Havs & Hal & Haj).
  { rewrite !length_fmap. lia. }
  rewrite length_fmap in Hal.
  assert (Hperm : Permutation data sorted).
  { symmetry. apply sort_reverse_perm. }
  assert (Hlen : length sorted = length data).
  { symmetry. apply Permutation_length. exact Hperm. }
  eexists. split.
  { unfold __init__, _extract_data_items. fold story_length. fold sorted. fold V.
    cbn zeta. unfold _vectorize_stories. rewrite Hvs. cbn.
    unfold _vectorize_answers. rewrite Havs. reflexivity. }
  split; [exact Hperm|].
  split; [apply sort_reverse_sorted|].
  split; [intros n; apply sort_reverse_stable|].
  unfold stories, queries, answers, dialog_ids. cbn.
  rewrite !length_fmap.
  split; [lia|]. split; [lia|]. split; [lia|]. split; [lia|].
  intros i x Hi.
  rewrite !list_lookup_fmap, Hi. cbn.
  split; [reflexivity|]. split; [reflexivity|].
  destruct (Hj i (item_story x)) as (m & Hm & Hv).
  { rewrite list_lookup_fmap, Hi. reflexivity. }
  split.
  - exists m. split; [exact Hm|]. rewrite Hv. reflexivity.
  - specialize (Haj i (item_answer x)). simpl in Haj.
    rewrite Haj by (rewrite list_lookup_fmap, Hi; reflexivity).
    rewrite (answer_body_eq _ _ _ _ i (oov_table decoder_vocab (item_story x)));
      [reflexivity|].
    rewrite list_lookup_fmap, Hv. simpl. f_equal.
    apply (story_body_oov word_idx sentence_size V decoder_vocab m (item_story x)).
Qed.

Lemma C7_oov_ids_in_order_of_first_appearance_witness :
  2 <> 0 /\
  exists OOV_ids OOV_words,
    (let '(_, _, _, ids, _, words) :=
       default ([], [], [], [], [], [])
         (_vectorize_stories example_vocab 6 2 6 3 example_vocab
            [[["paris"; "is"; "the"; "capital"; "$u"; "#1"];
              ["the"; "capital"; "is"; "paris"; "$s"; "#2"]];
             [["rome"; "is"; "$u"; "#1"]]]) in
     (ids, words)) = (OOV_ids, OOV_words) /\
    OOV_words !! 1%nat =
      Some (oov_table example_vocab [["rome"; "is"; "$u"; "#1"]]).
Proof.
  split; [discriminate|].
  destruct (C7_oov_ids_in_order_of_first_appearance example_vocab 6 2 6 3
              example_vocab
              [[["paris"; "is"; "the"; "capital"; "$u"; "#1"];
                ["the"; "capital"; "is"; "paris"; "$s"; "#2"]];
               [["rome"; "is"; "$u"; "#1"]]] ltac:(discriminate))
    as (S & SZ & RS & OOV_ids & OOV_size & OOV_words & Heq & Hall).
  exists OOV_ids, OOV_words. rewrite Heq. split; [reflexivity|].
  apply (Hall 1%nat [["rome"; "is"; "$u"; "#1"]] eq_refl).
Defined.

Lemma C9_data_sorted_in_place_witness :
  2 <> 0 /\
  exists d : data_obj,
    __init__ example_data example_vocab 6 2 3 example_vocab 6 =
      (sort_reverse (fun x => len (item_story x)) example_data, Some d) /\
    dialog_ids d !! 0%nat = Some 8 /\ dialog_ids d !! 1%nat = Some 7.
Proof.
  split; [discriminate|].
  destruct (C9_data_sorted_in_place example_data example_vocab 6 2 3
              example_vocab 6 ltac:(discriminate))
    as (d & Heq & _ & _ & _ & _ & _ & _ & _ & Hall).
  exists d. split; [exact Heq|]. split.
  - exact (proj1 (Hall 0%nat _ eq_refl)).
  - exact (proj1 (Hall 1%nat _ eq_refl)).
Defined.

Lemma C10_answer_vectorisation_witness :
  (length [["the"; "capital"; "is"; "paris"]] <=
   length [["paris"; "capital"; "$u"; "#1"; "$s"; "#2"]])%nat /\
  exists A AZ RA AE,
    _vectorize_answers example_vocab 6
      [["paris"; "capital"; "$u"; "#1"; "$s"; "#2"]] 6
      [["the"; "capital"; "is"; "paris"]] = Some (A, AZ, RA, AE) /\
    A !! 0%nat = Some [4; 7; 5; 6; 3; 0] /\
    AE !! 0%nat = Some [4; 1; 5; 1; 3; 0] /\
    AZ !! 0%nat = Some [5].
Proof.
  split; [apply le_n|].
  destruct (C10_answer_vectorisation example_vocab 6
              [["paris"; "capital"; "$u"; "#1"; "$s"; "#2"]] 6
              [["the"; "capital"; "is"; "paris"]] (le_n 1))
    as (A & AZ & RA & AE & Heq & Hall).
  exists A, AZ, RA, AE. split; [exact Heq|].
  destruct (Hall 0%nat _ _ eq_refl eq_refl) as (Ha & He & Hz & _).
  split; [exact Ha|]. split; [exact He | exact Hz].
Defined.

End DataProps.

(** ** memn2n/attention_wrapper.py *)

Module AttentionProps.

Import Py Tf Attention ResultFacts.
Local Open Scope R_scope.

Lemma assert_positive_fails (lengths : list Z) :
  Exists (fun l => (l <= 0)%Z) lengths -> assert_positive lengths = false.
Proof.
  unfold assert_positive. induction 1 as [l ls H|l ls _ IH]; simpl.
  - replace (0 <? l)%Z with false by (symmetry; apply Z.ltb_ge; exact H).
    reflexivity.
  - rewrite IH. apply andb_false_r.
Qed.

(** C8. A valid-length vector with a non-positive entry makes
    [_maybe_mask_score] raise, whatever the score, so the scorer raises
    and returns no alignment; [linear] raises on [None] and on an empty
    list of arguments, whatever its other arguments. *)
Theorem C8_degenerate_inputs_rejected
    (score : list (list R)) (lengths : list Z) (mask : score_t)
    (self : CustomAttention) (query previous_alignments : list (list R))
    (output_size : nat) (bias : bool) (Matrix : list (list R)) (Bias : list R) :
  Exists (fun l => (l <= 0)%Z) lengths ->
  _maybe_mask_score score (Some lengths) mask = Err InvalidArgumentError /\
  (line_memory_sequence_length self = Some lengths ->
   _probability_fn self score = Err InvalidArgumentError /\
   exists e, __call__ self query previous_alignments = Err e) /\
  linear ArgsNone output_size bias Matrix Bias = Err ValueError /\
  linear (ArgsList []) output_size bias Matrix Bias = Err ValueError.
Proof.
  intros Hbad. apply assert_positive_fails in Hbad.
  assert (Hmask : forall s, _maybe_mask_score s (Some lengths) mask
                            = Err InvalidArgumentError).
  { intros s. unfold _maybe_mask_score. rewrite Hbad. reflexivity. }
  split; [apply Hmask|]. split; [|split; reflexivity].
  intros HL.
  assert (Hp : forall s, _probability_fn self s = Err InvalidArgumentError).
  { intros s. unfold _probability_fn, _maybe_mask_score. rewrite HL, Hbad.
    reflexivity. }
  split; [apply Hp|].
  unfold __call__.
  destruct (_luong_score _ _ _ _) as [sc|e]; simpl; [|eauto].
  destruct (_luong_word_score _ _ _ _ _) as [ws|e]; simpl; [|eauto].
  rewrite Hp. simpl. eauto.
Qed.

Lemma score_exp_nonneg (x : score_t) : 0 <= score_exp x.
Proof. destruct x; simpl; [lra | left; apply exp_pos]. Qed.

Lemma sum_list_nonneg (l : list R) : Forall (fun x => 0 <= x) l -> 0 <= sum_list l.
Proof. induction 1 as [|x l Hx _ IH]; simpl; lra. Qed.

Lemma sum_list_ge_elem (l : list R) (i : nat) (x : R) :
  Forall (fun x => 0 <= x) l -> l !! i = Some x -> x <= sum_list l.
Proof.
  intros Hl. revert i. induction Hl as [|y l Hy Hl IH]; intros i Hi.
  - discriminate.
  - destruct i as [|i]; simpl in *.
    + inversion Hi; subst. pose proof (sum_list_nonneg l Hl). lra.
    + specialize (IH i Hi). lra.
Qed.

Lemma sum_list_div (l : list R) (s : R) :
  sum_list (map (fun x => x / s) l) = sum_list l / s.
Proof.
  induction l as [|x l IH]; simpl; [unfold Rdiv; lra|].
  rewrite IH. unfold Rdiv. lra.
Qed.

Lemma exps_nonneg (row : list score_t) :
  Forall (fun x => 0 <= x) (map score_exp row).
Proof.
  apply Forall_forall. intros x Hx. apply list_elem_of_fmap in Hx.
  destruct Hx as (y & -> & _). apply score_exp_nonneg.
Qed.

(** [softmax] of a row with at least one finite score is a point of the
    probability simplex. *)
Lemma softmax_row_simplex (row : list score_t) (i : nat) (r : R) :
  row !! i = Some (Fin r) ->
  0 < sum_list (map score_exp row) /\
  Forall (fun p => 0 <= p) (softmax_row row) /\
  sum_list (softmax_row row) = 1.
Proof.
  intros Hi.
  assert (Hpos : 0 < sum_list (map score_exp row)).
  { apply Rlt_le_trans with (exp r); [apply exp_pos|].
    apply (sum_list_ge_elem _ i); [apply exps_nonneg|].
    rewrite list_lookup_fmap, Hi. reflexivity. }
  split; [exact Hpos|]. unfold softmax_row. split.
  - apply Forall_forall. intros p Hp. apply list_elem_of_fmap in Hp.
    destruct Hp as (e & -> & He). apply list_elem_of_fmap in He.
    destruct He as (x & -> & _).
    apply Rmult_le_pos; [apply score_exp_nonneg|].
    left. apply Rinv_0_lt_compat. exact Hpos.
  - rewrite sum_list_div. field. lra.
Qed.

Lemma mask_row_lookup (mask : score_t) (l : Z) (row : list R) (t : nat) :
  mask_row mask l row !! t =
  (fun s => if (Z.of_nat t <? l)%Z then Fin s else mask) <$> row !! t.
Proof. unfold mask_row. apply list_lookup_imap. Qed.

Lemma assert_positive_lookup (lengths : list Z) (b : nat) (l : Z) :
  assert_positive lengths = true -> lengths !! b = Some l -> (0 < l)%Z.
Proof.
  unfold assert_positive. intros H Hb.
  rewrite forallb_forall in H. apply Z.ltb_lt. apply H.
  apply list_elem_of_In. eapply list_elem_of_lookup_2. exact Hb.
Qed.

(** C4. With the default normaliser ([softmax]), every row of the sentence
    alignment over a memory of at least one sentence is a point of the
    probability simplex: its entries are non-negative and sum to 1.  Under
    a valid-length vector, a position [t >= L[i]] of row [i] is given the
    score [score_mask_value] before normalisation, and its probability is
    below every [eps > 0] for which the mask is negative enough
    ([exp mask < eps * exp s0], [s0] the row's first score); with the
    default mask [-inf] it is 0, so below every [eps > 0]. *)
Theorem C4_sentence_alignment_simplex_and_mask
    (self : CustomAttention) (score alignments : list (list R))
    (i : nat) (srow row : list R) (s0 : R) :
  probability_fn self = None ->
  _probability_fn self score = Ok alignments ->
  score !! i = Some srow -> srow !! 0%nat = Some s0 ->
  alignments !! i = Some row ->
  length row = length srow /\
  Forall (fun p => 0 <= p) row /\
  sum_list row = 1 /\
  forall (lengths : list Z) (l : Z) (t : nat) (p : R),
    line_memory_sequence_length self = Some lengths ->
    lengths !! i = Some l -> (l <= Z.of_nat t)%Z -> row !! t = Some p ->
    (exists masked, _maybe_mask_score score (Some lengths) (score_mask_value self)
                    = Ok masked /\
       (masked !! i) ≫= (fun m => m !! t) = Some (score_mask_value self)) /\
    (forall eps, 0 < eps -> score_exp (score_mask_value self) < eps * exp s0 ->
                 p < eps) /\
    (score_mask_value self = NegInf -> p = 0 /\ forall eps, 0 < eps -> p < eps).
Proof.
  intros Hfn Hp Hsrow Hs0 Hrow.
  unfold _probability_fn in Hp. rewrite Hfn in Hp.
  destruct (_maybe_mask_score score (line_memory_sequence_length self)
              (score_mask_value self)) as [masked|e] eqn:Hmask; [|discriminate].
  simpl in Hp. inversion Hp; subst alignments; clear Hp.
  unfold softmax in Hrow. rewrite list_lookup_fmap in Hrow.
  destruct (masked !! i) as [mrow|] eqn:Hmrow; [|discriminate].
  simpl in Hrow. inversion Hrow; subst row; clear Hrow.
  (* the masked row: same length, first entry finite *)
  assert (Hm : length mrow = length srow /\ mrow !! 0%nat = Some (Fin s0) /\
               forall lengths l t, line_memory_sequence_length self = Some lengths ->
                 lengths !! i = Some l -> (l <= Z.of_nat t)%Z ->
                 is_Some (mrow !! t) -> mrow !! t = Some (score_mask_value self)).
  { unfold _maybe_mask_score in Hmask.
    destruct (line_memory_sequence_length self) as [lengths|].
    - destruct (assert_positive lengths) eqn:Hpos; [|discriminate]. simpl in Hmask.
      destruct (length lengths =? length score)%nat; [|discriminate].
      simpl in Hmask. inversion Hmask; subst masked; clear Hmask.
      rewrite lookup_zip_with in Hmrow.
      destruct (lengths !! i) as [l|] eqn:Hl; [|discriminate]. simpl in Hmrow.
      rewrite Hsrow in Hmrow. simpl in Hmrow. inversion Hmrow; subst mrow.
      pose proof (assert_positive_lookup _ _ _ Hpos Hl) as Hlpos.
      split; [unfold mask_row; apply length_imap|]. split.
      + rewrite mask_row_lookup, Hs0. simpl.
        destruct (Z.ltb_spec (Z.of_nat 0) l) as [_|Hge]; [reflexivity|].
        simpl in Hge. lia.
      + intros lengths' l' t HL Hl' Ht [x Hx]. inversion HL; subst lengths'.
        rewrite Hl in Hl'. inversion Hl'; subst l'.
        rewrite mask_row_lookup in Hx |- *.
        destruct (srow !! t) as [s|]; [|discriminate]. simpl.
        replace (Z.of_nat t <? l)%Z with false by (symmetry; apply Z.ltb_ge; exact Ht).
        reflexivity.
    - inversion Hmask; subst masked; clear Hmask.
      rewrite list_lookup_fmap, Hsrow in Hmrow. simpl in Hmrow.
      inversion Hmrow; subst mrow.
      split; [apply length_fmap|]. split.
      + rewrite list_lookup_fmap, Hs0. reflexivity.
      + intros lengths l t HL. discriminate. }
  destruct Hm as (Hlen & Hfirst & Hmasked).
  destruct (softmax_row_simplex mrow 0 s0 Hfirst) as (Hsum & Hnn & Hone).
  split; [unfold softmax_row; rewrite !length_fmap; exact Hlen|].
  split; [exact Hnn|]. split; [exact Hone|].
  intros lengths l t p HL Hl Ht Hpt.
  assert (Hmt : mrow !! t = Some (score_mask_value self)).
  { apply (Hmasked lengths l t HL Hl Ht).
    unfold softmax_row in Hpt. rewrite !list_lookup_fmap in Hpt.
    destruct (mrow !! t); [eauto | discriminate]. }
  assert (Hpv : p = score_exp (score_mask_value self) / sum_list (map score_exp mrow)).
  { unfold softmax_row in Hpt. rewrite !list_lookup_fmap, Hmt in Hpt.
    simpl in Hpt. inversion Hpt. reflexivity. }
  assert (Hge : exp s0 <= sum_list (map score_exp mrow)).
  { apply (sum_list_ge_elem _ 0%nat); [apply exps_nonneg|].
    rewrite list_lookup_fmap, Hfirst. reflexivity. }
  assert (Hbound : forall eps, 0 < eps ->
            score_exp (score_mask_value self) < eps * exp s0 -> p < eps).
  { intros eps Heps Hlt. rewrite Hpv.
    apply Rmult_lt_reg_r with (sum_list (map score_exp mrow)); [exact Hsum|].
    unfold Rdiv. rewrite Rmult_assoc, Rinv_l by lra. rewrite Rmult_1_r.
    apply Rlt_le_trans with (eps * exp s0); [exact Hlt|].
    apply Rmult_le_compat_l; lra. }
  split; [|split; [exact Hbound|]].
  - exists masked. rewrite HL in Hmask. split; [exact Hmask|].
    rewrite Hmrow. simpl. exact Hmt.
  - intros Hinf. split.
    + rewrite Hpv, Hinf. simpl. unfold Rdiv. lra.
    + intros eps Heps. apply Hbound; [exact Heps|]. rewrite Hinf. simpl.
      apply Rmult_lt_0_compat; [exact Heps | apply exp_pos].
Qed.

(** *** Transposition of rectangular tensors *)

Lemma transpose_length {A} (n : nat) (m : list (list A)) :
  length (transpose n m) = n.
Proof. revert m. induction n as [|n IH]; intros m; simpl; [|rewrite IH]; reflexivity. Qed.

Lemma transpose_nil {A} (n : nat) : transpose n (@nil (list A)) = replicate n [].
Proof. induction n as [|n IH]; simpl; [|rewrite IH]; reflexivity. Qed.

Lemma transpose_cons {A} (n : nat) (r : list A) (m : list (list A)) :
  length r = n -> transpose n (r :: m) = zip_with cons r (transpose n m).
Proof.
  revert r m. induction n as [|n IH]; intros r m Hr.
  - destruct r; [reflexivity | discriminate].
  - destruct r as [|a r]; [discriminate|]. simpl in Hr.
    simpl. f_equal. apply IH. lia.
Qed.

Lemma omap_head_zip_cons {A} (x : list A) (y : list (list A)) :
  length x = length y -> omap head (zip_with cons x y) = x.
Proof.
  revert y. induction x as [|a x IH]; intros [|b y] H; try discriminate;
    [reflexivity|].
  simpl in *. f_equal. apply IH. lia.
Qed.

Lemma map_tail_zip_cons {A} (x : list A) (y : list (list A)) :
  length x = length y -> map tail (zip_with cons x y) = y.
Proof.
  revert y. induction x as [|a x IH]; intros [|b y] H; try discriminate;
    [reflexivity|].
  simpl in *. f_equal. apply IH. lia.
Qed.

Lemma map_zip_with_cons {A B} (F : list A -> list B) (f : A -> B)
      (F' : list A -> list B) (x : list A) (y : list (list A)) :
  (forall a l, F (a :: l) = f a :: F' l) ->
  map F (zip_with cons x y) = zip_with cons (map f x) (map F' y).
Proof.
  intros HF. revert y. induction x as [|a x IH]; intros [|b y]; try reflexivity.
  simpl. rewrite HF, IH. reflexivity.
Qed.

(** Transposing, mapping a row-wise operation against a vector over the
    columns, and transposing back is the operation applied entry by
    entry. *)
Lemma transpose_zip_transpose {Q K X} (g : Q -> K -> X) (n : nat)
      (query : list Q) (m : list (list K)) :
  length query = length m -> Forall (fun r => length r = n) m ->
  transpose (length query)
    (map (fun col => zip_with g query col) (transpose n m)) =
  zip_with (fun q r => map (g q) r) query m.
Proof.
  revert m. induction query as [|q query IH]; intros [|r m] Hlen Hm;
    try discriminate; [reflexivity|].
  inversion Hm as [|? ? Hr Hm']; subst. simpl in Hlen.
  rewrite transpose_cons by reflexivity.
  rewrite (map_zip_with_cons _ (g q) (fun col => zip_with g query col))
    by reflexivity.
  change (length (q :: query)) with (S (length query)).
  cbn [transpose zip_with].
  rewrite omap_head_zip_cons, map_tail_zip_cons
    by (rewrite !length_fmap, transpose_length; reflexivity).
  f_equal. apply IH; [lia | exact Hm'].
Qed.

Lemma chunks_concat {A} (w : nat) (rows : list (list A)) :
  Forall (fun r => length r = w) rows ->
  chunks w (length rows) (concat rows) = rows.
Proof.
  induction 1 as [|r rows Hr _ IH]; simpl; [reflexivity|].
  rewrite take_app_length' by (symmetry; exact Hr).
  rewrite drop_app_length' by (symmetry; exact Hr).
  rewrite IH. reflexivity.
Qed.

Lemma concat_length_rect {A} (w : nat) (rows : list (list A)) :
  Forall (fun r => length r = w) rows ->
  length (concat rows) = (length rows * w)%nat.
Proof.
  induction 1 as [|r rows Hr _ IH]; simpl; [reflexivity|].
  rewrite length_app, IH, Hr. reflexivity.
Qed.

Lemma reshape_rows_concat {A} (w : nat) (rows : list (list A)) :
  Forall (fun r => length r = w) rows ->
  reshape_rows (length rows) (concat rows) = rows.
Proof.
  intros H. unfold reshape_rows.
  destruct rows as [|r rows]; [reflexivity|].
  rewrite (concat_length_rect w) by exact H.
  rewrite Nat.mul_comm, Nat.div_mul by discriminate.
  apply chunks_concat. exact H.
Qed.

Lemma concat_concat_map {A} (x : list (list (list A))) :
  concat (concat x) = concat (map (@concat A) x).
Proof.
  induction x as [|a x IH]; simpl; [reflexivity|].
  rewrite concat_app, IH. reflexivity.
Qed.

Lemma sum_list_app (l1 l2 : list R) :
  sum_list (l1 ++ l2) = sum_list l1 + sum_list l2.
Proof. induction l1 as [|x l1 IH]; simpl; [lra | rewrite IH; lra]. Qed.

Lemma sum_list_scale (f : list R -> R) (c : R) (l : list (list R)) :
  sum_list (map (fun w => f w * c) l) = c * sum_list (map f l).
Proof. induction l as [|x l IH]; simpl; [lra | rewrite IH; lra]. Qed.

Lemma raw_word_alignment_sum (scale : bool) (g : R) (q : list R)
      (keys : list (list R)) (words : list (list (list R))) :
  sum_list (raw_word_alignment scale g q keys words) =
  sum_list (zip_with (fun k sentence =>
                        raw_score scale g q k *
                        sum_list (map (raw_score scale g q) sentence))
              keys words).
Proof.
  unfold raw_word_alignment. revert words.
  induction keys as [|k keys IH]; intros [|sentence words]; try reflexivity.
  simpl. rewrite sum_list_app, IH, sum_list_scale. reflexivity.
Qed.

(** The sentence scores and the word scores, entry by entry. *)
Lemma luong_score_entries (query : list (list R)) (keys : list (list (list R)))
      (scale : bool) (g : R) (score : list (list R)) :
  _luong_score query keys scale g = Ok score ->
  score = zip_with (fun q ks => map (raw_score scale g q) ks) query keys.
Proof.
  unfold _luong_score. destruct (depth_matches query keys); [|discriminate].
  simpl. intros H. inversion H; subst; clear H. unfold query_matmul, raw_score.
  destruct scale; [|reflexivity].
  revert keys. induction query as [|q query IH]; intros [|ks keys];
    try reflexivity.
  simpl. rewrite IH. f_equal. apply map_map.
Qed.

Lemma luong_word_score_entries (query : list (list R))
      (word_keys : list (list (list (list R)))) (scale : bool) (g : R)
      (size : nat) (scores : list (list (list R))) :
  length query = length word_keys ->
  Forall (fun ws => length ws = size) word_keys ->
  _luong_word_score query word_keys scale g size = Ok scores ->
  scores = zip_with (fun q ws => map (map (raw_score scale g q)) ws)
             query word_keys.
Proof.
  intros Hlen Hsize. unfold _luong_word_score.
  destruct (forallb _ _); [|discriminate]. simpl.
  intros H. inversion H; subst; clear H. unfold query_matmul.
  rewrite (transpose_zip_transpose (fun q ks => map (dot q) ks) size query
             word_keys Hlen Hsize).
  unfold raw_score. destruct scale; [|reflexivity].
  clear. revert word_keys. induction query as [|q query IH]; intros [|ws wk];
    try reflexivity.
  simpl. rewrite IH. f_equal. rewrite map_map. apply map_ext. intros ks.
  apply map_map.
Qed.

Lemma zip_with_flip {A B C} (f : A -> B -> C) (a : list A) (b : list B) :
  zip_with f a b = zip_with (fun y x => f x y) b a.
Proof.
  revert b. induction a as [|x a IH]; intros [|y b]; try reflexivity.
  simpl. rewrite IH. reflexivity.
Qed.

(** One batch element of [transpose(multiply(transpose(word_scores),
    expand_dims(score, 1)))]. *)
Lemma multiply_entries (scale : bool) (g : R) (q : list R)
      (ks : list (list R)) (ws : list (list (list R))) (S W : nat) :
  length ks = S -> length ws = S -> Forall (fun sentence => length sentence = W) ws ->
  transpose S
    (map (fun row => zip_with Rmult row (map (raw_score scale g q) ks))
       (transpose W (map (map (raw_score scale g q)) ws))) =
  zip_with (fun k sentence =>
              map (fun w => raw_score scale g q w * raw_score scale g q k) sentence)
    ks ws.
Proof.
  intros Hks Hws Hrect.
  set (sc := map (raw_score scale g q) ks).
  set (m := map (map (raw_score scale g q)) ws).
  assert (Hsc : length sc = S) by (unfold sc; rewrite length_fmap; exact Hks).
  assert (Hm : length sc = length m).
  { unfold m. rewrite length_fmap. lia. }
  assert (Hrect' : Forall (fun r => length r = W) m).
  { unfold m. apply Forall_fmap. eapply Forall_impl; [exact Hrect|].
    intros sentence Hs. simpl. rewrite length_fmap. exact Hs. }
  rewrite <- Hsc.
  rewrite (map_ext (fun row => zip_with Rmult row sc)
             (fun col => zip_with (fun x a => a * x) sc col))
    by (intros col; apply zip_with_flip).
  rewrite (transpose_zip_transpose (fun x a => a * x) W sc m Hm Hrect').
  unfold sc, m. clear. revert ws.
  induction ks as [|k ks IH]; intros [|sentence ws]; try reflexivity.
  simpl. rewrite IH. f_equal. apply map_map.
Qed.


Lemma call_entries (scale : bool) (g : R) (S W : nat)
      (query : list (list R)) (keys : list (list (list R)))
      (words : list (list (list (list R)))) :
  length query = length keys -> length query = length words ->
  Forall (fun ks => length ks = S) keys ->
  Forall (fun ws => length ws = S /\ Forall (fun sentence => length sentence = W) ws)
    words ->
  map (@concat R)
    (map (transpose S)
       (multiply_broadcast
          (map (transpose W)
             (zip_with (fun q ws => map (map (raw_score scale g q)) ws) query words))
          (zip_with (fun q ks => map (raw_score scale g q) ks) query keys))) =
  zip_with (fun q kw => raw_word_alignment scale g q kw.1 kw.2)
    query (zip keys words).
Proof.
  revert keys words.
  induction query as [|q query IH]; intros [|ks keys] [|ws words] Hk Hw HS HW;
    try discriminate; [reflexivity|].
  inversion HS as [|? ? Hks HS']; subst.
  inversion HW as [|? ? [Hws Hrect] HW']; subst.
  simpl in Hk, Hw. cbn [zip_with map multiply_broadcast zip fst snd].
  unfold multiply_broadcast in IH.
  rewrite (IH keys words ltac:(lia) ltac:(lia) HS' HW').
  f_equal. unfold raw_word_alignment. f_equal.
  apply multiply_entries; [reflexivity | assumption | assumption].
Qed.

Lemma raw_word_alignment_length (scale : bool) (g : R) (q : list R)
      (ks : list (list R)) (ws : list (list (list R))) (W : nat) :
  length ks = length ws -> Forall (fun sentence => length sentence = W) ws ->
  length (raw_word_alignment scale g q ks ws) = (length ws * W)%nat.
Proof.
  intros Hlen Hrect. unfold raw_word_alignment.
  rewrite (concat_length_rect W).
  - rewrite length_zip_with. lia.
  - revert ks Hlen. induction Hrect as [|sentence ws Hs _ IH]; intros [|k ks] Hlen;
      try discriminate; simpl; constructor.
    + rewrite length_fmap. exact Hs.
    + apply IH. simpl in Hlen. lia.
Qed.

(** C1 as stated fails: for a memory of one sentence with one word the
    sentence alignment sums to 1 and the flattened word alignment to 2. *)
Lemma C1_word_alignment_total_differs :
  exists (alignment word_alignment : list R),
    __call__ one_word_memory [[1]] [[0]] = Ok ([alignment], [word_alignment]) /\
    sum_list alignment = 1 /\
    sum_list word_alignment = 2 /\
    sum_list word_alignment <> sum_list alignment.
Proof.
  exists [exp (1 * 1 + 0) / (exp (1 * 1 + 0) + 0)], [(1 * 2 + 0) * (1 * 1 + 0)].
  split; [reflexivity|].
  assert (H1 : sum_list [exp (1 * 1 + 0) / (exp (1 * 1 + 0) + 0)] = 1).
  { simpl. pose proof (exp_pos (1 * 1 + 0)). field. lra. }
  assert (H2 : sum_list [(1 * 2 + 0) * (1 * 1 + 0)] = 2) by (simpl; lra).
  split; [exact H1|]. split; [exact H2|]. rewrite H1, H2. lra.
Qed.

(** C1, amended. For a query and a prepared memory of matching shapes, the
    flattened word alignment of batch row [i] lists, sentence after
    sentence, the raw score of each word multiplied by the raw score of
    its sentence, that is by the score before masking and normalisation,
    not by the sentence alignment.  Its total is therefore the sum over
    the sentences of (sentence score) x (sum of the sentence's word
    scores); nothing ties it to the total of the sentence alignment. *)
Theorem C1_word_alignment_is_product_of_raw_scores
    (self : CustomAttention)
    (query previous_alignments alignments word_alignments : list (list R))
    (i : nat) (q : list R) (ks : list (list R)) (ws : list (list (list R))) :
  well_shaped self query ->
  __call__ self query previous_alignments = Ok (alignments, word_alignments) ->
  query !! i = Some q -> _keys self !! i = Some ks ->
  _word_values self !! i = Some ws ->
  word_alignments !! i =
    Some (raw_word_alignment (_scale self) (attention_g self) q ks ws) /\
  sum_list (raw_word_alignment (_scale self) (attention_g self) q ks ws) =
    sum_list (zip_with (fun k sentence =>
                raw_score (_scale self) (attention_g self) q k *
                sum_list (map (raw_score (_scale self) (attention_g self) q) sentence))
              ks ws).
Proof.
  intros (HB & HK & HWV & HS & HW) Hcall Hq Hks Hws.
  split; [|apply raw_word_alignment_sum].
  unfold __call__ in Hcall.
  apply bind_Ok in Hcall. destruct Hcall as (score & Hscore & Hcall).
  apply bind_Ok in Hcall. destruct Hcall as (wsc & Hwsc & Hcall).
  apply bind_Ok in Hcall. destruct Hcall as (al & _ & Hcall).
  inversion Hcall; subst alignments word_alignments; clear Hcall.
  apply luong_score_entries in Hscore.
  apply luong_word_score_entries in Hwsc; [|lia|].
  2:{ eapply Forall_impl; [exact HW|]. intros x [Hx _]. exact Hx. }
  subst score wsc.
  rewrite concat_concat_map.
  rewrite (call_entries (_scale self) (attention_g self) (_alignments_size self)
             (_word_alignments_size self) query (_keys self) (_word_values self))
    by (assumption || lia).
  set (rows := zip_with _ query (zip (_keys self) (_word_values self))).
  assert (Hrow : rows !! i =
            Some (raw_word_alignment (_scale self) (attention_g self) q ks ws)).
  { unfold rows. rewrite lookup_zip_with, Hq. simpl.
    rewrite lookup_zip_with, Hks. simpl. rewrite Hws. reflexivity. }
  assert (Hlen : length rows = _batch_size self).
  { unfold rows. rewrite length_zip_with, length_zip. lia. }
  assert (Hrect : Forall (fun r => length r =
            (_alignments_size self * _word_alignments_size self)%nat) rows).
  { apply Forall_lookup. intros j r Hj. unfold rows in Hj.
    rewrite lookup_zip_with in Hj.
    destruct (query !! j) as [qj|]; [|discriminate]. simpl in Hj.
    rewrite lookup_zip_with in Hj.
    destruct (_keys self !! j) as [kj|] eqn:Hkj; [|discriminate]. simpl in Hj.
    destruct (_word_values self !! j) as [wj|] eqn:Hwj; [|discriminate].
    simpl in Hj. inversion Hj; subst r.
    pose proof (Forall_lookup_1 _ _ _ _ HS Hkj) as Hkl. simpl in Hkl.
    destruct (Forall_lookup_1 _ _ _ _ HW Hwj) as [Hwl Hwr].
    rewrite (raw_word_alignment_length _ _ _ _ _ (_word_alignments_size self))
      by (assumption || lia).
    rewrite Hwl. reflexivity. }
  rewrite <- Hlen. rewrite (reshape_rows_concat _ rows Hrect). exact Hrow.
Qed.

Lemma C1_word_alignment_is_product_of_raw_scores_witness :
  well_shaped padded_memory [[1]] /\
  __call__ padded_memory [[1]] [[0; 0; 0; 0; 0; 0]] =
    Ok (softmax [[Fin (1 * 1 + 0); NegInf; NegInf]],
        [[(1 * 2 + 0) * (1 * 1 + 0); (1 * 3 + 0) * (1 * 1 + 0);
          (1 * 0 + 0) * (1 * 0 + 0); (1 * 0 + 0) * (1 * 0 + 0);
          (1 * 0 + 0) * (1 * 0 + 0); (1 * 0 + 0) * (1 * 0 + 0)]]) /\
  [[(1 * 2 + 0) * (1 * 1 + 0); (1 * 3 + 0) * (1 * 1 + 0);
    (1 * 0 + 0) * (1 * 0 + 0); (1 * 0 + 0) * (1 * 0 + 0);
    (1 * 0 + 0) * (1 * 0 + 0); (1 * 0 + 0) * (1 * 0 + 0)]] !! 0%nat =
    Some (raw_word_alignment false 1 [1] [[1]; [0]; [0]]
            [[[2]; [3]]; [[0]; [0]]; [[0]; [0]]]).
Proof.
  assert (Hshape : well_shaped padded_memory [[1]]).
  { unfold well_shaped. simpl. repeat split; repeat constructor. }
  split; [exact Hshape|]. split; [reflexivity|].
  exact (proj1 (C1_word_alignment_is_product_of_raw_scores padded_memory [[1]]
                  [[0; 0; 0; 0; 0; 0]] _ _ 0 [1] [[1]; [0]; [0]] [[[2]; [3]]; [[0]; [0]]; [[0]; [0]]]
                  Hshape eq_refl eq_refl eq_refl eq_refl)).
Defined.

Lemma C4_sentence_alignment_simplex_and_mask_witness :
  probability_fn padded_memory = None /\
  _probability_fn padded_memory [[1; 0; 0]] =
    Ok [softmax_row [Fin 1; NegInf; NegInf]] /\
  sum_list (softmax_row [Fin 1; NegInf; NegInf]) = 1 /\
  forall p, softmax_row [Fin 1; NegInf; NegInf] !! 2%nat = Some p -> p = 0.
Proof.
  split; [reflexivity|]. split; [reflexivity|].
  destruct (C4_sentence_alignment_simplex_and_mask padded_memory [[1; 0; 0]]
              [softmax_row [Fin 1; NegInf; NegInf]] 0 [1; 0; 0]
              (softmax_row [Fin 1; NegInf; NegInf]) 1
              eq_refl eq_refl eq_refl eq_refl eq_refl)
    as (_ & _ & Hsum & Hmask).
  split; [exact Hsum|]. intros p Hp.
  destruct (Hmask [1%Z] 1%Z 2%nat p eq_refl eq_refl) as (_ & _ & Hinf);
    [discriminate | exact Hp |].
  apply Hinf. reflexivity.
Defined.

Lemma C8_degenerate_inputs_rejected_witness :
  Exists (fun l => (l <= 0)%Z) [0%Z] /\
  _maybe_mask_score [[1]] (Some [0%Z]) NegInf = Err InvalidArgumentError /\
  linear (ArgsList []) 1 true [[1]] [0] = Err ValueError.
Proof.
  assert (Hbad : Exists (fun l => (l <= 0)%Z) [0%Z]).
  { constructor. discriminate. }
  split; [exact Hbad|].
  destruct (C8_degenerate_inputs_rejected [[1]] [0%Z] NegInf padded_memory [[1]]
              [[0; 0; 0; 0; 0; 0]] 1 true [[1]] [0] Hbad) as (Hmask & _ & _ & Hlin).
  split; [exact Hmask | exact Hlin].
Defined.

End AttentionProps.

(** ** memn2n/dynamic_decoder.py *)

Module DecoderProps.

Import Py Tf Decoder ResultFacts.


Lemma int32_add_small (a : Z) :
  0 <= a -> a + 1 < 2 ^ 31 -> int32_add a 1 = a + 1.
Proof.
  intros H0 H1. unfold int32_add, int32_wrap.
  rewrite Z.mod_small; lia.
Qed.

Lemma reduce_all_map_true (l : list bool) :
  reduce_all (logical_or_scalar l true) = true.
Proof.
  unfold reduce_all, logical_or_scalar.
  induction l as [|b l IH]; simpl; [reflexivity|].
  rewrite orb_true_r. exact IH.
Qed.

Lemma where_Forall {A} (P : A -> Prop) (c : list bool) (x y : list A) :
  Forall P x -> Forall P y -> Forall P (where_ c x y).
Proof.
  revert x y. induction c as [|b c IH]; intros x y Hx Hy; simpl; [constructor|].
  destruct x as [|a x]; [constructor|]. destruct y as [|a' y]; [constructor|].
  inversion_clear Hx. inversion_clear Hy.
  constructor; [destruct b; assumption | apply IH; assumption].
Qed.

Lemma where_lookup {A} (c : list bool) (x y : list A) (i : nat) :
  where_ c x y !! i =
  match (c !! i : option bool), x !! i, y !! i with
  | Some b, Some a, Some a' => Some (if b then a else a')
  | _, _, _ => None
  end.
Proof.
  revert x y i. induction c as [|b c IH]; intros x y i; simpl; [reflexivity|].
  destruct x as [|a x]; simpl.
  { destruct i; simpl; [reflexivity | destruct (c !! i); reflexivity]. }
  destruct y as [|a' y]; simpl.
  { destruct i; simpl; [reflexivity|].
    destruct (c !! i); [destruct (x !! i)|]; reflexivity. }
  destruct i as [|i]; simpl; [reflexivity | apply IH].
Qed.

Lemma where_length {A} (c : list bool) (x y : list A) :
  length (where_ c x y) = (length c `min` (length x `min` length y))%nat.
Proof.
  revert x y. induction c as [|b c IH]; intros x y; simpl; [reflexivity|].
  destruct x as [|a x]; simpl; [reflexivity|].
  destruct y as [|a' y]; simpl; [lia|]. rewrite IH. reflexivity.
Qed.

Lemma map_structure2_Forall3 {A B C} (f : A -> B -> result C) a b c :
  map_structure2 f a b = Ok c -> Forall3 (fun x y z => f x y = Ok z) a b c.
Proof.
  revert b c. induction a as [|x a IH]; intros [|y b] c H; simpl in H;
    try discriminate.
  - inversion H. constructor.
  - apply bind_Ok in H. destruct H as (z & Hz & H).
    apply bind_Ok in H. destruct H as (zs & Hzs & H).
    inversion H; subst. constructor; [exact Hz | apply IH; exact Hzs].
Qed.

Lemma ta_write_lookup {T} (ta ta' : TensorArray T) (index : Z) (value : T) :
  ta_write ta index value = Ok ta' ->
  0 <= index /\ ta' !! Z.to_nat index = Some (Some value).
Proof.
  unfold ta_write. destruct (index <? 0) eqn:Hneg; [discriminate|].
  apply Z.ltb_ge in Hneg. intros H. split; [exact Hneg|].
  destruct (ta !! Z.to_nat index) as [[old|]|] eqn:Hslot; [discriminate| |].
  - inversion H; subst. apply list_lookup_insert_eq.
    eapply lookup_lt_Some. exact Hslot.
  - inversion H; subst. apply lookup_ge_None in Hslot.
    rewrite lookup_app_r by lia.
    rewrite lookup_app_r by (rewrite length_replicate; lia).
    rewrite length_replicate.
    replace (Z.to_nat index - length ta - (Z.to_nat index - length ta))%nat
      with 0%nat by lia.
    reflexivity.
Qed.

Lemma map_structure2_pure {A B C} (f : A -> B -> C) a b c :
  map_structure2 (fun x y => Ok (f x y)) a b = Ok c -> c = zip_with f a b.
Proof.
  revert b c. induction a as [|x a IH]; intros [|y b] c H; simpl in H;
    try discriminate.
  - inversion H. reflexivity.
  - apply bind_Ok in H. destruct H as (zs & Hzs & H).
    inversion H; subst. simpl. f_equal. apply IH. exact Hzs.
Qed.

Lemma ta_write_append {T} (ta ta' : TensorArray T) (index : Z) (value : T) :
  0 <= index -> length ta = Z.to_nat index ->
  ta_write ta index value = Ok ta' -> ta' = ta ++ [Some value].
Proof.
  intros Hpos Hlen. unfold ta_write.
  destruct (index <? 0) eqn:Hneg; [apply Z.ltb_lt in Hneg; lia|].
  rewrite (proj2 (lookup_ge_None ta (Z.to_nat index))) by lia.
  rewrite Hlen, Nat.sub_diag. simpl. intros H. inversion H. reflexivity.
Qed.

Lemma ta_stack_written {T} (st : list T) : ta_stack (Some <$> st) = Ok st.
Proof.
  induction st as [|x st IH]; [reflexivity|].
  change (ta_stack (Some <$> st) ≫= (fun vs => Ok (x :: vs)) = Ok (x :: st)).
  rewrite IH. reflexivity.
Qed.

Lemma map_structure_stack {T} (stacked : list (list T)) :
  map_structure ta_stack (map (map Some) stacked) = Ok stacked.
Proof.
  induction stacked as [|st l IH]; [reflexivity|].
  change (ta_stack (Some <$> st) ≫= (fun y =>
            map_structure ta_stack (map (map Some) l) ≫= (fun ys => Ok (y :: ys)))
          = Ok (st :: l)).
  rewrite ta_stack_written. simpl. rewrite IH. reflexivity.
Qed.

Lemma omap_written {T} (st : list T) : omap (fun x => x) (Some <$> st) = st.
Proof.
  induction st as [|x st IH]; [reflexivity|].
  change (x :: omap (fun x => x) (Some <$> st) = x :: st). f_equal. exact IH.
Qed.

Section Loop.
Context {V Inp Attn PGen Shape DType : Type}.
Variables (decoder : @Decoder V Inp Attn PGen Shape DType)
          (impute_finished : bool) (maximum_iterations : option Z)
          (zero_outputs : list (list V)).

Local Abbreviation LV := (@loop_vars V Inp Attn PGen).
Local Abbreviation body := (body decoder impute_finished maximum_iterations zero_outputs).
Local Abbreviation while_loop := (while_loop decoder impute_finished maximum_iterations zero_outputs).
Local Abbreviation vars_after := (vars_after decoder impute_finished maximum_iterations zero_outputs).

Local Abbreviation next_finished_of := (next_finished_of decoder maximum_iterations).
Local Abbreviation decoder_finished_of := (decoder_finished_of decoder).
Local Abbreviation emit_of := (emit_of decoder impute_finished zero_outputs).
Local Abbreviation next_attention_of := (next_attention_of decoder).
Local Abbreviation next_p_gens_of := (next_p_gens_of decoder).

Lemma body_Ok (vars vars' : LV) :
  body vars = Ok vars' ->
  time vars' = int32_add (time vars) 1 /\
  finished vars' = next_finished_of vars /\
  sequence_lengths vars' =
    where_ (logical_and (logical_not (finished vars)) (next_finished_of vars))
      (replicate (length (sequence_lengths vars)) (int32_add (time vars) 1))
      (sequence_lengths vars).
Proof.
  unfold Decoder.body, Decoder.next_finished_of, Decoder.decoder_finished_of.
  destruct (step decoder _ _ _) as [[[[[no na] np] ds] ni] df]; simpl.
  intros H.
  repeat (apply bind_Ok in H; destruct H as [? [_ H]]).
  inversion H; subst; clear H. simpl. auto.
Qed.

Lemma while_loop_bounded (M : Z) :
  maximum_iterations = Some M -> 0 < M < 2 ^ 31 ->
  forall (fuel n : nat) (vars : LV),
    time vars = Z.of_nat n -> Z.of_nat n <= M ->
    (Z.of_nat n = M -> reduce_all (finished vars) = true) ->
    Forall (fun l => l <= M) (sequence_lengths vars) ->
    (Z.to_nat M - n <= fuel)%nat ->
    match while_loop fuel n vars with
    | Exited n' res =>
        Z.of_nat n' <= M /\ Forall (fun l => l <= M) (sequence_lengths res)
    | Raised n' _ => Z.of_nat n' < M
    | OutOfFuel => False
    end.
Proof.
  intros HM Hrange fuel.
  induction fuel as [|fuel IH]; intros n vars Ht Hn Hall Hseq Hfuel; simpl.
  - unfold condition. destruct (reduce_all (finished vars)) eqn:Hc; simpl.
    + auto.
    + assert (Z.of_nat n <> M) by (intros E; specialize (Hall E); congruence).
      lia.
  - unfold condition. destruct (reduce_all (finished vars)) eqn:Hc; simpl.
    + auto.
    + assert (Hlt : Z.of_nat n < M).
      { assert (Z.of_nat n <> M) by (intros E; specialize (Hall E); congruence).
        lia. }
      destruct (body vars) as [vars'|e] eqn:Hb; [|exact Hlt].
      apply body_Ok in Hb. destruct Hb as (Ht' & Hf' & Hs').
      assert (Hadd : int32_add (time vars) 1 = Z.of_nat (S n)).
      { rewrite Ht. rewrite int32_add_small; lia. }
      apply IH.
      * rewrite Ht'. exact Hadd.
      * lia.
      * intros E. rewrite Hf'. unfold Decoder.next_finished_of. rewrite HM, Hadd.
        replace (M <=? Z.of_nat (S n)) with true by (symmetry; apply Z.leb_le; lia).
        apply reduce_all_map_true.
      * rewrite Hs'. apply where_Forall; [|exact Hseq].
        rewrite Hadd. apply Forall_forall. intros x Hx.
        apply elem_of_replicate in Hx. lia.
      * lia.
Qed.

(** One pass, seen at one batch element. *)
Lemma body_lookup (vars vars' : LV) (i : nat) (b' : bool) :
  body vars = Ok vars' ->
  length (sequence_lengths vars) = length (finished vars) ->
  finished vars' !! i = Some b' ->
  exists (b : bool) (s : Z),
    finished vars !! i = Some b /\
    sequence_lengths vars !! i = Some s /\
    (b = true -> b' = true) /\
    sequence_lengths vars' !! i =
      Some (if negb b && b' then int32_add (time vars) 1 else s).
Proof.
  intros Hb Hlen Hi. apply body_Ok in Hb. destruct Hb as (_ & Hf & Hs).
  rewrite Hf in Hi. rewrite Hs, where_lookup. clear Hs.
  unfold logical_and, logical_not. rewrite lookup_zip_with, list_lookup_fmap.
  rewrite Hi. clear Hf.
  assert (Hb : exists b, finished vars !! i = Some b /\ (b = true -> b' = true)).
  { unfold Decoder.next_finished_of in Hi.
    assert (Hor : forall l, logical_or (decoder_finished_of vars) (finished vars) !! i = Some l ->
              exists b, finished vars !! i = Some b /\ (b = true -> l = true)).
    { intros l Hl. unfold logical_or in Hl. rewrite lookup_zip_with in Hl.
      destruct (decoder_finished_of vars !! i) as [d|]; simpl in Hl; [|discriminate].
      destruct (finished vars !! i) as [b|]; simpl in Hl; [|discriminate].
      exists b. split; [reflexivity|]. intros ->. inversion Hl.
      apply orb_true_r. }
    destruct maximum_iterations as [m|]; [|apply Hor; exact Hi].
    unfold logical_or_scalar in Hi. rewrite list_lookup_fmap in Hi.
    destruct (logical_or _ _ !! i) as [l|] eqn:Hl; simpl in Hi; [|discriminate].
    destruct (Hor l eq_refl) as (b & Hb & Himp). exists b. split; [exact Hb|].
    intros E. inversion Hi. rewrite (Himp E). reflexivity. }
  destruct Hb as (b & Hb & Hmono).
  assert (Hs : exists s, sequence_lengths vars !! i = Some s).
  { apply lookup_lt_is_Some. rewrite Hlen. eapply lookup_lt_Some. exact Hb. }
  destruct Hs as (s & Hs).
  exists b, s. rewrite Hb, Hs. simpl.
  rewrite lookup_replicate_2 by (eapply lookup_lt_Some; exact Hs).
  auto.
Qed.

Lemma body_lengths (vars vars' : LV) :
  body vars = Ok vars' ->
  length (sequence_lengths vars) = length (finished vars) ->
  length (sequence_lengths vars') = length (finished vars').
Proof.
  intros Hb Hlen. apply body_Ok in Hb. destruct Hb as (_ & Hf & Hs).
  rewrite Hs, where_length, Hf.
  unfold logical_and, logical_not.
  rewrite length_zip_with, length_fmap, length_replicate, Hlen.
  assert (length (next_finished_of vars) <= length (finished vars))%nat; [|lia].
  unfold Decoder.next_finished_of.
  assert (length (logical_or (decoder_finished_of vars) (finished vars))
          <= length (finished vars))%nat.
  { unfold logical_or. rewrite length_zip_with. lia. }
  destruct maximum_iterations; [|assumption].
  unfold logical_or_scalar. rewrite length_fmap. assumption.
Qed.

(** C6. With [impute_finished] on, one pass of the loop body writes, for
    every output field, an emitted value whose entry for a batch element
    that was already finished before the pass is the entry of the zero
    output (and the step's raw output for an element still running); and a
    state field that is a batched tensor, so neither a scalar nor a
    [TensorArray], keeps for such an element its value from before the pass
    (and takes the decoder's new value for an element still running), while
    scalars and [TensorArray]s take the decoder's new value. *)
Theorem C6_impute_finished_holds_finished_elements
    (vars vars' : LV) next_outputs next_attention next_p_gens decoder_state
    next_inputs decoder_finished :
  impute_finished = true ->
  step decoder (time vars) (inputs vars) (state vars) =
    (next_outputs, next_attention, next_p_gens, decoder_state, next_inputs,
     decoder_finished) ->
  body vars = Ok vars' ->
  (forall f out, next_outputs !! f = Some out ->
     exists zero ta' emit,
       zero_outputs !! f = Some zero /\
       outputs_ta vars' !! f = Some ta' /\
       ta' !! Z.to_nat (time vars) = Some (Some emit) /\
       forall (i : nat) (b : bool), finished vars !! i = Some b ->
         is_Some (zero !! i) -> is_Some (out !! i) ->
         emit !! i = if b then zero !! i else out !! i) /\
  (forall j cur, state vars !! j = Some (FTensor (Batch cur)) ->
     exists new held,
       decoder_state !! j = Some (FTensor (Batch new)) /\
       state vars' !! j = Some (FTensor (Batch held)) /\
       forall (i : nat) (b : bool), finished vars !! i = Some b ->
         is_Some (cur !! i) -> is_Some (new !! i) ->
         held !! i = if b then cur !! i else new !! i) /\
  (forall j cur, state vars !! j = Some cur ->
     (forall rows, cur <> FTensor (Batch rows)) ->
     state vars' !! j = decoder_state !! j).
Proof.
  intros -> Hstep Hb. unfold Decoder.body in Hb. rewrite Hstep in Hb.
  simpl in Hb.
  apply bind_Ok in Hb. destruct Hb as (_ & _ & Hb).
  apply bind_Ok in Hb. destruct Hb as (_ & _ & Hb).
  apply bind_Ok in Hb. destruct Hb as (_ & _ & Hb).
  apply bind_Ok in Hb. destruct Hb as (emit & Hemit & Hb).
  apply bind_Ok in Hb. destruct Hb as (next_state & Hstate & Hb).
  apply bind_Ok in Hb. destruct Hb as (ota & Hota & Hb).
  apply bind_Ok in Hb. destruct Hb as (att & _ & Hb).
  apply bind_Ok in Hb. destruct Hb as (pg & _ & Hb).
  inversion Hb; subst vars'; clear Hb. simpl.
  apply map_structure2_Forall3 in Hemit, Hstate, Hota.
  split; [|split].
  - intros f out Hout.
    destruct (Forall3_lookup_l _ _ _ _ _ _ Hemit Hout) as (zero & e & Hz & He & Hw).
    destruct (Forall3_lookup_m _ _ _ _ _ _ Hota He) as (ta & ta' & Hta & Hta' & Hwr).
    inversion Hw; subst e; clear Hw.
    apply ta_write_lookup in Hwr. destruct Hwr as (_ & Hslot).
    exists zero, ta', (where_ (finished vars) zero out).
    repeat split; try assumption.
    intros i b Hfin [z Hzi] [o Hoi]. rewrite where_lookup, Hfin, Hzi, Hoi.
    destruct b; reflexivity.
  - intros j cur Hcur.
    destruct (Forall3_lookup_m _ _ _ _ _ _ Hstate Hcur) as (new & held & Hnew & Hheld & Hcopy).
    simpl in Hcopy. destruct new as [[v|new]|ta]; try discriminate.
    inversion Hcopy; subst held; clear Hcopy.
    exists new, (where_ (finished vars) cur new).
    repeat split; try assumption.
    intros i b Hfin [c Hci] [n Hni]. rewrite where_lookup, Hfin, Hci, Hni.
    destruct b; reflexivity.
  - intros j cur Hcur Hkind.
    destruct (Forall3_lookup_m _ _ _ _ _ _ Hstate Hcur) as (new & held & Hnew & Hheld & Hcopy).
    rewrite Hnew, Hheld. f_equal.
    destruct cur as [[v|rows]|ta]; simpl in Hcopy.
    + destruct new as [[v'|new]|ta]; try discriminate; inversion Hcopy; reflexivity.
    + exfalso. apply (Hkind rows). reflexivity.
    + inversion Hcopy; reflexivity.
Qed.

Lemma vars_after_S (k : nat) (vars0 vars' : LV) :
  vars_after (S k) vars0 = Some vars' ->
  exists vars, vars_after k vars0 = Some vars /\
               condition vars = true /\ body vars = Ok vars'.
Proof.
  revert vars0. induction k as [|k IH]; intros vars0 H.
  - simpl in H. destruct (condition vars0) eqn:Hc; [|discriminate].
    destruct (body vars0) as [v|] eqn:Hb; [|discriminate].
    inversion H; subst. exists vars0. auto.
  - change (vars_after (S (S k)) vars0) with
      (if condition vars0 then
         match body vars0 with
         | Ok v => vars_after (S k) v
         | Err _ => None
         end
       else None) in H.
    destruct (condition vars0) eqn:Hc; [|discriminate].
    destruct (body vars0) as [v|] eqn:Hb; [|discriminate].
    destruct (IH v H) as (vars & Hk & Hcond & Hbody).
    exists vars. split; [|auto].
    simpl. rewrite Hc, Hb. exact Hk.
Qed.

Lemma vars_after_prefix (k t : nat) (vars0 vars_k : LV) :
  vars_after k vars0 = Some vars_k -> (t <= k)%nat ->
  exists vars_t, vars_after t vars0 = Some vars_t.
Proof.
  revert vars_k. induction k as [|k IH]; intros vars_k Hk Ht.
  - assert (t = 0)%nat as -> by lia. eauto.
  - destruct (decide (t = S k)) as [->|Hne]; [eauto|].
    apply vars_after_S in Hk. destruct Hk as (v & Hv & _).
    apply (IH v Hv). lia.
Qed.

Lemma body_writes (vars vars' : LV) :
  body vars = Ok vars' ->
  Forall3 (fun ta e ta' => ta_write ta (time vars) e = Ok ta')
    (outputs_ta vars) (emit_of vars) (outputs_ta vars') /\
  Forall3 (fun ta a ta' => ta_write ta (time vars) a = Ok ta')
    (attention vars) (next_attention_of vars) (attention vars') /\
  ta_write (p_gens vars) (time vars) (next_p_gens_of vars) = Ok (p_gens vars').
Proof.
  unfold Decoder.body, Decoder.emit_of, Decoder.next_attention_of,
    Decoder.next_p_gens_of, Decoder.next_outputs_of.
  destruct (step decoder _ _ _) as [[[[[no na] np] ds] ni] df]; simpl.
  intros Hb.
  apply bind_Ok in Hb. destruct Hb as (_ & _ & Hb).
  apply bind_Ok in Hb. destruct Hb as (_ & _ & Hb).
  apply bind_Ok in Hb. destruct Hb as (_ & _ & Hb).
  apply bind_Ok in Hb. destruct Hb as (emit & Hemit & Hb).
  apply bind_Ok in Hb. destruct Hb as (next_state & _ & Hb).
  apply bind_Ok in Hb. destruct Hb as (ota & Hota & Hb).
  apply bind_Ok in Hb. destruct Hb as (att & Hatt & Hb).
  apply bind_Ok in Hb. destruct Hb as (pg & Hpg & Hb).
  inversion Hb; subst vars'; clear Hb. simpl.
  split; [|split].
  - apply map_structure2_Forall3 in Hota.
    destruct impute_finished.
    + apply map_structure2_pure in Hemit. subst emit. exact Hota.
    + inversion Hemit; subst. exact Hota.
  - apply map_structure2_Forall3. exact Hatt.
  - exact Hpg.
Qed.

Lemma while_loop_vars_after (fuel m n : nat) (vars res : LV) :
  while_loop fuel m vars = Exited n res ->
  exists d, n = (m + d)%nat /\ vars_after d vars = Some res /\
            condition res = false.
Proof.
  revert m vars. induction fuel as [|fuel IH]; intros m vars; simpl.
  - destruct (condition vars) eqn:Hc; [discriminate|].
    intros H. inversion H; subst. exists 0%nat. rewrite Nat.add_0_r. auto.
  - destruct (condition vars) eqn:Hc.
    + destruct (body vars) as [v|e] eqn:Hb; [|discriminate].
      intros H. destruct (IH _ _ H) as (d & -> & Hd & Hcond).
      exists (S d). split; [lia|]. split; [|exact Hcond].
      simpl. rewrite Hc, Hb. exact Hd.
    + intros H. inversion H; subst. exists 0%nat. rewrite Nat.add_0_r. auto.
Qed.

Section Trace.
Variable vars0 : LV.
Hypothesis time0 : time vars0 = 0.
Hypothesis lengths0 : sequence_lengths vars0 = map (fun _ => 0) (finished vars0).

Lemma vars_after_invariant (k : nat) (vars : LV) :
  vars_after k vars0 = Some vars -> Z.of_nat k < 2 ^ 31 ->
  time vars = Z.of_nat k /\
  length (sequence_lengths vars) = length (finished vars).
Proof.
  revert vars. induction k as [|k IH]; intros vars Hk Hlt.
  - inversion Hk; subst. split; [exact time0|].
    rewrite lengths0. apply length_fmap.
  - apply vars_after_S in Hk. destruct Hk as (v & Hv & _ & Hb).
    destruct (IH v Hv) as (Ht & Hl); [lia|].
    split; [|exact (body_lengths _ _ Hb Hl)].
    apply body_Ok in Hb. destruct Hb as (-> & _). rewrite Ht.
    rewrite int32_add_small; lia.
Qed.

(** An element in range after [k] passes was in range, and not finished
    later than now, after every earlier pass. *)
Lemma finished_backward (k t : nat) (vars_k vars_t : LV) (i : nat) (b : bool) :
  Z.of_nat k < 2 ^ 31 ->
  vars_after k vars0 = Some vars_k -> finished vars_k !! i = Some b ->
  (t <= k)%nat -> vars_after t vars0 = Some vars_t ->
  exists bt, finished vars_t !! i = Some bt /\ (bt = true -> b = true).
Proof.
  intros Hlt. revert vars_k b. induction k as [|k IH]; intros vars_k b Hk Hi Ht Hvt.
  - assert (t = 0)%nat as -> by lia. rewrite Hk in Hvt. inversion Hvt; subst. eauto.
  - destruct (decide (t = S k)) as [->|Hne].
    { rewrite Hk in Hvt. inversion Hvt; subst. eauto. }
    apply vars_after_S in Hk. destruct Hk as (v & Hv & _ & Hb).
    destruct (vars_after_invariant k v Hv) as (_ & Hl); [lia|].
    destruct (body_lookup _ _ i b Hb Hl Hi) as (b0 & s & Hb0 & _ & Hmono & _).
    destruct (IH ltac:(lia) v b0 Hv Hb0 ltac:(lia) Hvt) as (bt & Hbt & Hm).
    exists bt. split; [exact Hbt|]. auto.
Qed.

Lemma running_length_zero (k : nat) (vars_k : LV) (i : nat) :
  Z.of_nat k < 2 ^ 31 ->
  vars_after k vars0 = Some vars_k -> finished vars_k !! i = Some false ->
  sequence_lengths vars_k !! i = Some 0.
Proof.
  revert vars_k. induction k as [|k IH]; intros vars_k Hlt Hk Hi.
  - inversion Hk; subst. rewrite lengths0, list_lookup_fmap, Hi. reflexivity.
  - apply vars_after_S in Hk. destruct Hk as (v & Hv & _ & Hb).
    destruct (vars_after_invariant k v Hv) as (_ & Hl); [lia|].
    destruct (body_lookup _ _ i false Hb Hl Hi) as (b0 & s & Hb0 & Hs & Hmono & Hs').
    destruct b0; [specialize (Hmono eq_refl); discriminate|].
    rewrite (IH v ltac:(lia) Hv Hb0) in Hs. inversion Hs; subst.
    rewrite Hs'. reflexivity.
Qed.

Lemma finished_length_first (k t : nat) (vars_k vars_t : LV) (i : nat) (b : bool) :
  Z.of_nat k < 2 ^ 31 ->
  vars_after k vars0 = Some vars_k -> finished vars_k !! i = Some b ->
  (t <= k)%nat -> vars_after t vars0 = Some vars_t ->
  finished vars_t !! i = Some true ->
  (forall t' vars_t', (t' < t)%nat -> vars_after t' vars0 = Some vars_t' ->
                      finished vars_t' !! i = Some false) ->
  sequence_lengths vars_k !! i = Some (Z.of_nat t).
Proof.
  intros Hlt Hk Hi Ht Hvt Hfin Hfirst.
  revert vars_k b Hk Hi. induction k as [|k IH]; intros vars_k b Hk Hi.
  - assert (t = 0)%nat as -> by lia. rewrite Hk in Hvt. inversion Hvt; subst.
    inversion Hk; subst. rewrite lengths0, list_lookup_fmap, Hfin. reflexivity.
  - pose proof Hk as Hk'.
    apply vars_after_S in Hk. destruct Hk as (v & Hv & _ & Hb).
    destruct (vars_after_invariant k v Hv) as (Htime & Hl); [lia|].
    destruct (body_lookup _ _ i b Hb Hl Hi) as (b0 & s & Hb0 & Hs & Hmono & Hs').
    rewrite Hs'. destruct (decide (t = S k)) as [->|Hne].
    + rewrite Hk' in Hvt. inversion Hvt; subst.
      rewrite Hfin in Hi. inversion Hi; subst.
      rewrite (Hfirst k v ltac:(lia) Hv) in Hb0. inversion Hb0; subst. simpl.
      rewrite Htime, int32_add_small by lia. f_equal. lia.
    + assert (Hle : (t <= k)%nat) by lia.
      destruct (finished_backward k t v vars_t i b0 ltac:(lia) Hv Hb0 Hle Hvt)
        as (bt & Hbt & Hm).
      rewrite Hfin in Hbt. inversion Hbt; subst. rewrite (Hm eq_refl). simpl.
      rewrite (IH ltac:(lia) Hle v true Hv) in Hs.
      * congruence.
      * rewrite Hb0, (Hm eq_refl). reflexivity.
Qed.

Lemma length_written_at_transition (k : nat) (vars vars' : LV) (i : nat) :
  Z.of_nat k < 2 ^ 31 ->
  vars_after k vars0 = Some vars -> vars_after (S k) vars0 = Some vars' ->
  is_Some (finished vars' !! i) ->
  sequence_lengths vars' !! i <> sequence_lengths vars !! i ->
  finished vars !! i = Some false /\ finished vars' !! i = Some true.
Proof.
  intros Hlt Hv Hv' [b' Hi] Hne.
  apply vars_after_S in Hv'. destruct Hv' as (v & Hv2 & _ & Hb).
  rewrite Hv in Hv2. inversion Hv2; subst v.
  destruct (vars_after_invariant k vars Hv Hlt) as (_ & Hl).
  destruct (body_lookup _ _ i b' Hb Hl Hi) as (b0 & s & Hb0 & Hs & _ & Hs').
  rewrite Hs', Hs in Hne. rewrite Hb0, Hi.
  destruct b0, b'; simpl in Hne; try congruence. auto.
Qed.

(** A buffer that every pass writes at index [time]: after [k] passes it
    holds the [k] values of these passes, in their order. *)
Section Buffer.
Context {T : Type}.
Variables (buf : LV -> option (TensorArray T)) (val : LV -> option T).
Hypothesis buf_step : forall (v v' : LV) ta',
  body v = Ok v' -> buf v' = Some ta' ->
  exists ta e, buf v = Some ta /\ val v = Some e /\
               ta_write ta (time v) e = Ok ta'.
Hypothesis buf0 : forall ta, buf vars0 = Some ta -> ta = [].

Lemma buffer_trace (k : nat) (v : LV) (ta : TensorArray T) :
  Z.of_nat k < 2 ^ 31 ->
  vars_after k vars0 = Some v -> buf v = Some ta ->
  exists st, ta = Some <$> st /\ length st = k /\
    forall (t : nat) (v_t : LV), (t < k)%nat ->
      vars_after t vars0 = Some v_t -> val v_t = st !! t.
Proof.
  revert v ta. induction k as [|k IH]; intros v ta Hlt Hk Hbuf.
  - inversion Hk; subst v. rewrite (buf0 _ Hbuf). exists []. split; [reflexivity|].
    split; [reflexivity|]. intros t v_t Ht. lia.
  - apply vars_after_S in Hk. destruct Hk as (vk & Hvk & _ & Hb).
    destruct (buf_step _ _ _ Hb Hbuf) as (ta0 & e & Hbuf0 & Hval & Hw).
    destruct (IH vk ta0 ltac:(lia) Hvk Hbuf0) as (st & -> & Hlen & Hst).
    destruct (vars_after_invariant k vk Hvk ltac:(lia)) as (Htime & _).
    apply ta_write_append in Hw;
      [|lia|rewrite length_fmap, Htime, Nat2Z.id; exact Hlen].
    subst ta. exists (st ++ [e]). split; [rewrite fmap_app; reflexivity|].
    split; [rewrite length_app; simpl; lia|].
    intros t v_t Ht Hvt. destruct (decide (t = k)) as [->|Hne].
    + rewrite Hvk in Hvt. inversion Hvt; subst v_t.
      rewrite Hval, lookup_app_r by lia. rewrite Hlen, Nat.sub_diag. reflexivity.
    + rewrite lookup_app_l by lia. apply Hst; [lia | exact Hvt].
Qed.
End Buffer.

End Trace.
End Loop.

Section Initial.
Context {V Inp Attn PGen Shape DType : Type}.
Variables (decoder : @Decoder V Inp Attn PGen Shape DType)
          (attention_size : Shape) (maximum_iterations : option Z).

Local Abbreviation vars0 := (initial_vars decoder attention_size maximum_iterations).

Lemma initial_time : time vars0 = 0.
Proof. unfold initial_vars. destruct (initialize decoder) as [[f i] s]. reflexivity. Qed.

Lemma initial_lengths :
  sequence_lengths vars0 = map (fun _ => 0) (finished vars0).
Proof. unfold initial_vars. destruct (initialize decoder) as [[f i] s]. reflexivity. Qed.

Lemma initial_outputs_ta (f : nat) (ta : TensorArray (list V)) :
  outputs_ta vars0 !! f = Some ta -> ta = [].
Proof.
  unfold initial_vars. destruct (initialize decoder) as [[fi i] s]. simpl.
  rewrite list_lookup_fmap. destruct (output_size decoder !! f); simpl; congruence.
Qed.

Lemma initial_attention (f : nat) (ta : TensorArray Attn) :
  attention vars0 !! f = Some ta -> ta = [].
Proof.
  unfold initial_vars. destruct (initialize decoder) as [[fi i] s]. simpl.
  destruct f as [|f]; simpl; [congruence | discriminate].
Qed.

Lemma initial_p_gens : p_gens vars0 = [].
Proof. unfold initial_vars. destruct (initialize decoder) as [[f i] s]. reflexivity. Qed.

End Initial.

Lemma written_stacked {T} (l : list (TensorArray T)) :
  Forall (fun ta => exists st, ta = Some <$> st) l ->
  l = map (map Some) (map (omap (fun x => x)) l).
Proof.
  induction 1 as [|ta l [st ->] _ IH]; [reflexivity|].
  simpl. rewrite omap_written. f_equal. exact IH.
Qed.

(** C2. For every [maximum_iterations = M > 0] and every decoder, whatever
    its [finished] signals, the loop of [dynamic_decode] makes at most [M]
    passes: given [M] units of fuel the model never runs out, the loop is
    left after at most [M] passes, and then no entry of the final
    [sequence_lengths] exceeds [M].  (A pass that raises is one of the
    first [M]; an [M] that is no [int32] is rejected before the loop.) *)
Theorem C2_decode_loop_bounded {V Inp Attn PGen Shape DType : Type}
    (zeros : Shape -> DType -> V)
    (decoder : @Decoder V Inp Attn PGen Shape DType)
    (attention_size : Shape) (impute_finished : bool)
    (M : Z) (fuel : nat) :
  0 < M -> (Z.to_nat M <= fuel)%nat ->
  match run_loop zeros fuel decoder attention_size impute_finished (MaxInt M) with
  | Ok (Exited n res) =>
      Z.of_nat n <= M /\ Forall (fun l => l <= M) (sequence_lengths res)
  | Ok (Raised n _) => Z.of_nat n < M
  | Ok OutOfFuel => False
  | Err _ => True
  end.
Proof.
  intros HM Hfuel. unfold run_loop. simpl.
  destruct (in_int32 M) eqn:Hin; simpl; [|exact I].
  destruct (_create_zero_outputs _ _ _ _) as [zero|e]; simpl; [|exact I].
  unfold in_int32 in Hin. apply andb_prop in Hin. destruct Hin as [_ Hin].
  apply Z.ltb_lt in Hin.
  apply (while_loop_bounded decoder impute_finished (Some M) zero M eq_refl);
    try lia.
  - unfold initial_vars. destruct (initialize decoder) as [[f i] s]. reflexivity.
  - unfold initial_vars. destruct (initialize decoder) as [[f i] s]. simpl.
    apply Forall_forall. intros x Hx. apply list_elem_of_fmap in Hx.
    destruct Hx as (y & -> & _). lia.
Qed.

Lemma C2_decode_loop_bounded_witness :
  0 < 5 /\ (Z.to_nat 5 <= 5)%nat /\
  match run_loop Toy.zeros 5 Toy.decoder tt true (MaxInt 5) with
  | Ok (Exited n res) =>
      Z.of_nat n <= 5 /\ Forall (fun l => l <= 5) (sequence_lengths res)
  | Ok (Raised n _) => Z.of_nat n < 5
  | Ok OutOfFuel => False
  | Err _ => True
  end.
Proof.
  split; [reflexivity|]. split; [apply le_n|].
  apply (C2_decode_loop_bounded Toy.zeros Toy.decoder tt true 5 5);
    [reflexivity | apply le_n].
Defined.

(** C3. At the start of every pass of the loop (and at its exit), for a
    batch element [i]: [sequence_lengths[i]] is 0 while the element's flag
    is false; if its flag first became true in the variables after [t]
    passes, [sequence_lengths[i]] is [t], now and after every later pass;
    and an entry of [sequence_lengths] changes in a pass only when the flag
    goes from false to true in that pass.  (Step counts are [int32].) *)
Theorem C3_sequence_lengths_invariant {V Inp Attn PGen Shape DType : Type}
    (decoder : @Decoder V Inp Attn PGen Shape DType)
    (attention_size : Shape) (impute_finished : bool)
    (maximum_iterations : option Z) (zero_outputs : list (list V))
    (k : nat) (vars_k : @loop_vars V Inp Attn PGen) (i : nat) (b : bool) :
  let vars0 := initial_vars decoder attention_size maximum_iterations in
  let after := vars_after decoder impute_finished maximum_iterations zero_outputs in
  Z.of_nat k < 2 ^ 31 ->
  after k vars0 = Some vars_k ->
  finished vars_k !! i = Some b ->
  (b = false -> sequence_lengths vars_k !! i = Some 0) /\
  (forall (t : nat) (vars_t : @loop_vars V Inp Attn PGen),
     (t <= k)%nat -> after t vars0 = Some vars_t ->
     finished vars_t !! i = Some true ->
     (forall (t' : nat) (vars_t' : @loop_vars V Inp Attn PGen),
        (t' < t)%nat -> after t' vars0 = Some vars_t' ->
        finished vars_t' !! i = Some false) ->
     sequence_lengths vars_k !! i = Some (Z.of_nat t)) /\
  (forall (t : nat) (vars_t vars_t' : @loop_vars V Inp Attn PGen),
     (S t <= k)%nat -> after t vars0 = Some vars_t ->
     after (S t) vars0 = Some vars_t' ->
     sequence_lengths vars_t' !! i <> sequence_lengths vars_t !! i ->
     finished vars_t !! i = Some false /\ finished vars_t' !! i = Some true).
Proof.
  intros vars0 after Hlt Hk Hi.
  pose proof (initial_time decoder attention_size maximum_iterations) as H0.
  pose proof (initial_lengths decoder attention_size maximum_iterations) as Hl0.
  split; [|split].
  - intros ->. eapply running_length_zero; eauto.
  - intros t vars_t Ht Hvt Hfin Hfirst.
    eapply finished_length_first; eauto.
  - intros t vars_t vars_t' Ht Hvt Hvt' Hne.
    destruct (finished_backward decoder impute_finished maximum_iterations
                zero_outputs vars0 H0 Hl0 k (S t) vars_k vars_t' i b Hlt Hk Hi Ht Hvt')
      as (bt & Hbt & _).
    apply (length_written_at_transition decoder impute_finished
             maximum_iterations zero_outputs vars0 H0 Hl0 t vars_t vars_t' i);
      [lia | exact Hvt | exact Hvt' | exists bt; exact Hbt | exact Hne].
Qed.

Lemma C3_sequence_lengths_invariant_witness :
  Z.of_nat 3 < 2 ^ 31 /\
  vars_after Toy.decoder true (Some 5) Toy.zero_outputs 3 Toy.vars0
    = Some Toy.vars3 /\
  finished Toy.vars3 !! 0%nat = Some true /\
  sequence_lengths Toy.vars3 !! 0%nat = Some 1.
Proof.
  split; [reflexivity|]. split; [reflexivity|]. split; [reflexivity|].
  destruct (C3_sequence_lengths_invariant Toy.decoder tt true (Some 5)
              Toy.zero_outputs 3 Toy.vars3 0 true eq_refl eq_refl eq_refl)
    as (_ & Hfirst & _).
  apply (Hfirst 1%nat Toy.vars1).
  - apply le_S, le_S, le_n.
  - reflexivity.
  - reflexivity.
  - intros t' v Ht' Hv. destruct t' as [|t'].
    + inversion Hv. reflexivity.
    + exfalso. apply (Nat.nlt_0_r t'). apply Nat.succ_lt_mono. exact Ht'.
Defined.

(** C5 as stated fails: the attention and copy gate buffers of a run are
    handed back as [TensorArray]s, in time order, not as stacked batch-major
    tensors. *)
Lemma C5_attention_and_gates_not_stacked :
  dynamic_decode Toy.zeros 5 Toy.decoder tt false false (MaxInt 5) =
    Some (Ok Toy.decoded) /\
  final_attention Toy.decoded =
    [Buffer [Some [11; 21]; Some [13; 23]; Some [16; 26]]] /\
  final_p_gens Toy.decoded = Buffer [Some 0; Some 1; Some 2] /\
  ~ (forall r, dynamic_decode Toy.zeros 5 Toy.decoder tt false false (MaxInt 5)
               = Some (Ok r) ->
       Forall (fun x => exists t, x = Dense t) (final_outputs r) /\
       Forall (fun x => exists t, x = Dense t) (final_attention r) /\
       exists t, final_p_gens r = Dense t).
Proof.
  assert (Heq : dynamic_decode Toy.zeros 5 Toy.decoder tt false false (MaxInt 5)
                = Some (Ok Toy.decoded)) by reflexivity.
  split; [exact Heq|]. split; [reflexivity|]. split; [reflexivity|].
  intros H. destruct (H Toy.decoded Heq) as (_ & _ & t & Ht).
  cbn in Ht. discriminate Ht.
Qed.

(** C5, amended. When the loop has exited after [n] passes, the output
    buffers (rnn outputs and sample ids) are stacked into dense tensors in
    time order (entry [t] is what pass [t] emitted), given to the decoder's
    [finalize] if it has one, and transposed to batch-major unless
    time-major output was requested.  The attention and copy gate buffers
    are returned as they are: [TensorArray]s whose slot [t] holds step
    [t]'s value, whatever the layout requested. *)
Theorem C5_outputs_stacked_buffers_returned {V Inp Attn PGen Shape DType : Type}
    (zeros : Shape -> DType -> V)
    (decoder : @Decoder V Inp Attn PGen Shape DType)
    (attention_size : Shape) (output_time_major impute_finished : bool)
    (maximum_iterations : max_iter_arg) (fuel n : nat)
    (res : @loop_vars V Inp Attn PGen) :
  Z.of_nat n < 2 ^ 31 ->
  run_loop zeros fuel decoder attention_size impute_finished maximum_iterations
    = Ok (Exited n res) ->
  let stacked := map (omap (fun x => x)) (outputs_ta res) in
  let finalized :=
    match finalize decoder with
    | Some f => f stacked (state res) (sequence_lengths res)
    | None => (stacked, state res)
    end in
  dynamic_decode zeros fuel decoder attention_size output_time_major
    impute_finished maximum_iterations =
    Some (Ok {| final_outputs :=
                  map Dense
                    (if output_time_major then finalized.1
                     else map (_transpose_batch_time (batch_size decoder))
                            finalized.1);
                final_state := finalized.2;
                final_sequence_lengths := sequence_lengths res;
                final_attention := map Buffer (attention res);
                final_p_gens := Buffer (p_gens res) |}) /\
  outputs_ta res = map (map Some) stacked /\
  Forall (fun st => length st = n) stacked /\
  exists (m : option Z) (zero_outputs : list (list V)),
    convert_maximum_iterations maximum_iterations = Ok m /\
    _create_zero_outputs zeros (output_size decoder) (output_dtype decoder)
      (batch_size decoder) = Ok zero_outputs /\
    forall t : nat, (t < n)%nat ->
      exists v_t : @loop_vars V Inp Attn PGen,
        vars_after decoder impute_finished m zero_outputs t
          (initial_vars decoder attention_size m) = Some v_t /\
        (forall (f : nat) (st : list (list V)), stacked !! f = Some st ->
           st !! t = emit_of decoder impute_finished zero_outputs v_t !! f) /\
        (forall (f : nat) (ta : TensorArray Attn), attention res !! f = Some ta ->
           ta !! t = Some (next_attention_of decoder v_t !! f)) /\
        p_gens res !! t = Some (Some (next_p_gens_of decoder v_t)).
Proof.
  intros Hn Hrun stacked finalized.
  pose proof Hrun as Hrun'. unfold run_loop in Hrun'.
  apply bind_Ok in Hrun'. destruct Hrun' as (m & Hm & Hrun').
  apply bind_Ok in Hrun'. destruct Hrun' as (zero & Hzero & Hrun').
  inversion Hrun' as [Hloop]; clear Hrun'.
  apply while_loop_vars_after in Hloop.
  destruct Hloop as (d & Hd & Hres & _). simpl in Hd. subst d.
  set (vars0 := initial_vars decoder attention_size m) in *.
  pose proof (initial_time decoder attention_size m) as H0.
  pose proof (initial_lengths decoder attention_size m) as Hl0.
  (* the three kinds of buffers *)
  assert (Hout : forall f ta, outputs_ta res !! f = Some ta ->
            exists st, ta = Some <$> st /\ length st = n /\
              forall t v_t, (t < n)%nat ->
                vars_after decoder impute_finished m zero t vars0 = Some v_t ->
                emit_of decoder impute_finished zero v_t !! f = st !! t).
  { intros f ta Hta.
    apply (buffer_trace decoder impute_finished m zero vars0 H0 Hl0
             (fun v => outputs_ta v !! f)
             (fun v => emit_of decoder impute_finished zero v !! f)) with (v := res);
      try assumption.
    - intros v v' ta' Hb Hta'. apply body_writes in Hb. destruct Hb as (Hw & _).
      destruct (Forall3_lookup_r _ _ _ _ _ _ Hw Hta') as (ta0 & e & ? & ? & ?).
      eauto.
    - apply initial_outputs_ta. }
  assert (Hatt : forall f ta, attention res !! f = Some ta ->
            exists st, ta = Some <$> st /\ length st = n /\
              forall t v_t, (t < n)%nat ->
                vars_after decoder impute_finished m zero t vars0 = Some v_t ->
                next_attention_of decoder v_t !! f = st !! t).
  { intros f ta Hta.
    apply (buffer_trace decoder impute_finished m zero vars0 H0 Hl0
             (fun v => attention v !! f)
             (fun v => next_attention_of decoder v !! f)) with (v := res);
      try assumption.
    - intros v v' ta' Hb Hta'. apply body_writes in Hb. destruct Hb as (_ & Hw & _).
      destruct (Forall3_lookup_r _ _ _ _ _ _ Hw Hta') as (ta0 & e & ? & ? & ?).
      eauto.
    - apply initial_attention. }
  assert (Hpg : exists st, p_gens res = Some <$> st /\ length st = n /\
              forall t v_t, (t < n)%nat ->
                vars_after decoder impute_finished m zero t vars0 = Some v_t ->
                Some (next_p_gens_of decoder v_t) = st !! t).
  { apply (buffer_trace decoder impute_finished m zero vars0 H0 Hl0
             (fun v => Some (p_gens v))
             (fun v => Some (next_p_gens_of decoder v))) with (v := res);
      try assumption; try reflexivity.
    - intros v v' ta' Hb Hta'. inversion Hta'; subst ta'.
      apply body_writes in Hb. destruct Hb as (_ & _ & Hw). eauto.
    - intros ta Hta. inversion Hta.
      apply (initial_p_gens decoder attention_size m). }
  assert (Hst : outputs_ta res = map (map Some) stacked).
  { apply written_stacked. apply Forall_lookup. intros f ta Hta.
    destruct (Hout f ta Hta) as (st & -> & _). eauto. }
  split; [|split; [exact Hst|split]].
  - unfold dynamic_decode. rewrite Hrun. unfold after_loop.
    pose proof (map_structure_stack stacked) as Hs. rewrite <- Hst in Hs.
    rewrite Hs. simpl. fold stacked. fold finalized.
    destruct finalized as [outs st]. simpl.
    destruct output_time_major; reflexivity.
  - apply Forall_lookup. intros f st Hf. unfold stacked in Hf.
    rewrite list_lookup_fmap in Hf.
    destruct (outputs_ta res !! f) as [ta|] eqn:Hta; [|discriminate].
    simpl in Hf. inversion Hf; subst st.
    destruct (Hout f ta Hta) as (st & -> & Hlen & _).
    rewrite omap_written. exact Hlen.
  - exists m, zero. split; [exact Hm|]. split; [exact Hzero|].
    intros t Ht.
    destruct (vars_after_prefix decoder impute_finished m zero n t vars0 res Hres)
      as (v_t & Hvt); [lia|].
    exists v_t. split; [exact Hvt|]. split; [|split].
    + intros f st Hf. unfold stacked in Hf. rewrite list_lookup_fmap in Hf.
      destruct (outputs_ta res !! f) as [ta|] eqn:Hta; [|discriminate].
      simpl in Hf. inversion Hf; subst st.
      destruct (Hout f ta Hta) as (st & -> & _ & Htr).
      rewrite omap_written. symmetry. apply Htr; assumption.
    + intros f ta Hta. destruct (Hatt f ta Hta) as (st & -> & _ & Htr).
      rewrite list_lookup_fmap, (Htr t v_t Ht Hvt).
      destruct (st !! t) eqn:E; [reflexivity|].
      apply lookup_ge_None in E.
      destruct (Hatt f _ Hta) as (st' & Heq & Hlen & _).
      apply (f_equal length) in Heq. rewrite !length_fmap in Heq. lia.
    + destruct Hpg as (st & -> & Hlen & Htr).
      rewrite list_lookup_fmap, <- (Htr t v_t Ht Hvt). reflexivity.
Qed.

Lemma C5_outputs_stacked_buffers_returned_witness :
  Z.of_nat 3 < 2 ^ 31 /\
  run_loop Toy.zeros 5 Toy.decoder tt true (MaxInt 5)
    = Ok (Exited 3 Toy.vars3) /\
  dynamic_decode Toy.zeros 5 Toy.decoder tt false true (MaxInt 5) =
    Some (Ok {| final_outputs := [Dense [[11; 0; 0]; [21; 23; 26]];
                                  Dense [[11; 0; 0]; [21; 23; 26]]];
                final_state := state Toy.vars3;
                final_sequence_lengths := [1; 3];
                final_attention :=
                  [Buffer [Some [11; 21]; Some [13; 23]; Some [14; 26]]];
                final_p_gens := Buffer [Some 0; Some 1; Some 2] |}).
Proof.
  split; [reflexivity|]. split; [reflexivity|].
  exact (proj1 (C5_outputs_stacked_buffers_returned Toy.zeros Toy.decoder tt
                  false true (MaxInt 5) 5 3 Toy.vars3 eq_refl eq_refl)).
Defined.

Lemma C6_impute_finished_holds_finished_elements_witness :
  true = true /\
  step Toy.decoder (time Toy.vars1) (inputs Toy.vars1) (state Toy.vars1) =
    ([[13; 23]; [13; 23]], [[13; 23]], 1,
     [FTensor (Batch [13; 23]); FTensor (Scalar 2);
      FArray [Some (Batch [11; 21]); Some (Batch [13; 23])]],
     [3; 3], [true; false]) /\
  body Toy.decoder true (Some 5) Toy.zero_outputs Toy.vars1 = Ok Toy.vars2 /\
  exists held : list Z,
    state Toy.vars2 !! 0%nat = Some (FTensor (Batch held)) /\
    held !! 0%nat = Some 11 /\ held !! 1%nat = Some 23.
Proof.
  split; [reflexivity|]. split; [reflexivity|]. split; [reflexivity|].
  destruct (C6_impute_finished_holds_finished_elements Toy.decoder true (Some 5)
              Toy.zero_outputs Toy.vars1 Toy.vars2 _ _ _ _ _ _
              eq_refl eq_refl eq_refl) as (_ & Hstate & _).
  destruct (Hstate 0%nat [11; 21] eq_refl) as (new & held & Hnew & Hheld & Hrows).
  exists held. split; [exact Hheld|].
  inversion Hnew; subst new. split.
  - apply (Hrows 0%nat true eq_refl); eexists; reflexivity.
  - apply (Hrows 1%nat false eq_refl); eexists; reflexivity.
Defined.

End DecoderProps.

Module DecoderRuns.

Import Py Tf Decoder ResultFacts DecoderProps.

Section Runs.
Context {V Inp Attn PGen Shape DType : Type}.
Variables (zeros : Shape -> DType -> V)
          (decoder : @Decoder V Inp Attn PGen Shape DType)
          (attention_size : Shape).

Local Abbreviation LV := (@loop_vars V Inp Attn PGen).

(** A run of the loop that is left after [n] passes: the converted
    [maximum_iterations], the zero outputs, and the variables at the exit
    as those after [n] passes. *)
Lemma run_loop_Exited (impute_finished : bool) (maximum_iterations : max_iter_arg)
      (fuel n : nat) (res : LV) :
  run_loop zeros fuel decoder attention_size impute_finished maximum_iterations
    = Ok (Exited n res) ->
  exists (m : option Z) (zero_outputs : list (list V)),
    convert_maximum_iterations maximum_iterations = Ok m /\
    _create_zero_outputs zeros (output_size decoder) (output_dtype decoder)
      (batch_size decoder) = Ok zero_outputs /\
    vars_after decoder impute_finished m zero_outputs n
      (initial_vars decoder attention_size m) = Some res /\
    reduce_all (finished res) = true.
Proof.
  intros Hrun. unfold run_loop in Hrun.
  apply bind_Ok in Hrun. destruct Hrun as (m & Hm & Hrun).
  apply bind_Ok in Hrun. destruct Hrun as (zero & Hzero & Hrun).
  inversion Hrun as [Hloop]; clear Hrun.
  apply while_loop_vars_after in Hloop.
  destruct Hloop as (d & Hd & Hres & Hc). simpl in Hd. subst d.
  exists m, zero. repeat split; try assumption.
  unfold condition in Hc. destruct (reduce_all (finished res)); [reflexivity|discriminate].
Qed.

Lemma create_zero_outputs_lookup (zero_outputs : list (list V)) (f : nat)
      (zero : list V) :
  _create_zero_outputs zeros (output_size decoder) (output_dtype decoder)
    (batch_size decoder) = Ok zero_outputs ->
  zero_outputs !! f = Some zero ->
  exists s d, output_size decoder !! f = Some s /\
              output_dtype decoder !! f = Some d /\
              zero = replicate (batch_size decoder) (zeros s d).
Proof.
  unfold _create_zero_outputs. intros Hz Hf.
  apply map_structure2_pure in Hz. subst zero_outputs.
  apply lookup_zip_with_Some in Hf. destruct Hf as (s & d & -> & Hs & Hd).
  eauto.
Qed.

Section RunTrace.
Variables (impute_finished : bool) (m : option Z) (zero_outputs : list (list V)).

Local Abbreviation vars0 := (initial_vars decoder attention_size m).
Local Abbreviation after := (vars_after decoder impute_finished m zero_outputs).

Local Abbreviation H0 := (initial_time decoder attention_size m).
Local Abbreviation Hl0 := (initial_lengths decoder attention_size m).

(** The slots of an output buffer hold what the passes emitted. *)
Lemma outputs_trace (k : nat) (v : LV) (f : nat) (ta : TensorArray (list V)) :
  Z.of_nat k < 2 ^ 31 -> after k vars0 = Some v -> outputs_ta v !! f = Some ta ->
  exists st, ta = Some <$> st /\ length st = k /\
    forall t v_t, (t < k)%nat -> after t vars0 = Some v_t ->
      emit_of decoder impute_finished zero_outputs v_t !! f = st !! t.
Proof.
  intros Hk Hv Hta.
  apply (buffer_trace decoder impute_finished m zero_outputs vars0 H0 Hl0
           (fun v => outputs_ta v !! f)
           (fun v => emit_of decoder impute_finished zero_outputs v !! f))
    with (v := v); try assumption.
  - intros v1 v' ta' Hb Hta'. apply body_writes in Hb. destruct Hb as (Hw & _).
    destruct (Forall3_lookup_r _ _ _ _ _ _ Hw Hta') as (ta0 & e & ? & ? & ?).
    eauto.
  - apply initial_outputs_ta.
Qed.

(** A flag that is set was first set after some number of passes. *)
Lemma first_finished (k : nat) (vars_k : LV) (i : nat) :
  Z.of_nat k < 2 ^ 31 -> after k vars0 = Some vars_k ->
  finished vars_k !! i = Some true ->
  exists t vars_t, (t <= k)%nat /\ after t vars0 = Some vars_t /\
    finished vars_t !! i = Some true /\
    forall t' vars_t', (t' < t)%nat -> after t' vars0 = Some vars_t' ->
      finished vars_t' !! i = Some false.
Proof.
  revert vars_k. induction k as [|k IH]; intros vars_k Hk Hv Hf.
  - exists 0%nat, vars_k. repeat split; try assumption; [lia|]. intros; lia.
  - pose proof Hv as Hv'. apply vars_after_S in Hv'.
    destruct Hv' as (vk & Hvk & _ & _).
    destruct (finished_backward decoder impute_finished m zero_outputs vars0
                H0 Hl0 (S k) k vars_k vk i true Hk Hv Hf ltac:(lia) Hvk)
      as (bt & Hbt & _).
    destruct bt.
    + destruct (IH vk ltac:(lia) Hvk Hbt) as (t & vt & Ht & Hvt & Hft & Hearlier).
      exists t, vt. repeat split; try assumption. lia.
    + exists (S k), vars_k. repeat split; try assumption; [lia|].
      intros t' vt' Ht' Hvt'.
      destruct (finished_backward decoder impute_finished m zero_outputs vars0
                  H0 Hl0 k t' vk vt' i false ltac:(lia) Hvk Hbt ltac:(lia) Hvt')
        as (b' & Hb' & Himp).
      destruct b'; [specialize (Himp eq_refl); discriminate | exact Hb'].
Qed.

(** From the pass after which an element's flag is first set, its flag
    stays set, and its sequence length is the number of that pass. *)
Lemma finished_from_length (k : nat) (vars_k : LV) (i : nat) (l : Z) :
  Z.of_nat k < 2 ^ 31 -> after k vars0 = Some vars_k ->
  finished vars_k !! i = Some true ->
  sequence_lengths vars_k !! i = Some l ->
  0 <= l <= Z.of_nat k /\
  (forall t vars_t, (Z.to_nat l <= t <= k)%nat -> after t vars0 = Some vars_t ->
     finished vars_t !! i = Some true) /\
  (forall t vars_t, (t < Z.to_nat l)%nat -> after t vars0 = Some vars_t ->
     finished vars_t !! i = Some false).
Proof.
  intros Hk Hv Hf Hl.
  destruct (first_finished k vars_k i Hk Hv Hf) as (t0 & v0 & Ht0 & Hv0 & Hf0 & Hearlier).
  pose proof (finished_length_first decoder impute_finished m zero_outputs vars0
                H0 Hl0 k t0 vars_k v0 i true Hk Hv Hf Ht0 Hv0 Hf0 Hearlier) as Hlen.
  rewrite Hl in Hlen. inversion Hlen; subst l. rewrite Nat2Z.id.
  split; [lia|]. split; [|exact Hearlier].
  intros t vt Ht Hvt.
  destruct (finished_backward decoder impute_finished m zero_outputs vars0
              H0 Hl0 k t vars_k vt i true Hk Hv Hf ltac:(lia) Hvt)
    as (bt & Hbt & _).
  destruct (finished_backward decoder impute_finished m zero_outputs vars0
              H0 Hl0 t t0 vt v0 i bt ltac:(lia) Hvt Hbt ltac:(lia) Hv0)
    as (b0 & Hb0 & Himp).
  rewrite Hf0 in Hb0. inversion Hb0; subst b0.
  rewrite Hbt, (Himp eq_refl). reflexivity.
Qed.

(** The slots of the copy gate buffer: one for each pass made. *)
Lemma p_gens_trace (k : nat) (v : LV) :
  Z.of_nat k < 2 ^ 31 -> after k vars0 = Some v ->
  exists st, p_gens v = Some <$> st /\ length st = k.
Proof.
  intros Hk Hv.
  destruct (buffer_trace decoder impute_finished m zero_outputs vars0 H0 Hl0
              (fun v => Some (p_gens v))
              (fun v => Some (next_p_gens_of decoder v))) with (v := v)
              (k := k) (ta := p_gens v) as (st & Hst & Hlen & _);
    try assumption; try reflexivity.
  - intros v1 v' ta' Hb Hta'. inversion Hta'; subst ta'.
    apply body_writes in Hb. destruct Hb as (_ & _ & Hw). eauto.
  - intros ta Hta. inversion Hta.
    apply (initial_p_gens decoder attention_size m).
  - eauto.
Qed.

(** When the flags are set for every element, each one is. *)
Lemma reduce_all_lookup (a : list bool) (i : nat) (b : bool) :
  reduce_all a = true -> a !! i = Some b -> b = true.
Proof.
  unfold reduce_all. intros Hall Hi. rewrite forallb_forall in Hall.
  apply Hall. apply list_elem_of_In. apply list_elem_of_lookup. eauto.
Qed.

Lemma reduce_all_false (a : list bool) :
  reduce_all a = false -> exists i, a !! i = Some false.
Proof.
  unfold reduce_all. induction a as [|[|] a IH]; simpl; intros H.
  - discriminate.
  - destruct (IH H) as (i & Hi). exists (S i). exact Hi.
  - exists 0%nat. reflexivity.
Qed.

(** The [finished] vector keeps its length when the decoder's signals
    have the length of the initial ones. *)
Lemma finished_length (k : nat) (vars_k : LV) :
  (forall time inputs state,
     length (step decoder time inputs state).2 = length (initialize decoder).1.1) ->
  after k vars0 = Some vars_k ->
  length (finished vars_k) = length (initialize decoder).1.1.
Proof.
  intros Hstep. revert vars_k. induction k as [|k IH]; intros vars_k Hv.
  - simpl in Hv. inversion Hv. unfold initial_vars.
    destruct (initialize decoder) as [[fi ii] si]. simpl.
    destruct m; [unfold logical_or_scalar; rewrite length_map|]; reflexivity.
  - apply vars_after_S in Hv. destruct Hv as (vk & Hvk & _ & Hb).
    apply body_Ok in Hb. destruct Hb as (_ & Hfin & _).
    rewrite Hfin. unfold next_finished_of, decoder_finished_of.
    assert (Hl : length (logical_or (step decoder (time vk) (inputs vk) (state vk)).2
                           (finished vk)) = length (initialize decoder).1.1).
    { unfold logical_or. rewrite length_zip_with, Hstep, (IH vk Hvk). lia. }
    destruct m; [unfold logical_or_scalar; rewrite length_map|]; exact Hl.
Qed.

End RunTrace.

Lemma while_loop_passes (impute_finished : bool) (m : option Z)
      (zero_outputs : list (list V)) (fuel n0 n : nat) (vars res : LV) :
  while_loop decoder impute_finished m zero_outputs fuel n0 vars = Exited n res ->
  (n <= n0 + fuel)%nat.
Proof.
  revert n0 vars. induction fuel as [|fuel IH]; intros n0 vars; simpl.
  - destruct (condition vars); [discriminate|]. intros E. inversion E. lia.
  - destruct (condition vars); [|intros E; inversion E; lia].
    destruct (body decoder impute_finished m zero_outputs vars) as [vars'|e];
      [|discriminate].
    intros E. apply IH in E. lia.
Qed.

(** What [dynamic_decode] returns comes from a run of the loop that was
    left after at most [fuel] passes. *)
Lemma dynamic_decode_Ok (fuel : nat) (output_time_major impute_finished : bool)
      (maximum_iterations : max_iter_arg) (r : @decoded V Attn PGen) :
  dynamic_decode zeros fuel decoder attention_size output_time_major
    impute_finished maximum_iterations = Some (Ok r) ->
  exists (n : nat) (res : LV),
    (n <= fuel)%nat /\
    run_loop zeros fuel decoder attention_size impute_finished maximum_iterations
      = Ok (Exited n res) /\
    after_loop decoder output_time_major res = Ok r.
Proof.
  unfold dynamic_decode. intros H.
  destruct (run_loop zeros fuel decoder attention_size impute_finished
              maximum_iterations) as [[n res|n e|]|e] eqn:Hrun; try discriminate.
  exists n, res. split; [|split; [reflexivity|congruence]].
  unfold run_loop in Hrun.
  apply bind_Ok in Hrun. destruct Hrun as (m & Hm & Hrun).
  apply bind_Ok in Hrun. destruct Hrun as (zero & Hzero & Hrun).
  inversion Hrun as [Hloop]. apply while_loop_passes in Hloop. lia.
Qed.

Lemma ta_stack_Ok {T} (ta : TensorArray T) (tm : list T) :
  ta_stack ta = Ok tm -> ta = Some <$> tm.
Proof.
  revert tm. induction ta as [|[x|] ta IHta]; intros tm Htm;
    simpl in Htm; try discriminate.
  - inversion Htm. reflexivity.
  - apply bind_Ok in Htm. destruct Htm as (vs & Hvs & Htm).
    inversion Htm; subst tm. rewrite fmap_cons. f_equal. apply IHta. exact Hvs.
Qed.

Lemma map_structure_stack_Ok {T} (tas : list (TensorArray T))
      (stacked : list (list T)) :
  map_structure ta_stack tas = Ok stacked -> tas = map (map Some) stacked.
Proof.
  revert stacked. induction tas as [|ta tas IH]; intros stacked Hst; simpl in Hst.
  - inversion Hst. reflexivity.
  - apply bind_Ok in Hst. destruct Hst as (tm & Htm & Hst).
    apply bind_Ok in Hst. destruct Hst as (tms & Htms & Hst).
    inversion Hst; subst stacked. simpl. f_equal; [|apply IH; exact Htms].
    apply ta_stack_Ok. exact Htm.
Qed.

(** Without a [finalize], the outputs are the stacked buffers, transposed
    unless time-major output was asked for, and the rest of the result is
    read off the loop variables. *)
Lemma after_loop_no_finalize (output_time_major : bool) (res : LV)
      (r : @decoded V Attn PGen) :
  finalize decoder = None ->
  after_loop decoder output_time_major res = Ok r ->
  exists stacked : list (list (list V)),
    outputs_ta res = map (map Some) stacked /\
    final_outputs r =
      map Dense (if output_time_major then stacked
                 else map (_transpose_batch_time (batch_size decoder)) stacked) /\
    final_state r = state res /\
    final_sequence_lengths r = sequence_lengths res /\
    final_attention r = map Buffer (attention res) /\
    final_p_gens r = Buffer (p_gens res).
Proof.
  intros Hfin H. unfold after_loop in H.
  apply bind_Ok in H. destruct H as (stacked & Hst & H).
  rewrite Hfin in H. simpl in H. inversion H; subst r; clear H. simpl.
  exists stacked. split; [apply map_structure_stack_Ok; exact Hst|].
  split; [destruct output_time_major; reflexivity|]. repeat split.
Qed.

End Runs.




(** X2. The time dimension of the result is the longest sequence length.
    For a decoder without [finalize] whose [finished] signals have the
    length of the initial ones: every time-major output has as many time
    steps as the loop made passes, the copy gate buffer has as many slots,
    every sequence length lies between 0 and that number, and unless no
    pass was made one of them is that number. *)
Theorem time_steps_equal_longest_sequence {V Inp Attn PGen Shape DType : Type}
    (zeros : Shape -> DType -> V)
    (decoder : @Decoder V Inp Attn PGen Shape DType)
    (attention_size : Shape) (impute_finished : bool)
    (maximum_iterations : max_iter_arg) (fuel : nat)
    (r : @decoded V Attn PGen) :
  (forall time inputs state,
     length (step decoder time inputs state).2 = length (initialize decoder).1.1) ->
  finalize decoder = None ->
  Z.of_nat fuel < 2 ^ 31 ->
  dynamic_decode zeros fuel decoder attention_size true impute_finished
    maximum_iterations = Some (Ok r) ->
  exists n : nat,
    (n <= fuel)%nat /\
    Forall (fun o => exists tm, o = Dense tm /\ length tm = n) (final_outputs r) /\
    (exists pg, final_p_gens r = Buffer pg /\ length pg = n) /\
    length (final_sequence_lengths r) = length (initialize decoder).1.1 /\
    Forall (fun l => 0 <= l <= Z.of_nat n) (final_sequence_lengths r) /\
    ((0 < n)%nat -> Z.of_nat n ∈ final_sequence_lengths r).
Proof.
  intros Hstep Hfin Hfuel Hdec.
  apply dynamic_decode_Ok in Hdec. destruct Hdec as (n & res & Hn & Hrun & Hafter).
  apply run_loop_Exited in Hrun.
  destruct Hrun as (m & zero & Hm & Hzero & Hres & Hall).
  destruct (after_loop_no_finalize decoder true res r Hfin Hafter)
    as (stacked & Hout & Hfo & _ & Hsl & _ & Hpg).
  pose proof (initial_time decoder attention_size m) as H0.
  pose proof (initial_lengths decoder attention_size m) as Hl0.
  destruct (vars_after_invariant decoder impute_finished m zero _ H0 Hl0 n res
              Hres ltac:(lia)) as (Htime & Hlen).
  pose proof (finished_length decoder attention_size impute_finished m zero n res
                Hstep Hres) as Hflen.
  assert (Hflag : forall i l, sequence_lengths res !! i = Some l ->
                    finished res !! i = Some true).
  { intros i l Hi. apply lookup_lt_Some in Hi. rewrite Hlen in Hi.
    apply lookup_lt_is_Some_2 in Hi. destruct Hi as (b & Hb).
    rewrite Hb, (reduce_all_lookup _ _ _ Hall Hb). reflexivity. }
  exists n. split; [exact Hn|]. rewrite Hfo, Hpg, Hsl. split; [|split; [|split; [|split]]].
  - apply Forall_fmap, Forall_lookup. intros f st Hf. simpl.
    exists st. split; [reflexivity|].
    assert (Hta : outputs_ta res !! f = Some (Some <$> st)).
    { rewrite Hout, list_lookup_fmap, Hf. reflexivity. }
    destruct (outputs_trace decoder attention_size impute_finished m zero n res f _
                ltac:(lia) Hres Hta) as (st' & Heq & Hlen' & _).
    apply (f_equal length) in Heq. rewrite !length_fmap in Heq. lia.
  - destruct (p_gens_trace decoder attention_size impute_finished m zero n res
                ltac:(lia) Hres) as (st & Hst & Hl).
    exists (p_gens res). split; [reflexivity|].
    rewrite Hst, length_fmap. exact Hl.
  - lia.
  - apply Forall_lookup. intros i l Hi.
    destruct (finished_from_length decoder attention_size impute_finished m zero
                n res i l ltac:(lia) Hres (Hflag i l Hi) Hi) as (Hr & _).
    exact Hr.
  - intros Hpos. destruct n as [|k]; [lia|].
    pose proof Hres as Hres'. apply vars_after_S in Hres'.
    destruct Hres' as (vk & Hvk & Hc & Hb).
    unfold condition in Hc. apply negb_true_iff in Hc.
    apply reduce_all_false in Hc. destruct Hc as (i & Hi).
    pose proof (finished_length decoder attention_size impute_finished m zero k vk
                  Hstep Hvk) as Hklen.
    assert (Hfi : finished res !! i = Some true).
    { apply lookup_lt_Some in Hi. rewrite Hklen, <- Hflen in Hi.
      apply lookup_lt_is_Some_2 in Hi. destruct Hi as (b & Hb').
      rewrite Hb', (reduce_all_lookup _ _ _ Hall Hb'). reflexivity. }
    apply list_elem_of_lookup. exists i.
    apply (finished_length_first decoder impute_finished m zero _ H0 Hl0
             (S k) (S k) res res i true); try assumption; try lia.
    intros t' vt' Ht' Hvt'.
    destruct (finished_backward decoder impute_finished m zero _ H0 Hl0
                k t' vk vt' i false ltac:(lia) Hvk Hi ltac:(lia) Hvt')
      as (b' & Hb' & Himp).
    destruct b'; [specialize (Himp eq_refl); discriminate | exact Hb'].
Qed.

(** X3. With [impute_finished], the outputs are zero past the sequence length.
    In the time-major result of a decoder without [finalize], the entry of
    batch element [i] at time step [t] of any output is the zero of that
    output's shape and type once [t] has reached the element's sequence
    length, and the decoder's own output at the earlier steps. *)
Theorem imputed_outputs_zero_past_length {V Inp Attn PGen Shape DType : Type}
    (zeros : Shape -> DType -> V)
    (decoder : @Decoder V Inp Attn PGen Shape DType)
    (attention_size : Shape) (maximum_iterations : max_iter_arg) (fuel : nat)
    (r : @decoded V Attn PGen)
    (f t i : nat) (tm : list (list V)) (e : list V) (x : V) (l : Z) :
  finalize decoder = None ->
  Z.of_nat fuel < 2 ^ 31 ->
  dynamic_decode zeros fuel decoder attention_size true true maximum_iterations
    = Some (Ok r) ->
  final_outputs r !! f = Some (Dense tm) -> tm !! t = Some e -> e !! i = Some x ->
  final_sequence_lengths r !! i = Some l ->
  (Z.of_nat t < l ->
   exists (m : option Z) (zero_outputs : list (list V))
          (v_t : @loop_vars V Inp Attn PGen),
     convert_maximum_iterations maximum_iterations = Ok m /\
     _create_zero_outputs zeros (output_size decoder) (output_dtype decoder)
       (batch_size decoder) = Ok zero_outputs /\
     vars_after decoder true m zero_outputs t
       (initial_vars decoder attention_size m) = Some v_t /\
     (next_outputs_of decoder v_t !! f) ≫= (fun out => out !! i) = Some x) /\
  (l <= Z.of_nat t ->
   exists (s : Shape) (d : DType),
     output_size decoder !! f = Some s /\ output_dtype decoder !! f = Some d /\
     x = zeros s d).
Proof.
  intros Hfin Hfuel Hdec Hf Ht Hi Hl.
  apply dynamic_decode_Ok in Hdec. destruct Hdec as (n & res & Hn & Hrun & Hafter).
  apply run_loop_Exited in Hrun.
  destruct Hrun as (m & zero & Hm & Hzero & Hres & Hall).
  destruct (after_loop_no_finalize decoder true res r Hfin Hafter)
    as (stacked & Hout & Hfo & _ & Hsl & _ & _).
  pose proof (initial_time decoder attention_size m) as H0.
  pose proof (initial_lengths decoder attention_size m) as Hl0.
  destruct (vars_after_invariant decoder true m zero _ H0 Hl0 n res
              Hres ltac:(lia)) as (Htime & Hlen).
  rewrite Hsl in Hl. rewrite Hfo, list_lookup_fmap in Hf.
  destruct (stacked !! f) as [st|] eqn:Hst; [|discriminate].
  simpl in Hf. inversion Hf; subst st; clear Hf.
  assert (Hflag : finished res !! i = Some true).
  { pose proof Hl as Hl'. apply lookup_lt_Some in Hl'. rewrite Hlen in Hl'.
    apply lookup_lt_is_Some_2 in Hl'. destruct Hl' as (b & Hb).
    rewrite Hb, (reduce_all_lookup _ _ _ Hall Hb). reflexivity. }
  destruct (finished_from_length decoder attention_size true m zero
              n res i l ltac:(lia) Hres Hflag Hl) as (Hr & Hlate & Hearly).
  assert (Hta : outputs_ta res !! f = Some (Some <$> tm)).
  { rewrite Hout, list_lookup_fmap, Hst. reflexivity. }
  destruct (outputs_trace decoder attention_size true m zero n res f _
              ltac:(lia) Hres Hta) as (st' & Heq & Hlen' & Htrace).
  apply (inj (fmap Some)) in Heq. subst st'.
  assert (Htn : (t < n)%nat) by (apply lookup_lt_Some in Ht; lia).
  destruct (vars_after_prefix decoder true m zero n t _ res Hres ltac:(lia))
    as (v_t & Hvt).
  pose proof (Htrace t v_t Htn Hvt) as Hemit. rewrite Ht in Hemit.
  unfold emit_of in Hemit.
  apply lookup_zip_with_Some in Hemit.
  destruct Hemit as (out & zero_f & -> & Hout_f & Hzero_f).
  rewrite where_lookup in Hi.
  destruct (finished v_t !! i) as [b|] eqn:Hb; [|discriminate].
  destruct (zero_f !! i) as [z|] eqn:Hz; [|discriminate].
  destruct (out !! i) as [o|] eqn:Ho; [|discriminate].
  split.
  - intros Hlt. exists m, zero, v_t. repeat split; try assumption.
    rewrite (Hearly t v_t ltac:(lia) Hvt) in Hb. inversion Hb; subst b.
    rewrite Hout_f. simpl. rewrite Ho. exact Hi.
  - intros Hge.
    rewrite (Hlate t v_t ltac:(lia) Hvt) in Hb. inversion Hb; subst b.
    destruct (create_zero_outputs_lookup zeros decoder zero f zero_f Hzero Hzero_f)
      as (s & d & Hs & Hd & ->).
    exists s, d. repeat split; try assumption.
    apply lookup_replicate in Hz. destruct Hz as (-> & _). congruence.
Qed.


Lemma toy_finished_signals (time : Z) (inputs : list Z)
      (state : list (@state_field Z)) :
  length (step Toy.decoder time inputs state).2 =
  length (initialize Toy.decoder).1.1.
Proof.
  cbn. unfold BasicDecoder_step. cbn.
  destruct (Toy.cell inputs state) as [[[o a] p] s]. reflexivity.
Qed.

Lemma time_steps_equal_longest_sequence_witness :
  Z.of_nat 5 < 2 ^ 31 /\
  dynamic_decode Toy.zeros 5 Toy.decoder tt true true (MaxInt 5) =
    Some (Ok Structure.imputed) /\
  exists n : nat, (n <= 5)%nat /\ ((0 < n)%nat -> Z.of_nat n ∈ [1; 3]).
Proof.
  assert (Heq : dynamic_decode Toy.zeros 5 Toy.decoder tt true true (MaxInt 5) =
                Some (Ok Structure.imputed)) by reflexivity.
  split; [reflexivity|]. split; [exact Heq|].
  destruct (time_steps_equal_longest_sequence Toy.zeros Toy.decoder tt true
              (MaxInt 5) 5 Structure.imputed toy_finished_signals eq_refl eq_refl Heq)
    as (n & Hn & _ & _ & _ & _ & Hmax).
  exists n. split; [exact Hn | exact Hmax].
Defined.

Lemma imputed_outputs_zero_past_length_witness :
  Z.of_nat 5 < 2 ^ 31 /\
  dynamic_decode Toy.zeros 5 Toy.decoder tt true true (MaxInt 5) =
    Some (Ok Structure.imputed) /\
  (1 <= Z.of_nat 2 ->
   exists s d : unit, output_size Toy.decoder !! 0%nat = Some s /\
                      output_dtype Toy.decoder !! 0%nat = Some d /\
                      0 = Toy.zeros s d).
Proof.
  assert (Heq : dynamic_decode Toy.zeros 5 Toy.decoder tt true true (MaxInt 5) =
                Some (Ok Structure.imputed)) by reflexivity.
  split; [reflexivity|]. split; [exact Heq|].
  exact (proj2 (imputed_outputs_zero_past_length Toy.zeros Toy.decoder tt
                  (MaxInt 5) 5 Structure.imputed 0 2 0 [[11; 21]; [0; 23]; [0; 26]] [0; 26] 0 1
                  eq_refl eq_refl Heq eq_refl eq_refl eq_refl eq_refl)).
Defined.

(** ** Layout *)

Lemma omap_ext_eq {A B} (f g : A -> option B) (l : list A) :
  (forall x, f x = g x) -> omap f l = omap g l.
Proof.
  intros H. induction l as [|x l IH]; [reflexivity|].
  change (omap f (x :: l)) with
    (match f x with Some y => y :: omap f l | None => omap f l end).
  change (omap g (x :: l)) with
    (match g x with Some y => y :: omap g l | None => omap g l end).
  rewrite H, IH. reflexivity.
Qed.

Lemma omap_map {A B C} (f : B -> option C) (g : A -> B) (l : list A) :
  omap f (map g l) = omap (fun x => f (g x)) l.
Proof.
  induction l as [|x l IH]; [reflexivity|].
  change (omap f (map g (x :: l))) with
    (match f (g x) with Some y => y :: omap f (map g l) | None => omap f (map g l) end).
  rewrite IH. reflexivity.
Qed.

Lemma transpose_lookup {A} (n : nat) (m : list (list A)) (i : nat) :
  (i < n)%nat -> transpose n m !! i = Some (omap (fun r => r !! i) m).
Proof.
  revert m i. induction n as [|n IH]; intros m i Hi; [lia|].
  destruct i as [|i]; simpl.
  - f_equal. apply omap_ext_eq. intros [|a r]; reflexivity.
  - rewrite IH by lia. f_equal. rewrite omap_map.
    apply omap_ext_eq. intros [|a r]; reflexivity.
Qed.

Lemma omap_lookup_full {A} (m : list (list A)) (i t : nat) :
  Forall (fun r => (i < length r)%nat) m ->
  omap (fun r => r !! i) m !! t = (m !! t) ≫= (fun r => r !! i).
Proof.
  intros H. revert t. induction H as [|r m Hr _ IH]; intros t; [reflexivity|].
  change (omap (fun r => r !! i) (r :: m)) with
    (match r !! i with
     | Some y => y :: omap (fun r => r !! i) m
     | None => omap (fun r => r !! i) m
     end).
  apply lookup_lt_is_Some_2 in Hr. destruct Hr as (x & Hx). rewrite Hx.
  destruct t as [|t]; simpl; [rewrite Hx; reflexivity | apply IH].
Qed.

Lemma omap_lookup_length {A} (m : list (list A)) (i : nat) :
  Forall (fun r => (i < length r)%nat) m ->
  length (omap (fun r => r !! i) m) = length m.
Proof.
  induction 1 as [|r m Hr _ IH]; [reflexivity|].
  change (omap (fun r => r !! i) (r :: m)) with
    (match r !! i with
     | Some y => y :: omap (fun r => r !! i) m
     | None => omap (fun r => r !! i) m
     end).
  apply lookup_lt_is_Some_2 in Hr. destruct Hr as (x & ->).
  simpl. f_equal. exact IH.
Qed.



(** ** Decoders that keep the structures *)

Lemma vars_after_snoc {V Inp Attn PGen Shape DType : Type}
      (decoder : @Decoder V Inp Attn PGen Shape DType) (impute_finished : bool)
      (m : option Z) (zero_outputs : list (list V)) (k : nat)
      (v0 v v' : @loop_vars V Inp Attn PGen) :
  vars_after decoder impute_finished m zero_outputs k v0 = Some v ->
  condition v = true ->
  body decoder impute_finished m zero_outputs v = Ok v' ->
  vars_after decoder impute_finished m zero_outputs (S k) v0 = Some v'.
Proof.
  revert v0. induction k as [|k IH]; intros v0 Hv Hc Hb.
  - simpl in Hv. inversion Hv; subst v0. simpl. rewrite Hc, Hb. reflexivity.
  - change (vars_after decoder impute_finished m zero_outputs (S k) v0) with
      (if condition v0 then
         match body decoder impute_finished m zero_outputs v0 with
         | Ok vars' => vars_after decoder impute_finished m zero_outputs k vars'
         | Err _ => None
         end
       else None) in Hv.
    change (vars_after decoder impute_finished m zero_outputs (S (S k)) v0) with
      (if condition v0 then
         match body decoder impute_finished m zero_outputs v0 with
         | Ok vars' => vars_after decoder impute_finished m zero_outputs (S k) vars'
         | Err _ => None
         end
       else None).
    destruct (condition v0); [|discriminate].
    destruct (body decoder impute_finished m zero_outputs v0) as [v1|e];
      [|discriminate].
    apply IH; assumption.
Qed.

Lemma map_structure2_total {A B C} (f : A -> B -> result C)
      (a : list A) (b : list B) :
  Forall2 (fun x y => exists z, f x y = Ok z) a b ->
  exists c, map_structure2 f a b = Ok c /\ length c = length a.
Proof.
  induction 1 as [|x y a b (z & Hz) _ (c & Hc & Hl)]; simpl.
  - exists []. split; reflexivity.
  - rewrite Hz. simpl. rewrite Hc. simpl. exists (z :: c).
    split; [reflexivity | simpl; lia].
Qed.

Lemma ta_write_fresh {T} (ta : TensorArray T) (index : Z) (value : T) :
  0 <= index -> length ta = Z.to_nat index ->
  exists ta', ta_write ta index value = Ok ta'.
Proof.
  intros H0 Hl. unfold ta_write.
  replace (index <? 0) with false by (symmetry; apply Z.ltb_ge; lia).
  rewrite (lookup_ge_None_2 ta (Z.to_nat index)) by lia. eauto.
Qed.

Lemma copy_state_same_kind {V} (fin : list bool) (new cur : @state_field V) :
  Structure.kind_of new = Structure.kind_of cur ->
  exists z,
    _maybe_copy_state fin new cur = Ok z /\
    Structure.kind_of z = Structure.kind_of cur.
Proof.
  destruct cur as [[c|c]|c], new as [[n|n]|n]; simpl; intros H;
    try discriminate; eauto.
Qed.

Lemma body_state {V Inp Attn PGen Shape DType : Type}
      (decoder : @Decoder V Inp Attn PGen Shape DType) (impute_finished : bool)
      (m : option Z) (zero_outputs : list (list V))
      (v v' : @loop_vars V Inp Attn PGen) :
  body decoder impute_finished m zero_outputs v = Ok v' ->
  let decoder_state := (step decoder (time v) (inputs v) (state v)).1.1.2 in
  if impute_finished
  then Forall3 (fun new cur held => _maybe_copy_state (finished v) new cur = Ok held)
         decoder_state (state v) (state v')
  else state v' = decoder_state.
Proof.
  unfold Decoder.body.
  destruct (step decoder _ _ _) as [[[[[no na] np] ds] ni] df]; simpl.
  intros Hb.
  apply bind_Ok in Hb. destruct Hb as (_ & _ & Hb).
  apply bind_Ok in Hb. destruct Hb as (_ & _ & Hb).
  apply bind_Ok in Hb. destruct Hb as (_ & _ & Hb).
  apply bind_Ok in Hb. destruct Hb as (emit & _ & Hb).
  apply bind_Ok in Hb. destruct Hb as (next_state & Hns & Hb).
  apply bind_Ok in Hb. destruct Hb as (ota & _ & Hb).
  apply bind_Ok in Hb. destruct Hb as (att & _ & Hb).
  apply bind_Ok in Hb. destruct Hb as (pg & _ & Hb).
  inversion Hb; subst v'; clear Hb. simpl.
  destruct impute_finished.
  - apply map_structure2_Forall3. exact Hns.
  - inversion Hns. reflexivity.
Qed.

Lemma copy_state_kinds {V} (fin : list bool)
      (ds st st' : list (@state_field V)) :
  Forall3 (fun new cur held => _maybe_copy_state fin new cur = Ok held) ds st st' ->
  map Structure.kind_of ds = map Structure.kind_of st ->
  map Structure.kind_of st' = map Structure.kind_of st.
Proof.
  induction 1 as [|new cur held ds st st' Hc _ IHf]; intros Hds; [reflexivity|].
  simpl in Hds. inversion Hds as [[Hk1 Hk2]].
  destruct (copy_state_same_kind fin new cur Hk1) as (z & Hz & Hkz).
  rewrite Hz in Hc. inversion Hc; subst z.
  simpl. f_equal; [exact Hkz | apply IHf; exact Hk2].
Qed.

Section Structured.
Context {V Inp Attn PGen Shape DType : Type}.
Variables (zeros : Shape -> DType -> V)
          (decoder : @Decoder V Inp Attn PGen Shape DType)
          (attention_size : Shape) (impute_finished : bool)
          (m : option Z) (zero_outputs : list (list V)).
Hypothesis Hkeep : Structure.keeps_structure decoder.
Hypothesis Hzero :
  _create_zero_outputs zeros (output_size decoder) (output_dtype decoder)
    (batch_size decoder) = Ok zero_outputs.

Local Abbreviation LV := (@loop_vars V Inp Attn PGen).
Local Abbreviation vars0 := (initial_vars decoder attention_size m).
Local Abbreviation after := (vars_after decoder impute_finished m zero_outputs).
Local Abbreviation body := (body decoder impute_finished m zero_outputs).

Lemma reach_structure (k : nat) (v : LV) :
  after k vars0 = Some v ->
  length (outputs_ta v) = length (output_size decoder) /\
  length (attention v) = 1%nat.
Proof.
  revert v. induction k as [|k IH]; intros v Hv.
  - simpl in Hv. inversion Hv. unfold initial_vars.
    destruct (initialize decoder) as [[fi ii] si]. simpl.
    rewrite length_map. split; reflexivity.
  - apply vars_after_S in Hv. destruct Hv as (vk & Hvk & _ & Hb).
    apply body_writes in Hb. destruct Hb as (Ho & Ha & _).
    destruct (IH vk Hvk) as (IHo & IHa).
    apply Forall3_length_lr in Ho. apply Forall3_length_lr in Ha.
    split; congruence.
Qed.

Lemma attention_trace (k : nat) (v : LV) (f : nat) (ta : TensorArray Attn) :
  Z.of_nat k < 2 ^ 31 -> after k vars0 = Some v -> attention v !! f = Some ta ->
  exists st, ta = Some <$> st /\ length st = k.
Proof.
  intros Hk Hv Hta.
  destruct (buffer_trace decoder impute_finished m zero_outputs vars0
              (initial_time decoder attention_size m)
              (initial_lengths decoder attention_size m)
              (fun v => attention v !! f)
              (fun v => next_attention_of decoder v !! f)) with (v := v)
              (k := k) (ta := ta) as (st & Hst & Hlen & _);
    try assumption.
  - intros v1 v' ta' Hb Hta'. apply body_writes in Hb. destruct Hb as (_ & Hw & _).
    destruct (Forall3_lookup_r _ _ _ _ _ _ Hw Hta') as (ta0 & e & ? & ? & ?).
    eauto.
  - apply initial_attention.
  - eauto.
Qed.

Lemma zero_outputs_length :
  length zero_outputs = length (output_size decoder).
Proof.
  unfold _create_zero_outputs in Hzero. apply map_structure2_pure in Hzero.
  rewrite Hzero, length_zip_with. destruct Hkeep as (Hl & _). lia.
Qed.

Lemma writes_total {T} (tas : list (TensorArray T)) (vals : list T) (k : nat) :
  length tas = length vals ->
  Forall (fun ta => length ta = k) tas ->
  exists tas', map_structure2 (fun ta out => ta_write ta (Z.of_nat k) out) tas vals
               = Ok tas'.
Proof.
  intros Hl Hf.
  destruct (map_structure2_total
              (fun ta out => ta_write ta (Z.of_nat k) out) tas vals) as (c & Hc & _).
  - revert vals Hl. induction Hf as [|ta tas Hta _ IH]; intros [|x vals] Hl;
      try discriminate; constructor.
    + apply ta_write_fresh; [lia | rewrite Nat2Z.id; exact Hta].
    + apply IH. simpl in Hl. lia.
  - eauto.
Qed.

(** The state keeps the kinds of its entries. *)
Lemma state_kinds (k : nat) (v : LV) :
  after k vars0 = Some v ->
  map Structure.kind_of (state v) =
  map Structure.kind_of (initialize decoder).2.
Proof.
  revert v. induction k as [|k IH]; intros v Hv.
  - simpl in Hv. inversion Hv. unfold initial_vars.
    destruct (initialize decoder) as [[fi ii] si]. reflexivity.
  - apply vars_after_S in Hv. destruct Hv as (vk & Hvk & _ & Hb).
    specialize (IH vk Hvk).
    destruct Hkeep as (_ & Hstep).
    destruct (Hstep (time vk) (inputs vk) (state vk) IH) as (_ & _ & Hds).
    apply body_state in Hb. simpl in Hb.
    destruct impute_finished.
    + rewrite <- IH. eapply copy_state_kinds; eassumption.
    + rewrite Hb. congruence.
Qed.

(** A pass through the body does not raise. *)
Lemma body_succeeds (k : nat) (v : LV) :
  Z.of_nat k + 1 < 2 ^ 31 -> after k vars0 = Some v -> exists v', body v = Ok v'.
Proof.
  intros Hk Hv.
  destruct (vars_after_invariant decoder impute_finished m zero_outputs vars0
              (initial_time decoder attention_size m)
              (initial_lengths decoder attention_size m) k v Hv ltac:(lia))
    as (Htime & _).
  destruct (reach_structure k v Hv) as (Hlo & Hla).
  destruct Hkeep as (_ & Hstep).
  specialize (Hstep (time v) (inputs v) (state v) (state_kinds k v Hv)).
  simpl in Hstep. destruct Hstep as (Hno & Hna & Hds).
  unfold Decoder.body.
  destruct (step decoder (time v) (inputs v) (state v))
    as [[[[[no na] np] ds] ni] df]. simpl in Hno, Hna, Hds. cbn iota beta.
  assert (Hs1 : assert_same_structure (state v) ds = Ok tt).
  { unfold assert_same_structure. apply (f_equal length) in Hds.
    rewrite !length_map in Hds. rewrite Hds, Nat.eqb_refl. reflexivity. }
  assert (Hs2 : assert_same_structure (outputs_ta v) no = Ok tt).
  { unfold assert_same_structure. rewrite Hlo, Hno, Nat.eqb_refl. reflexivity. }
  assert (Hs3 : assert_same_structure (attention v) na = Ok tt).
  { unfold assert_same_structure. rewrite Hla, Hna, Nat.eqb_refl. reflexivity. }
  rewrite Hs1, Hs2, Hs3. cbn [mbind result_bind].
  assert (Hemit : exists emit,
            (if impute_finished
             then map_structure2
                    (fun out zero => Ok (where_ (finished v) zero out)) no zero_outputs
             else Ok no) = Ok emit /\ length emit = length no).
  { destruct impute_finished; [|eauto].
    apply map_structure2_total. apply Forall2_true; [eauto|].
    rewrite zero_outputs_length. exact Hno. }
  destruct Hemit as (emit & -> & Hle). cbn [mbind result_bind].
  assert (Hstate : exists next_state,
            (if impute_finished
             then map_structure2 (_maybe_copy_state (finished v)) ds (state v)
             else Ok ds) = Ok next_state).
  { destruct impute_finished; [|eauto].
    destruct (map_structure2_total (_maybe_copy_state (finished v)) ds (state v))
      as (c & Hc & _); [|eauto].
    apply list_eq_Forall2 in Hds.
    apply (Forall2_fmap_1 Structure.kind_of Structure.kind_of eq) in Hds.
    eapply Forall2_impl; [exact Hds|]. simpl. intros new cur Hk'.
    destruct (copy_state_same_kind (finished v) new cur Hk') as (z & Hz & _).
    eauto. }
  destruct Hstate as (next_state & ->). cbn [mbind result_bind].
  rewrite Htime.
  destruct (writes_total (outputs_ta v) emit k) as (ota & ->).
  { lia. }
  { apply Forall_lookup. intros f ta Hta.
    destruct (outputs_trace decoder attention_size impute_finished m zero_outputs
                k v f ta ltac:(lia) Hv Hta) as (st & -> & Hl & _).
    rewrite length_fmap. exact Hl. }
  cbn [mbind result_bind].
  destruct (writes_total (attention v) na k) as (att & ->).
  { lia. }
  { apply Forall_lookup. intros f ta Hta.
    destruct (attention_trace k v f ta ltac:(lia) Hv Hta) as (st & -> & Hl).
    rewrite length_fmap. exact Hl. }
  cbn [mbind result_bind].
  destruct (p_gens_trace decoder attention_size impute_finished m zero_outputs
              k v ltac:(lia) Hv) as (st & Hst & Hl).
  destruct (ta_write_fresh (p_gens v) (Z.of_nat k) np) as (pg & ->).
  { lia. }
  { rewrite Hst, length_fmap, Nat2Z.id. exact Hl. }
  cbn [mbind result_bind]. eauto.
Qed.

(** The loop does not raise, and leaves through the variables after the
    passes it made. *)
Lemma while_loop_no_raise (fuel n : nat) (v : LV) :
  after n vars0 = Some v -> Z.of_nat (n + fuel) < 2 ^ 31 ->
  match while_loop decoder impute_finished m zero_outputs fuel n v with
  | Raised _ _ => False
  | Exited n' res => after n' vars0 = Some res
  | OutOfFuel => True
  end.
Proof.
  revert n v. induction fuel as [|fuel IH]; intros n v Hv Hn; simpl.
  - destruct (condition v); [exact I | exact Hv].
  - destruct (condition v) eqn:Hc; [|exact Hv].
    destruct (body_succeeds n v ltac:(lia) Hv) as (v' & Hb).
    fold body. rewrite Hb.
    apply IH; [|lia]. eapply vars_after_snoc; eassumption.
Qed.

(** What follows the loop does not raise for a decoder without
    [finalize]. *)
Lemma after_loop_succeeds (output_time_major : bool) (n : nat) (res : LV) :
  Z.of_nat n < 2 ^ 31 -> after n vars0 = Some res ->
  exists r, after_loop decoder output_time_major res = Ok r.
Proof.
  intros Hn Hres. unfold after_loop.
  assert (Hst : outputs_ta res =
                map (map Some) (map (omap (fun x => x)) (outputs_ta res))).
  { apply written_stacked. apply Forall_lookup. intros f ta Hta.
    destruct (outputs_trace decoder attention_size impute_finished m zero_outputs
                n res f ta Hn Hres Hta) as (st & -> & _). eauto. }
  pose proof (map_structure_stack (map (omap (fun x => x)) (outputs_ta res))) as Hs.
  rewrite <- Hst in Hs. rewrite Hs. cbn [mbind result_bind].
  destruct (match finalize decoder with
            | Some f => _ | None => _ end) as [outs st]. eauto.
Qed.


(** The run of the loop for a decoder that keeps the structures. *)
Lemma run_structured (maximum_iterations : max_iter_arg)
      (output_time_major : bool) (fuel : nat) :
  Z.of_nat fuel < 2 ^ 31 ->
  convert_maximum_iterations maximum_iterations = Ok m ->
  run_loop zeros fuel decoder attention_size impute_finished maximum_iterations =
    Ok (while_loop decoder impute_finished m zero_outputs fuel 0 vars0) /\
  match while_loop decoder impute_finished m zero_outputs fuel 0 vars0 with
  | Raised _ _ => False
  | Exited n res =>
      (n <= fuel)%nat /\ after n vars0 = Some res /\
      exists r, after_loop decoder output_time_major res = Ok r
  | OutOfFuel => True
  end.
Proof.
  intros Hfuel Hm. split.
  { unfold run_loop. rewrite Hm. cbn [mbind result_bind]. rewrite Hzero.
    reflexivity. }
  pose proof (while_loop_no_raise fuel 0 _ eq_refl ltac:(simpl; lia)) as Hloop.
  destruct (while_loop decoder impute_finished m zero_outputs fuel 0 vars0)
    as [n res|n e|] eqn:Hw; try assumption.
  assert (Hn : (n <= fuel)%nat) by (apply while_loop_passes in Hw; lia).
  split; [exact Hn|]. split; [exact Hloop|].
  apply (after_loop_succeeds output_time_major n res); [lia | exact Hloop].
Qed.

End Structured.

Lemma zero_outputs_exist {V Inp Attn PGen Shape DType : Type}
      (zeros : Shape -> DType -> V)
      (decoder : @Decoder V Inp Attn PGen Shape DType) :
  Structure.keeps_structure decoder ->
  exists zero_outputs,
    _create_zero_outputs zeros (output_size decoder) (output_dtype decoder)
      (batch_size decoder) = Ok zero_outputs.
Proof.
  intros Hkeep.
  destruct (map_structure2_total
              (fun s d => Ok (replicate (batch_size decoder) (zeros s d)))
              (output_size decoder) (output_dtype decoder)) as (zero & Hzero & _).
  { apply Forall2_true; [eauto | exact (proj1 Hkeep)]. }
  exists zero. exact Hzero.
Qed.

Lemma bounded_loop_exits {V Inp Attn PGen Shape DType : Type}
      (decoder : @Decoder V Inp Attn PGen Shape DType)
      (attention_size : Shape) (impute_finished : bool) (M : Z)
      (zero_outputs : list (list V)) (fuel : nat) :
  0 < M < 2 ^ 31 -> M <= Z.of_nat fuel ->
  match while_loop decoder impute_finished (Some M) zero_outputs fuel 0
          (initial_vars decoder attention_size (Some M)) with
  | Exited n' res =>
      Z.of_nat n' <= M /\ Forall (fun l => l <= M) (sequence_lengths res)
  | Raised n' _ => Z.of_nat n' < M
  | OutOfFuel => False
  end.
Proof.
  intros HM Hfuel.
  apply (while_loop_bounded decoder impute_finished (Some M) zero_outputs M eq_refl
           HM fuel 0 (initial_vars decoder attention_size (Some M))).
  - apply initial_time.
  - simpl. lia.
  - simpl. lia.
  - rewrite initial_lengths. apply Forall_fmap, Forall_true. simpl. intros; lia.
  - lia.
Qed.


Lemma toy_keeps_structure : Structure.keeps_structure Toy.decoder.
Proof.
  split; [reflexivity|]. intros time inputs state. cbn.
  unfold BasicDecoder_step. cbn.
  destruct state as [|[[h|h]|h] [|[[t|t]|t] [|[[a|a]|a] [|x state]]]]; cbn;
    intros Hk; try discriminate; repeat split.
Qed.



Lemma toy_cell_keeps (inputs : list Z) (state : list (@state_field Z)) :
  map Structure.kind_of state =
  map Structure.kind_of (_initial_state Toy.basic_decoder) ->
  length (_cell Toy.basic_decoder inputs state).1.1.2 = 1%nat /\
  map Structure.kind_of (_cell Toy.basic_decoder inputs state).2 =
  map Structure.kind_of state.
Proof.
  cbn.
  destruct state as [|[[h|h]|h] [|[[t|t]|t] [|[[a|a]|a] [|x state]]]]; cbn;
    intros Hk; try discriminate; repeat split.
Qed.


(** ** The state of a finished element *)

Lemma next_finished_lookup {V Inp Attn PGen Shape DType : Type}
      (decoder : @Decoder V Inp Attn PGen Shape DType) (m : option Z)
      (v : @loop_vars V Inp Attn PGen) (i : nat) :
  next_finished_of decoder m v !! i = Some false ->
  finished v !! i = Some false.
Proof.
  unfold next_finished_of, logical_or, logical_or_scalar. intros H.
  assert (Hz : zip_with orb (decoder_finished_of decoder v) (finished v) !! i
               = Some false).
  { destruct m as [M|]; [|exact H].
    rewrite list_lookup_fmap in H.
    destruct (zip_with orb (decoder_finished_of decoder v) (finished v) !! i)
      as [b|]; [|discriminate].
    simpl in H. injection H as Hb. apply orb_false_iff in Hb.
    destruct Hb as (-> & _). reflexivity. }
  apply lookup_zip_with_Some in Hz. destruct Hz as (d & b & Hdb & _ & Hb).
  symmetry in Hdb. apply orb_false_iff in Hdb. destruct Hdb as (_ & ->).
  exact Hb.
Qed.

(** X4. With [impute_finished], the state of a finished element is held to the
    end of the run.  If after [t] passes the flag of element [i] is set and
    field [j] of the state is a batched tensor with the entry [x] for that
    element, then after every later pass the field is still a batched
    tensor, and its entry for the element is [x]. *)
Theorem imputed_state_held {V Inp Attn PGen Shape DType : Type}
    (decoder : @Decoder V Inp Attn PGen Shape DType)
    (attention_size : Shape) (maximum_iterations : option Z)
    (zero_outputs : list (list V))
    (t k : nat) (v_t v_k : @loop_vars V Inp Attn PGen)
    (i j : nat) (cur : list V) (x : V) :
  let vars0 := initial_vars decoder attention_size maximum_iterations in
  let after := vars_after decoder true maximum_iterations zero_outputs in
  after t vars0 = Some v_t -> after k vars0 = Some v_k -> (t <= k)%nat ->
  finished v_t !! i = Some true ->
  state v_t !! j = Some (FTensor (Batch cur)) -> cur !! i = Some x ->
  exists held : list V,
    state v_k !! j = Some (FTensor (Batch held)) /\
    forall y : V, held !! i = Some y -> y = x.
Proof.
  intros vars0 after Ht Hk Htk Hfin Hst Hx.
  assert (Hinv : exists held : list V,
            state v_k !! j = Some (FTensor (Batch held)) /\
            finished v_k !! i <> Some false /\
            forall y : V, held !! i = Some y -> y = x).
  { replace k with (t + (k - t))%nat in Hk by lia.
    generalize dependent v_k. induction (k - t)%nat as [|d IH]; intros v_k Hk.
    - rewrite Nat.add_0_r in Hk. rewrite Ht in Hk. inversion Hk; subst v_k.
      exists cur. split; [exact Hst|]. split; [congruence|].
      intros y Hy. congruence.
    - rewrite Nat.add_succ_r in Hk. apply vars_after_S in Hk.
      destruct Hk as (v & Hv & _ & Hb).
      destruct (IH v Hv) as (held & Hheld & Hflag & Hval).
      pose proof (body_Ok decoder true maximum_iterations zero_outputs v v_k Hb)
        as (_ & Hnf & _).
      pose proof (body_state decoder true maximum_iterations zero_outputs v v_k Hb)
        as Hcopy. simpl in Hcopy.
      destruct (Forall3_lookup_m _ _ _ _ _ _ Hcopy Hheld)
        as (new & z & _ & Hz & Hc).
      unfold _maybe_copy_state in Hc.
      destruct new as [[n|n]|n]; try discriminate.
      inversion Hc; subst z; clear Hc.
      exists (where_ (finished v) held n). split; [exact Hz|]. split.
      + rewrite Hnf. intros Hfalse. apply next_finished_lookup in Hfalse.
        contradiction.
      + intros y Hy. rewrite where_lookup in Hy.
        destruct (finished v !! i) as [[|]|] eqn:Hb'; try discriminate;
          [|contradiction].
        destruct (held !! i) as [a|] eqn:Ha; [|discriminate].
        destruct (n !! i) as [a'|]; [|discriminate].
        inversion Hy; subst y. apply Hval. reflexivity. }
  destruct Hinv as (held & H1 & _ & H2). eauto.
Qed.

Lemma imputed_state_held_witness :
  vars_after Toy.decoder true (Some 5) Toy.zero_outputs 1 Toy.vars0 =
    Some Toy.vars1 /\
  vars_after Toy.decoder true (Some 5) Toy.zero_outputs 3 Toy.vars0 =
    Some Toy.vars3 /\
  exists held : list Z,
    state Toy.vars3 !! 0%nat = Some (FTensor (Batch held)) /\
    forall y : Z, held !! 0%nat = Some y -> y = 11.
Proof.
  assert (H1 : vars_after Toy.decoder true (Some 5) Toy.zero_outputs 1 Toy.vars0 =
               Some Toy.vars1) by reflexivity.
  assert (H3 : vars_after Toy.decoder true (Some 5) Toy.zero_outputs 3 Toy.vars0 =
               Some Toy.vars3) by reflexivity.
  split; [exact H1|]. split; [exact H3|].
  apply (imputed_state_held Toy.decoder tt (Some 5) Toy.zero_outputs 1 3
           Toy.vars1 Toy.vars3 0 0 [11; 21] 11 H1 H3);
    [lia | reflexivity | reflexivity | reflexivity].
Defined.
End DecoderRuns.

Module MemoryProps.

Import Py Tf Attention Memory LinearSpec ResultFacts AttentionProps.
Local Open Scope R_scope.

(** ** [_prepare_memory] *)

Lemma mask_value_cases (l : Z) (t : nat) :
  mask_value l t = (if (Z.of_nat t <? l)%Z then 1 else 0).
Proof. reflexivity. Qed.

Lemma scale_vector_mask (v : list R) (l : Z) (t : nat) :
  scale_vector v (mask_value l t) =
  if (Z.of_nat t <? l)%Z then v else map (fun _ => 0) v.
Proof.
  unfold scale_vector, mask_value. destruct (Z.of_nat t <? l)%Z.
  - rewrite <- (map_id v) at 2. apply map_ext. intros x. lra.
  - apply map_ext. intros x. lra.
Qed.

Lemma scale_matrix_mask (w : list (list R)) (l : Z) (t : nat) :
  scale_matrix w (mask_value l t) =
  if (Z.of_nat t <? l)%Z then w else map (map (fun _ => 0)) w.
Proof.
  unfold scale_matrix.
  rewrite (map_ext _ (fun v => if (Z.of_nat t <? l)%Z then v else map (fun _ => 0) v))
    by (intros v; apply scale_vector_mask).
  destruct (Z.of_nat t <? l)%Z; [apply map_id | reflexivity].
Qed.

Section Prepare.
Context {T : Type} (mul : T -> R -> T).

Lemma prepare_memory_Ok (memory : list (list T)) (lengths : list Z)
      (check dims : bool) (prepared : list (list T)) :
  _prepare_memory mul memory (Some lengths) check dims = Ok prepared ->
  check && negb dims = false /\
  length lengths = length memory /\
  prepared =
    zip_with (fun l row => imap (fun t x => mul x (mask_value l t)) row)
      lengths memory.
Proof.
  unfold _prepare_memory.
  destruct (check && negb dims); [discriminate|].
  destruct (length lengths =? length memory)%nat eqn:E; simpl; [|discriminate].
  apply Nat.eqb_eq in E. intros H. inversion H. auto.
Qed.

Lemma prepare_memory_lookup (memory : list (list T)) (lengths : list Z)
      (check dims : bool) (prepared : list (list T)) (i t : nat) (l : Z) :
  _prepare_memory mul memory (Some lengths) check dims = Ok prepared ->
  lengths !! i = Some l ->
  (prepared !! i) ≫= (fun row => row !! t) =
  (fun x => mul x (mask_value l t)) <$> ((memory !! i) ≫= (fun row => row !! t)).
Proof.
  intros H Hl. apply prepare_memory_Ok in H. destruct H as (_ & _ & ->).
  rewrite lookup_zip_with, Hl. simpl.
  destruct (memory !! i) as [row|]; [|reflexivity]. simpl.
  apply list_lookup_imap.
Qed.

Lemma prepare_memory_again (memory : list (list T)) (lengths : list Z)
      (check dims : bool) (prepared : list (list T)) :
  (forall x l t, mul (mul x (mask_value l t)) (mask_value l t) =
                 mul x (mask_value l t)) ->
  _prepare_memory mul memory (Some lengths) check dims = Ok prepared ->
  _prepare_memory mul prepared (Some lengths) check dims = Ok prepared.
Proof.
  intros Hmul H. apply prepare_memory_Ok in H. destruct H as (Hc & Hlen & ->).
  unfold _prepare_memory. rewrite Hc.
  rewrite length_zip_with, Hlen, Nat.min_id, Nat.eqb_refl. simpl. f_equal.
  clear Hlen. revert memory. induction lengths as [|l lengths IH];
    intros [|row memory]; try reflexivity.
  simpl. f_equal; [|apply IH].
  apply list_eq. intros t. rewrite !list_lookup_imap.
  destruct (row !! t) as [x|]; [|reflexivity]. simpl. rewrite Hmul. reflexivity.
Qed.
End Prepare.

Lemma mask_twice (l : Z) (t : nat) (x : R) :
  x * mask_value l t * mask_value l t = x * mask_value l t.
Proof. unfold mask_value. destruct (Z.of_nat t <? l)%Z; lra. Qed.

(** X8. The prepared memory is the memory with the entries past the valid
    length set to zero.  For the sentence memory [[batch, time, depth]] as
    for the word memory [[batch, time, words, depth]]: entry [t] of row [i]
    is kept when [t] is below the length given for [i], and is replaced by
    zeros of the same shape otherwise; and preparing a prepared memory
    again changes nothing. *)
Theorem prepared_memory_is_masked
    (line_memory : list (list (list R)))
    (word_memory : list (list (list (list R))))
    (line_lengths word_lengths : list Z) (check dims : bool)
    (lines : list (list (list R))) (words : list (list (list (list R)))) :
  _prepare_memory scale_vector line_memory (Some line_lengths) check dims
    = Ok lines ->
  _prepare_memory scale_matrix word_memory (Some word_lengths) check dims
    = Ok words ->
  length lines = length line_memory /\ length words = length word_memory /\
  (forall (i t : nat) (l : Z), line_lengths !! i = Some l ->
     (lines !! i) ≫= (fun row => row !! t) =
     (fun v => if (Z.of_nat t <? l)%Z then v else map (fun _ => 0) v)
       <$> ((line_memory !! i) ≫= (fun row => row !! t))) /\
  (forall (i t : nat) (l : Z), word_lengths !! i = Some l ->
     (words !! i) ≫= (fun row => row !! t) =
     (fun w => if (Z.of_nat t <? l)%Z then w else map (map (fun _ => 0)) w)
       <$> ((word_memory !! i) ≫= (fun row => row !! t))) /\
  _prepare_memory scale_vector lines (Some line_lengths) check dims = Ok lines /\
  _prepare_memory scale_matrix words (Some word_lengths) check dims = Ok words.
Proof.
  intros Hl Hw.
  split; [|split; [|split; [|split; [|split]]]].
  - apply prepare_memory_Ok in Hl. destruct Hl as (_ & Hlen & ->).
    rewrite length_zip_with. lia.
  - apply prepare_memory_Ok in Hw. destruct Hw as (_ & Hlen & ->).
    rewrite length_zip_with. lia.
  - intros i t l Hi.
    rewrite (prepare_memory_lookup _ _ _ _ _ _ i t l Hl Hi).
    destruct ((line_memory !! i) ≫= (fun row => row !! t)) as [v|]; [|reflexivity].
    simpl. rewrite scale_vector_mask. reflexivity.
  - intros i t l Hi.
    rewrite (prepare_memory_lookup _ _ _ _ _ _ i t l Hw Hi).
    destruct ((word_memory !! i) ≫= (fun row => row !! t)) as [w|]; [|reflexivity].
    simpl. rewrite scale_matrix_mask. reflexivity.
  - apply (prepare_memory_again _ line_memory); [|exact Hl].
    intros x l t. unfold scale_vector. rewrite map_map. apply map_ext.
    intros y. apply mask_twice.
  - apply (prepare_memory_again _ word_memory); [|exact Hw].
    intros x l t. unfold scale_matrix, scale_vector. rewrite map_map.
    apply map_ext. intros v. rewrite map_map. apply map_ext.
    intros y. apply mask_twice.
Qed.

Lemma prepared_memory_is_masked_witness :
  _prepare_memory scale_vector [[[1]; [5]; [7]]] (Some [1%Z]) true true =
    Ok [[[1 * 1]; [5 * 0]; [7 * 0]]] /\
  _prepare_memory scale_matrix [[[[2]; [3]]; [[4]; [6]]]] (Some [1%Z]) true true =
    Ok [[[[2 * 1]; [3 * 1]]; [[4 * 0]; [6 * 0]]]] /\
  _prepare_memory scale_vector [[[1 * 1]; [5 * 0]; [7 * 0]]] (Some [1%Z]) true true =
    Ok [[[1 * 1]; [5 * 0]; [7 * 0]]].
Proof.
  assert (H1 : _prepare_memory scale_vector [[[1]; [5]; [7]]] (Some [1%Z]) true true =
               Ok [[[1 * 1]; [5 * 0]; [7 * 0]]]) by reflexivity.
  assert (H2 : _prepare_memory scale_matrix [[[[2]; [3]]; [[4]; [6]]]] (Some [1%Z])
                 true true = Ok [[[[2 * 1]; [3 * 1]]; [[4 * 0]; [6 * 0]]]])
    by reflexivity.
  split; [exact H1|]. split; [exact H2|].
  exact (proj1 (proj2 (proj2 (proj2 (proj2
           (prepared_memory_is_masked _ _ _ _ _ _ _ _ H1 H2)))))).
Defined.


(** ** [linear] *)

Lemma total_arg_size_accepted (args : list tensor) (acc : Z) :
  Forall accepted args ->
  exists n, total_arg_size (map get_shape args) acc = Ok n.
Proof.
  intros H. revert acc. induction H as [|a args (d0 & n & Hs & Hn) _ IH]; intros acc.
  - simpl. eauto.
  - simpl. rewrite Hs. destruct n; try contradiction; apply IH.
Qed.

Lemma total_arg_size_rejected (args : list tensor) (acc : Z) :
  ~ Forall accepted args ->
  total_arg_size (map get_shape args) acc = Err ValueError.
Proof.
  revert acc. induction args as [|a args IH]; intros acc Hn.
  - exfalso. apply Hn. constructor.
  - simpl. destruct (get_shape a) as [|d0 [|d1 [|d2 s]]] eqn:Hs; try reflexivity.
    destruct d1 as [n|]; [|reflexivity].
    destruct (decide (n = 0%Z)) as [->|Hne]; [reflexivity|].
    assert (Hrest : ~ Forall accepted args).
    { intros Hf. apply Hn. constructor; [|exact Hf]. exists d0, n. auto. }
    destruct n; try contradiction; apply IH; exact Hrest.
Qed.


(** *** The sum of the products *)

Lemma omap_app_eq {A B} (f : A -> option B) (l1 l2 : list A) :
  omap f (l1 ++ l2) = omap f l1 ++ omap f l2.
Proof.
  induction l1 as [|x l1 IH]; [reflexivity|].
  change (omap f ((x :: l1) ++ l2)) with
    (match f x with Some y => y :: omap f (l1 ++ l2) | None => omap f (l1 ++ l2) end).
  change (omap f (x :: l1)) with
    (match f x with Some y => y :: omap f l1 | None => omap f l1 end).
  rewrite IH. destruct (f x); reflexivity.
Qed.

Lemma transpose_app {A} (n : nat) (m1 m2 : list (list A)) :
  transpose n (m1 ++ m2) = zip_with app (transpose n m1) (transpose n m2).
Proof.
  revert m1 m2. induction n as [|n IH]; intros m1 m2; [reflexivity|].
  simpl. rewrite omap_app_eq, map_app, IH. reflexivity.
Qed.

Lemma omap_head_length {A} (m : list (list A)) :
  Forall (fun r => (0 < length r)%nat) m -> length (omap head m) = length m.
Proof.
  induction 1 as [|r m Hr _ IH]; [reflexivity|].
  destruct r as [|a r]; [simpl in Hr; lia|].
  change (omap head ((a :: r) :: m)) with (a :: omap head m).
  simpl. f_equal. exact IH.
Qed.

(** The columns of a matrix with rows of length [n] have its number of
    rows as their length. *)
Lemma transpose_columns {A} (n : nat) (m : list (list A)) :
  Forall (fun r => length r = n) m ->
  Forall (fun c => length c = length m) (transpose n m).
Proof.
  revert m. induction n as [|n IH]; intros m Hm; [constructor|].
  simpl. constructor.
  - apply omap_head_length. eapply Forall_impl; [exact Hm|]. simpl. intros; lia.
  - rewrite <- (length_map tail m). apply IH.
    apply Forall_fmap. eapply Forall_impl; [exact Hm|].
    intros [|a r]; simpl; intros; [discriminate | lia].
Qed.

Lemma dot_app (x1 x2 y1 y2 : list R) :
  length x1 = length y1 ->
  dot (x1 ++ x2) (y1 ++ y2) = dot x1 y1 + dot x2 y2.
Proof.
  intros H. unfold dot. rewrite zip_with_app by exact H. apply sum_list_app.
Qed.

Lemma row_product_app (x1 x2 : list R) (T1 T2 : list (list R)) :
  Forall (fun c => length c = length x1) T1 ->
  map (dot (x1 ++ x2)) (zip_with app T1 T2) =
  zip_with Rplus (map (dot x1) T1) (map (dot x2) T2).
Proof.
  intros H. revert T2. induction H as [|c T1 Hc _ IH]; intros [|c2 T2];
    try reflexivity.
  simpl. rewrite IH. f_equal. apply dot_app. symmetry. exact Hc.
Qed.

(** Multiplying two arguments set side by side with two matrices set one
    above the other gives the sum of the two products. *)
Lemma matmul_blocks (m : nat) (a1 a2 : list (list R)) (W1 W2 : list (list R)) :
  Forall (fun r => length r = length W1) a1 ->
  Forall (fun w => length w = m) W1 ->
  matmul m (zip_with app a1 a2) (W1 ++ W2) =
  matrix_add (matmul m a1 W1) (matmul m a2 W2).
Proof.
  intros Ha HW. unfold matmul, matrix_add. rewrite transpose_app.
  pose proof (transpose_columns m W1 HW) as Hcols.
  revert a2. induction Ha as [|r a1 Hr _ IH]; intros [|r2 a2]; try reflexivity.
  simpl. f_equal; [|apply IH].
  apply row_product_app. eapply Forall_impl; [exact Hcols|].
  simpl. intros c Hc. congruence.
Qed.

Lemma matrix_add_assoc (a b c : list (list R)) :
  matrix_add (matrix_add a b) c = matrix_add a (matrix_add b c).
Proof.
  unfold matrix_add. revert b c. induction a as [|x a IH]; intros [|y b] [|z c];
    try reflexivity.
  simpl. f_equal; [|apply IH].
  revert y z. induction x as [|p x IHx]; intros [|q y] [|s z]; try reflexivity.
  simpl. f_equal; [lra | apply IHx].
Qed.

Lemma matrix_add_zero (m : nat) (a : list (list R)) :
  Forall (fun r => length r = m) a ->
  matrix_add a (replicate (length a) (replicate m 0)) = a.
Proof.
  unfold matrix_add. induction 1 as [|r a Hr _ IH]; [reflexivity|].
  simpl. f_equal; [|exact IH].
  subst m. clear. induction r as [|x r IH]; [reflexivity|].
  simpl. f_equal; [lra | exact IH].
Qed.

Lemma matmul_shape (m : nat) (a W : list (list R)) :
  length (matmul m a W) = length a /\
  Forall (fun r => length r = m) (matmul m a W).
Proof.
  unfold matmul. split; [apply length_map|].
  apply Forall_fmap, Forall_true. intros r. simpl.
  rewrite length_map. apply transpose_length.
Qed.

Lemma concat_products (m batch : nat) (rest : list (list (list R)))
      (Ws : list (list (list R))) :
  Forall2 (block m batch) rest Ws ->
  forall acc Wacc : list (list R),
    block m batch acc Wacc ->
    matmul m (foldl (zip_with app) acc rest) (Wacc ++ concat Ws) =
    matrix_add (matmul m acc Wacc) (sum_of_products m batch rest Ws).
Proof.
  unfold sum_of_products.
  induction 1 as [|r W rest Ws (Hrb & Hrl & HWm) _ IH]; intros acc Wacc (Hb & Hl & Hm).
  - simpl. rewrite app_nil_r.
    destruct (matmul_shape m acc Wacc) as (Hlen & Hrows).
    rewrite <- Hb, <- Hlen. symmetry. apply matrix_add_zero. exact Hrows.
  - simpl. rewrite app_assoc. rewrite IH.
    + rewrite matmul_blocks by assumption. apply matrix_add_assoc.
    + split; [rewrite length_zip_with; lia|]. split.
      * apply Forall_lookup. intros i row Hi.
        apply lookup_zip_with_Some in Hi. destruct Hi as (x & y & -> & Hx & Hy).
        rewrite !length_app.
        rewrite (Forall_lookup_1 _ _ _ _ Hl Hx), (Forall_lookup_1 _ _ _ _ Hrl Hy).
        reflexivity.
      * apply Forall_app. split; assumption.
Qed.

(** X10. [linear] computes what its docstring says, [sum_i(args[i] * W[i])]:
    for arguments of [batch] rows whose widths are the heights of the
    blocks [W[i]] that, one above the other, make up the variable [Matrix],
    the result is the sum of the products of each argument with its block,
    plus the bias when one is asked for. *)
Theorem linear_is_sum_of_products (args : list tensor)
    (W : list (list (list R))) (m batch : nat) (bias : bool) (Bias : list R) :
  args <> [] ->
  Forall accepted args ->
  Forall2 (fun a Wi => block m batch (rows a) Wi) args W ->
  linear (ArgsList args) m bias (concat W) Bias =
  Ok (let res := sum_of_products m batch (map rows args) W in
      if bias then map (fun r => zip_with Rplus r Bias) res else res).
Proof.
  intros Hne Hacc Hblocks.
  destruct args as [|a args]; [contradiction|].
  unfold linear.
  destruct (total_arg_size_accepted (a :: args) 0%Z Hacc) as (n & ->).
  cbn [mbind result_bind]. f_equal.
  assert (Hres : match a :: args with
                 | [a0] => matmul m (rows a0) (concat W)
                 | _ => matmul m (concat_axis1 (map rows (a :: args))) (concat W)
                 end = sum_of_products m batch (map rows (a :: args)) W).
  { transitivity (matmul m (concat_axis1 (map rows (a :: args))) (concat W)).
    { destruct args; reflexivity. }
    inversion Hblocks as [|a' W0 args' Ws Hb Hrest]; subst.
    change (matmul m (foldl (zip_with app) (rows a) (map rows args))
              (W0 ++ concat Ws) =
            matrix_add (matmul m (rows a) W0)
              (sum_of_products m batch (map rows args) Ws)).
    apply (concat_products m batch (map rows args) Ws).
    - apply Forall2_fmap_l. exact Hrest.
    - exact Hb. }
  rewrite Hres. reflexivity.
Qed.

Lemma linear_is_sum_of_products_witness :
  linear (ArgsList [Tensor [Some 1%Z; Some 2%Z] [[1; 2]];
                    Tensor [Some 1%Z; Some 1%Z] [[3]]]) 1 true
    (concat [[[4]; [5]]; [[6]]]) [7] =
  Ok (map (fun r => zip_with Rplus r [7])
        (sum_of_products 1 1 [[[1; 2]]; [[3]]] [[[4]; [5]]; [[6]]])).
Proof.
  apply (linear_is_sum_of_products
           [Tensor [Some 1%Z; Some 2%Z] [[1; 2]];
            Tensor [Some 1%Z; Some 1%Z] [[3]]]
           [[[4]; [5]]; [[6]]] 1 1 true [7]).
  - discriminate.
  - repeat constructor; eexists _, _; (split; [reflexivity | discriminate]).
  - repeat constructor.
Defined.


(** ** The scorer and the context *)

Lemma probability_row (self : CustomAttention) (score alignments : list (list R)) :
  probability_fn self = None ->
  _probability_fn self score = Ok alignments ->
  length alignments = length score /\
  forall (i : nat) (arow : list R), alignments !! i = Some arow ->
    exists (srow : list R) (mrow : list score_t),
      score !! i = Some srow /\ length mrow = length srow /\
      arow = softmax_row mrow /\
      forall s0, srow !! 0%nat = Some s0 -> mrow !! 0%nat = Some (Fin s0).
Proof.
  intros Hfn Hp. unfold _probability_fn in Hp. rewrite Hfn in Hp.
  destruct (_maybe_mask_score score (line_memory_sequence_length self)
              (score_mask_value self)) as [masked|e] eqn:Hmask; [|discriminate].
  simpl in Hp. inversion Hp; subst alignments; clear Hp.
  unfold _maybe_mask_score in Hmask.
  destruct (line_memory_sequence_length self) as [lengths|].
  - destruct (assert_positive lengths) eqn:Hpos; [|discriminate]. simpl in Hmask.
    destruct (length lengths =? length score)%nat eqn:Hlen; [|discriminate].
    apply Nat.eqb_eq in Hlen.
    simpl in Hmask. inversion Hmask; subst masked; clear Hmask.
    split; [unfold softmax; rewrite length_map, length_zip_with; lia|].
    intros i arow Hi. unfold softmax in Hi. rewrite list_lookup_fmap in Hi.
    rewrite lookup_zip_with in Hi.
    destruct (lengths !! i) as [l|] eqn:Hl; [|discriminate]. simpl in Hi.
    destruct (score !! i) as [srow|] eqn:Hs; [|discriminate]. simpl in Hi.
    inversion Hi; subst arow.
    exists srow, (mask_row (score_mask_value self) l srow).
    split; [reflexivity|]. split; [unfold mask_row; apply length_imap|].
    split; [reflexivity|].
    intros s0 Hs0. rewrite mask_row_lookup, Hs0. simpl.
    pose proof (assert_positive_lookup _ _ _ Hpos Hl) as Hlpos.
    destruct (Z.ltb_spec (Z.of_nat 0) l) as [_|Hge]; [reflexivity|].
    simpl in Hge. lia.
  - inversion Hmask; subst masked; clear Hmask.
    split; [unfold softmax; rewrite !length_map; reflexivity|].
    intros i arow Hi. unfold softmax in Hi. rewrite !list_lookup_fmap in Hi.
    destruct (score !! i) as [srow|] eqn:Hs; [|discriminate]. simpl in Hi.
    inversion Hi; subst arow.
    exists srow, (map Fin srow).
    split; [reflexivity|]. split; [apply length_map|]. split; [reflexivity|].
    intros s0 Hs0. rewrite list_lookup_fmap, Hs0. reflexivity.
Qed.

(** What [__call__] returns for a memory of the shapes [__init__] read. *)
Lemma call_Ok (self : CustomAttention)
      (query previous_alignments alignments word_alignments : list (list R)) :
  well_shaped self query ->
  __call__ self query previous_alignments = Ok (alignments, word_alignments) ->
  let score :=
    zip_with (fun q ks => map (raw_score (_scale self) (attention_g self) q) ks)
      query (_keys self) in
  _probability_fn self score = Ok alignments /\
  length score = _batch_size self /\
  Forall (fun r => length r = _alignments_size self) score /\
  word_alignments =
    zip_with (fun q kw => raw_word_alignment (_scale self) (attention_g self)
                            q kw.1 kw.2)
      query (zip (_keys self) (_word_values self)) /\
  length word_alignments = _batch_size self /\
  Forall (fun r => length r =
            (_alignments_size self * _word_alignments_size self)%nat)
    word_alignments.
Proof.
  intros (HB & HK & HWV & HS & HW) Hcall score.
  unfold __call__ in Hcall.
  apply bind_Ok in Hcall. destruct Hcall as (score' & Hscore & Hcall).
  apply bind_Ok in Hcall. destruct Hcall as (wsc & Hwsc & Hcall).
  apply bind_Ok in Hcall. destruct Hcall as (al & Hal & Hcall).
  inversion Hcall; subst alignments word_alignments; clear Hcall.
  apply luong_score_entries in Hscore.
  apply luong_word_score_entries in Hwsc; [|lia|].
  2:{ eapply Forall_impl; [exact HW|]. intros x [Hx _]. exact Hx. }
  subst score' wsc. fold score in Hal.
  split; [exact Hal|].
  split; [unfold score; rewrite length_zip_with; lia|].
  split.
  { apply Forall_lookup. intros j r Hj. unfold score in Hj.
    apply lookup_zip_with_Some in Hj. destruct Hj as (q & ks & -> & _ & Hks).
    rewrite length_map. exact (Forall_lookup_1 _ _ _ _ HS Hks). }
  rewrite concat_concat_map.
  rewrite (call_entries (_scale self) (attention_g self) (_alignments_size self)
             (_word_alignments_size self) query (_keys self) (_word_values self))
    by (assumption || lia).
  set (rows := zip_with _ query (zip (_keys self) (_word_values self))).
  assert (Hlen : length rows = _batch_size self).
  { unfold rows. rewrite length_zip_with, length_zip. lia. }
  assert (Hrect : Forall (fun r => length r =
            (_alignments_size self * _word_alignments_size self)%nat) rows).
  { apply Forall_lookup. intros j r Hj. unfold rows in Hj.
    rewrite lookup_zip_with in Hj.
    destruct (query !! j) as [qj|]; [|discriminate]. simpl in Hj.
    rewrite lookup_zip_with in Hj.
    destruct (_keys self !! j) as [kj|] eqn:Hkj; [|discriminate]. simpl in Hj.
    destruct (_word_values self !! j) as [wj|] eqn:Hwj; [|discriminate].
    simpl in Hj. inversion Hj; subst r.
    pose proof (Forall_lookup_1 _ _ _ _ HS Hkj) as Hkl. simpl in Hkl.
    destruct (Forall_lookup_1 _ _ _ _ HW Hwj) as [Hwl Hwr].
    rewrite (raw_word_alignment_length _ _ _ _ _ (_word_alignments_size self))
      by (assumption || lia).
    rewrite Hwl. reflexivity. }
  rewrite <- Hlen. rewrite (reshape_rows_concat _ rows Hrect).
  repeat split; try reflexivity; try assumption.
Qed.

(** X11. The alignments keep their shapes from step to step.  For a memory of
    the shapes [__init__] read and the default normaliser, the sentence
    alignment has one row of [_alignments_size] entries for each batch
    element, and the word alignment, which the wrapper carries in its
    state, has the shape of [initial_alignments]: one row of
    [_word_alignments_size * _alignments_size] entries for each batch
    element. *)
Theorem alignments_keep_their_shape (self : CustomAttention)
    (query previous_alignments alignments word_alignments : list (list R)) :
  well_shaped self query -> probability_fn self = None ->
  __call__ self query previous_alignments = Ok (alignments, word_alignments) ->
  length alignments = _batch_size self /\
  Forall (fun r => length r = _alignments_size self) alignments /\
  map (@length R) word_alignments =
  map (@length R) (initial_alignments self (_batch_size self)).
Proof.
  intros Hshape Hfn Hcall.
  destruct (call_Ok self query previous_alignments alignments word_alignments
              Hshape Hcall) as (Hal & Hslen & Hsrows & _ & Hwlen & Hwrows).
  destruct (probability_row self _ alignments Hfn Hal) as (Hlen & Hrows).
  split; [lia|]. split.
  - apply Forall_lookup. intros i arow Hi.
    destruct (Hrows i arow Hi) as (srow & mrow & Hs & Hm & -> & _).
    unfold softmax_row. rewrite !length_map, Hm.
    exact (Forall_lookup_1 _ _ _ _ Hsrows Hs).
  - unfold initial_alignments. rewrite <- Hwlen.
    clear -Hwrows. induction Hwrows as [|r rows Hr _ IH]; [reflexivity|].
    simpl. rewrite Hr, length_replicate. f_equal; [lia | exact IH].
Qed.

Lemma padded_memory_shaped : well_shaped padded_memory [[1]].
Proof. repeat split; repeat constructor. Qed.

Lemma alignments_keep_their_shape_witness :
  well_shaped padded_memory [[1]] /\
  probability_fn padded_memory = None /\
  __call__ padded_memory [[1]] [[0; 0; 0; 0; 0; 0]] =
    Ok (softmax [[Fin (1 * 1 + 0); NegInf; NegInf]],
        [[(1 * 2 + 0) * (1 * 1 + 0); (1 * 3 + 0) * (1 * 1 + 0);
          (1 * 0 + 0) * (1 * 0 + 0); (1 * 0 + 0) * (1 * 0 + 0);
          (1 * 0 + 0) * (1 * 0 + 0); (1 * 0 + 0) * (1 * 0 + 0)]]) /\
  length (softmax [[Fin (1 * 1 + 0); NegInf; NegInf]]) = 1%nat.
Proof.
  assert (Hcall : __call__ padded_memory [[1]] [[0; 0; 0; 0; 0; 0]] =
    Ok (softmax [[Fin (1 * 1 + 0); NegInf; NegInf]],
        [[(1 * 2 + 0) * (1 * 1 + 0); (1 * 3 + 0) * (1 * 1 + 0);
          (1 * 0 + 0) * (1 * 0 + 0); (1 * 0 + 0) * (1 * 0 + 0);
          (1 * 0 + 0) * (1 * 0 + 0); (1 * 0 + 0) * (1 * 0 + 0)]]))
    by reflexivity.
  split; [exact padded_memory_shaped|]. split; [reflexivity|].
  split; [exact Hcall|].
  exact (proj1 (alignments_keep_their_shape padded_memory _ _ _ _
                  padded_memory_shaped eq_refl Hcall)).
Defined.

(** *** The context *)

Lemma weighted_bounds (lo hi : R) (a col : list R) :
  Forall (fun p => 0 <= p) a ->
  Forall (fun x => lo <= x <= hi) col ->
  lo * sum_list (zip_with (fun p _ => p) a col) <= dot a col <=
  hi * sum_list (zip_with (fun p _ => p) a col).
Proof.
  intros Ha. revert col. unfold dot.
  induction Ha as [|p a Hp _ IH]; intros col Hcol.
  - simpl. lra.
  - destruct Hcol as [|x col Hx Hcol]; simpl; [lra|].
    specialize (IH col Hcol). nra.
Qed.

Lemma zip_with_fst_same {A B} (a : list A) (b : list B) :
  length a = length b -> zip_with (fun p _ => p) a b = a.
Proof.
  revert b. induction a as [|x a IH]; intros [|y b] H; try discriminate;
    [reflexivity|].
  simpl. f_equal. apply IH. simpl in H. lia.
Qed.

Lemma column_lookup {A} (n : nat) (m : list (list A)) (d : nat) :
  (d < n)%nat -> transpose n m !! d = Some (omap (fun r => r !! d) m).
Proof. apply DecoderRuns.transpose_lookup. Qed.

(** X12. The context is a weighted mean of the memory.  With the default
    normaliser and a memory of at least one sentence, each component of
    the context that [_compute_attention] returns for a batch element
    (without an attention layer, the attention itself) lies between any two
    bounds that hold for that component of all the element's memory
    values. *)
Theorem context_within_memory_range (self : CustomAttention)
    (query previous_alignments attention word_alignments : list (list R))
    (i d : nat) (vs : list (list R)) (lo hi : R) (row : list R) (c : R) :
  well_shaped self query -> probability_fn self = None ->
  (0 < _alignments_size self)%nat ->
  _compute_attention self query previous_alignments None =
    Ok (attention, word_alignments) ->
  _values self !! i = Some vs -> length vs = _alignments_size self ->
  Forall (fun v => exists x, v !! d = Some x /\ lo <= x <= hi) vs ->
  attention !! i = Some row -> row !! d = Some c ->
  lo <= c <= hi.
Proof.
  intros Hshape Hfn Hpos Hatt Hvs Hvlen Hbounds Hrow Hc.
  unfold _compute_attention in Hatt.
  apply bind_Ok in Hatt. destruct Hatt as ([al wal] & Hcall & Hatt).
  inversion Hatt; subst attention word_alignments; clear Hatt.
  destruct (call_Ok self query previous_alignments al wal Hshape Hcall)
    as (Hal & Hslen & Hsrows & _).
  destruct (probability_row self _ al Hfn Hal) as (Hlen & Hrows).
  unfold context_matmul in Hrow.
  apply lookup_zip_with_Some in Hrow. destruct Hrow as (a & vs' & -> & Ha & Hvs').
  rewrite Hvs in Hvs'. inversion Hvs'; subst vs'; clear Hvs'.
  rewrite list_lookup_fmap in Hc.
  destruct (transpose (values_depth self) vs !! d) as [col|] eqn:Hcol;
    [|discriminate].
  simpl in Hc. inversion Hc; subst c; clear Hc.
  assert (Hd : (d < values_depth self)%nat).
  { apply lookup_lt_Some in Hcol. rewrite transpose_length in Hcol. exact Hcol. }
  rewrite column_lookup in Hcol by exact Hd. inversion Hcol; subst col; clear Hcol.
  (* the column: one entry for each sentence, within the bounds *)
  assert (Hcolumn : length (omap (fun r : list R => r !! d) vs) = length vs /\
                    Forall (fun x => lo <= x <= hi) (omap (fun r : list R => r !! d) vs)).
  { clear -Hbounds. induction Hbounds as [|v vs (x & Hx & Hb) _ (IHl & IHf)].
    - split; [reflexivity | constructor].
    - change (omap (fun r : list R => r !! d) (v :: vs)) with
        (match v !! d with
         | Some y => y :: omap (fun r : list R => r !! d) vs
         | None => omap (fun r : list R => r !! d) vs
         end).
      rewrite Hx. split; [simpl; f_equal; exact IHl | constructor; assumption]. }
  destruct Hcolumn as (Hcl & Hcb).
  (* the alignment: a point of the simplex *)
  destruct (Hrows i a Ha) as (srow & mrow & Hs & Hm & -> & Hfirst).
  pose proof (Forall_lookup_1 _ _ _ _ Hsrows Hs) as Hsl. simpl in Hsl.
  destruct (srow !! 0%nat) as [s0|] eqn:Hs0.
  2:{ apply lookup_ge_None in Hs0. lia. }
  destruct (softmax_row_simplex mrow 0 s0 (Hfirst s0 eq_refl)) as (_ & Hnn & Hone).
  pose proof (weighted_bounds lo hi (softmax_row mrow) _ Hnn Hcb) as Hw.
  rewrite zip_with_fst_same in Hw.
  - rewrite Hone in Hw. lra.
  - unfold softmax_row. rewrite !length_map. lia.
Qed.

Lemma context_within_memory_range_witness :
  well_shaped padded_memory [[1]] /\
  (0 < _alignments_size padded_memory)%nat /\
  forall attention word_alignments row c,
    _compute_attention padded_memory [[1]] [[0; 0; 0; 0; 0; 0]] None =
      Ok (attention, word_alignments) ->
    attention !! 0%nat = Some row -> row !! 0%nat = Some c -> 0 <= c <= 1.
Proof.
  split; [exact padded_memory_shaped|]. split; [simpl; lia|].
  intros attention word_alignments row c Hatt Hrow Hc.
  apply (context_within_memory_range padded_memory [[1]] [[0; 0; 0; 0; 0; 0]]
           attention word_alignments 0 0 [[1]; [0]; [0]] 0 1 row c
           padded_memory_shaped eq_refl);
    try assumption; try reflexivity; [simpl; lia|].
  repeat constructor; eexists; (split; [reflexivity | lra]).
Defined.

End MemoryProps.

Module ShapeProps.

Import Py Data Shapes DataProps.

Lemma rev_take_rev_length {A} (m : Z) (l : list A) :
  length (rev_take_rev m l) = (Z.to_nat m `min` length l)%nat.
Proof.
  unfold rev_take_rev. rewrite length_reverse, length_take, length_reverse.
  reflexivity.
Qed.

Lemma rev_take_rev_all {A} (m : Z) (l : list A) :
  len l <= m -> rev_take_rev m l = l.
Proof.
  unfold len, rev_take_rev. intros H.
  rewrite take_ge by (rewrite length_reverse; lia).
  apply reverse_involutive.
Qed.

Lemma rev_take_rev_map {A B} (f : A -> B) (m : Z) (l : list A) :
  rev_take_rev m (map f l) = map f (rev_take_rev m l).
Proof.
  unfold rev_take_rev.
  change (map f l) with (f <$> l).
  rewrite <- fmap_reverse, <- fmap_take, <- fmap_reverse. reflexivity.
Qed.

Lemma repeat_list_length {A} (x : A) (n : Z) :
  length (repeat_list x n) = Z.to_nat n.
Proof. apply length_replicate. Qed.

Lemma succ_mod (b i : nat) :
  (0 < b)%nat -> (S i mod b)%nat <> 0%nat -> (S i mod b = S (i mod b))%nat.
Proof.
  intros Hb Hne.
  pose proof (Nat.mod_upper_bound i b ltac:(lia)) as Hlt.
  pose proof (Nat.div_mod_eq i b) as Hi.
  destruct (decide (S (i mod b) = b)) as [Heq|Hneq].
  - exfalso. apply Hne.
    replace (S i) with (0 + S (i / b) * b)%nat by lia.
    rewrite Nat.Div0.mod_add. apply Nat.Div0.mod_0_l.
  - replace (S i) with (S (i mod b) + (i / b) * b)%nat by lia.
    rewrite Nat.Div0.mod_add. apply Nat.mod_small. lia.
Qed.

Lemma batch_lead_succ (b i : nat) :
  (0 < b)%nat -> (S i mod b)%nat <> 0%nat -> batch_lead b (S i) = batch_lead b i.
Proof.
  intros Hb Hne. unfold batch_lead. rewrite (succ_mod b i Hb Hne).
  pose proof (Nat.Div0.mod_le i b). lia.
Qed.

Lemma batch_lead_le (b i : nat) : (batch_lead b i <= i)%nat.
Proof. unfold batch_lead. lia. Qed.

Lemma batch_lead_same (b i j : nat) :
  (0 < b)%nat -> (i / b = j / b)%nat -> batch_lead b i = batch_lead b j.
Proof.
  intros Hb H. unfold batch_lead.
  pose proof (Nat.div_mod_eq i b). pose proof (Nat.div_mod_eq j b).
  rewrite H in *. lia.
Qed.

Section StoryShapes.
Variables (word_idx : gmap string Z) (sentence_size : Z) (b : nat)
          (decode_vocab_size max_memory_size : Z)
          (decoder_vocab : gmap string Z).
Hypothesis Hb : (0 < b)%nat.

Local Abbreviation story_body :=
  (story_body word_idx sentence_size decode_vocab_size decoder_vocab).
Local Abbreviation stories_loop :=
  (stories_loop word_idx sentence_size (Z.of_nat b) decode_vocab_size
     max_memory_size decoder_vocab).
Local Abbreviation word_row := (word_row word_idx sentence_size).
Local Abbreviation size_at := (memory_size_at max_memory_size b).

(** The rows of word ids and the sizes that the pass for a story appends. *)
Lemma story_body_rows (memory_size : Z) (story : list (list string)) :
  let rows := rev_take_rev memory_size (map word_row story) in
  st_ss (story_body memory_size story) =
    rows ++ repeat_list (repeat_list 0 sentence_size)
              (Z.max 0 (memory_size - len rows)) /\
  st_sizes (story_body memory_size story) =
    rev_take_rev memory_size (map len story)
    ++ repeat_list 0 (Z.max 0 (memory_size - len rows)).
Proof.
  intros rows. unfold Data.story_body.
  destruct (story_loop_spec word_idx sentence_size decode_vocab_size
              decoder_vocab story []) as (_ & _ & Hss & Hsz).
  destruct (Data.story_loop _ _ _ _ [] story) as [vs oov'] eqn:Hloop.
  cbn [fst snd] in Hss, Hsz |- *.
  rewrite Hss, Hsz. split; reflexivity.
Qed.

(** The outer loop gives each story the memory size of the first story of
    its batch. *)
Lemma stories_loop_lead (all : list (list (list string))) :
  forall (rest : list (list (list string))) (i0 : nat) (ms : option Z),
    drop i0 all = rest ->
    ((i0 mod b)%nat <> 0%nat -> ms = Some (size_at all i0)) ->
    stories_loop (Z.of_nat i0) ms rest =
    Some (imap (fun j story => story_body (size_at all (i0 + j)) story) rest).
Proof.
  induction rest as [|story rest IH]; intros i0 ms Hdrop Hms; [reflexivity|].
  cbn [Data.stories_loop].
  destruct (decide (Z.of_nat b = 0)) as [|_]; [lia|].
  assert (Hstory : all !! i0 = Some story).
  { rewrite <- (Nat.add_0_r i0), <- lookup_drop, Hdrop. reflexivity. }
  assert (Hrest : drop (S i0) all = rest).
  { replace (S i0) with (i0 + 1)%nat by lia.
    rewrite <- drop_drop, Hdrop. reflexivity. }
  assert (Hsize : (if decide (Z.of_nat i0 mod Z.of_nat b = 0)
                   then Some (Z.max 1 (Z.min max_memory_size (len story)))
                   else ms) = Some (size_at all i0)).
  { rewrite <- Nat2Z.inj_mod.
    destruct (decide (Z.of_nat (i0 mod b) = 0)) as [H0|Hne].
    - unfold memory_size_at, batch_lead.
      replace (i0 mod b)%nat with 0%nat by lia.
      rewrite Nat.sub_0_r, Hstory. reflexivity.
    - apply Hms. lia. }
  rewrite Hsize. cbn [mbind option_bind].
  replace (Z.of_nat i0 + 1) with (Z.of_nat (S i0)) by lia.
  rewrite (IH (S i0) (Some (size_at all i0)) Hrest).
  - cbn [mbind option_bind]. f_equal. rewrite imap_cons. f_equal.
    + rewrite Nat.add_0_r. reflexivity.
    + apply imap_ext. intros j s _. simpl. f_equal. f_equal. lia.
  - intros Hne. f_equal. unfold memory_size_at.
    rewrite (batch_lead_succ b i0 Hb Hne). reflexivity.
Qed.

Lemma vectorize_stories_lead (stories : list (list (list string))) :
  let vs := imap (fun j story => story_body (size_at stories j) story) stories in
  _vectorize_stories word_idx sentence_size (Z.of_nat b) decode_vocab_size
    max_memory_size decoder_vocab stories =
  Some (map st_ss vs, map st_sizes vs, map st_string vs,
        map st_oov_ids vs, map st_oov_size vs, map st_oov_words vs).
Proof.
  intros vs. unfold _vectorize_stories.
  change 0 with (Z.of_nat 0).
  rewrite (stories_loop_lead stories stories 0 None eq_refl).
  - reflexivity.
  - intros H. exfalso. apply H. apply Nat.Div0.mod_0_l.
Qed.

Lemma word_row_length (sentence : list string) :
  length (word_row sentence) =
  (length sentence + Z.to_nat (Z.max 0 (sentence_size - len sentence)))%nat.
Proof.
  unfold Shapes.word_row. rewrite length_app, length_map, repeat_list_length.
  reflexivity.
Qed.

Lemma oov_row_length (table : list string) (sentence : list string) :
  length (map (copy_id decode_vocab_size decoder_vocab table) sentence ++
          repeat_list PAD_INDEX (Z.max 0 (sentence_size - len sentence))) =
  (length sentence + Z.to_nat (Z.max 0 (sentence_size - len sentence)))%nat.
Proof. rewrite length_app, length_map, repeat_list_length. reflexivity. Qed.

(** The shapes of what the pass for one story appends. *)
Lemma story_body_shape (m : Z) (story : list (list string)) :
  1 <= m ->
  let v := story_body m story in
  len (st_ss v) = m /\ len (st_sizes v) = m /\ len (st_oov_ids v) = m /\
  map length (st_oov_ids v) = map length (st_ss v) /\
  (0 <= sentence_size ->
   Forall (fun sentence => len sentence <= sentence_size) story ->
   Forall (fun row => len row = sentence_size) (st_ss v)).
Proof.
  intros Hm v. unfold v. clear Hb.
  destruct (story_body_rows m story) as (Hss & Hsz).
  destruct (story_body_oov word_idx sentence_size decode_vocab_size decoder_vocab
              m story) as (_ & _ & Hids).
  cbn zeta in Hss, Hsz, Hids. rewrite Hss, Hsz, Hids.
  set (rows := rev_take_rev m (map word_row story)).
  set (ids := rev_take_rev m
                (map (fun sentence : list string =>
                        map (copy_id decode_vocab_size decoder_vocab
                               (oov_table decoder_vocab story)) sentence ++
                        repeat_list PAD_INDEX
                          (Z.max 0 (sentence_size - len sentence))) story)).
  assert (Hrows : length rows = (Z.to_nat m `min` length story)%nat).
  { unfold rows. rewrite rev_take_rev_length, length_map. reflexivity. }
  assert (Hidl : length ids = (Z.to_nat m `min` length story)%nat).
  { unfold ids. rewrite rev_take_rev_length, length_map. reflexivity. }
  assert (Hszl : length (rev_take_rev m (map len story)) =
                 (Z.to_nat m `min` length story)%nat).
  { rewrite rev_take_rev_length, length_map. reflexivity. }
  unfold len in *. rewrite !length_app, !repeat_list_length.
  split; [lia|]. split; [lia|]. split; [lia|]. split.
  - rewrite !map_app. f_equal.
    + unfold ids, rows. rewrite !rev_take_rev_map, !map_map.
      apply map_ext. intros sentence.
      rewrite oov_row_length, word_row_length. reflexivity.
    + rewrite Hrows, Hidl. reflexivity.
  - intros Hs Hfit. apply Forall_app. split.
    + unfold rows. rewrite rev_take_rev_map. apply Forall_fmap.
      unfold rev_take_rev. apply Forall_reverse, Forall_take, Forall_reverse.
      eapply Forall_impl; [exact Hfit|]. simpl. intros sentence Hl.
      rewrite word_row_length. unfold len in *. lia.
    + apply Forall_replicate. rewrite repeat_list_length. lia.
Qed.

End StoryShapes.

(** X13. Within a batch the memories have one shape.  For a positive
    [batch_size], [_vectorize_stories] returns, and the arrays of example
    [i] have as many rows as the memory size set for the first example of
    its batch, [max(1, min(max_memory_size, len(that story)))]: the rows of
    word ids, the sizes and the rows of copy ids alike, the copy ids row by
    row as long as the word ids; so examples of one batch have arrays of
    the same number of rows.  When no sentence of the story has more than
    [sentence_size] words, every row has [sentence_size] entries. *)
Theorem stories_of_a_batch_share_memory_size
    (word_idx : gmap string Z) (sentence_size : Z) (b : nat)
    (decode_vocab_size max_memory_size : Z) (decoder_vocab : gmap string Z)
    (stories : list (list (list string))) :
  (0 < b)%nat ->
  exists (S : list (list (list Z))) (SZ : list (list Z))
         (RS : list (list string))
         (OOV_ids : list (list (list Z))) (OOV_size : list Z)
         (OOV_words : list (list string)),
    _vectorize_stories word_idx sentence_size (Z.of_nat b) decode_vocab_size
      max_memory_size decoder_vocab stories
      = Some (S, SZ, RS, OOV_ids, OOV_size, OOV_words) /\
    (forall i j : nat, (i / b = j / b)%nat ->
       memory_size_at max_memory_size b stories i =
       memory_size_at max_memory_size b stories j) /\
    forall (i : nat) (story : list (list string)), stories !! i = Some story ->
      let m := memory_size_at max_memory_size b stories i in
      exists (s : list (list Z)) (sz : list Z) (ids : list (list Z)),
        S !! i = Some s /\ SZ !! i = Some sz /\ OOV_ids !! i = Some ids /\
        len s = m /\ len sz = m /\ len ids = m /\
        map length ids = map length s /\
        (0 <= sentence_size ->
         Forall (fun sentence => len sentence <= sentence_size) story ->
         Forall (fun row => len row = sentence_size) s).
Proof.
  intros Hb. do 6 eexists.
  split; [apply (vectorize_stories_lead _ _ b _ _ _ Hb)|].
  split.
  { intros i j Hij. unfold memory_size_at.
    rewrite (batch_lead_same b i j Hb Hij). reflexivity. }
  intros i story Hi m.
  assert (Hm : 1 <= m) by (unfold m, memory_size_at; lia).
  destruct (story_body_shape word_idx sentence_size decode_vocab_size
              decoder_vocab m story Hm) as (H1 & H2 & H3 & H4 & H5).
  do 3 eexists.
  rewrite !list_lookup_fmap, !list_lookup_imap, Hi. cbn [fmap option_fmap option_map].
  repeat split; try reflexivity; assumption.
Qed.

Lemma stories_of_a_batch_share_memory_size_witness :
  (0 < 2)%nat /\
  exists S SZ RS OOV_ids OOV_size OOV_words,
    _vectorize_stories example_vocab 6 (Z.of_nat 2) 6 3 example_vocab
      [[["paris"; "is"; "the"; "capital"; "$u"; "#1"];
        ["the"; "capital"; "is"; "paris"; "$s"; "#2"]];
       [["rome"; "is"; "$u"; "#1"]]]
    = Some (S, SZ, RS, OOV_ids, OOV_size, OOV_words) /\
    memory_size_at 3 2
      [[["paris"; "is"; "the"; "capital"; "$u"; "#1"];
        ["the"; "capital"; "is"; "paris"; "$s"; "#2"]];
       [["rome"; "is"; "$u"; "#1"]]] 0 =
    memory_size_at 3 2
      [[["paris"; "is"; "the"; "capital"; "$u"; "#1"];
        ["the"; "capital"; "is"; "paris"; "$s"; "#2"]];
       [["rome"; "is"; "$u"; "#1"]]] 1.
Proof.
  split; [lia|].
  destruct (stories_of_a_batch_share_memory_size example_vocab 6 2 6 3
              example_vocab
              [[["paris"; "is"; "the"; "capital"; "$u"; "#1"];
                ["the"; "capital"; "is"; "paris"; "$s"; "#2"]];
               [["rome"; "is"; "$u"; "#1"]]] ltac:(lia))
    as (S & SZ & RS & OOV_ids & OOV_size & OOV_words & Hv & Hsame & _).
  exists S, SZ, RS, OOV_ids, OOV_size, OOV_words.
  split; [exact Hv|]. apply Hsame. reflexivity.
Defined.

(** ** Through [__init__] *)

Lemma sorted_lookup {A} (R : A -> A -> Prop) (l : list A) (j i : nat) (a c : A) :
  StronglySorted R l -> l !! j = Some a -> l !! i = Some c -> (j < i)%nat -> R a c.
Proof.
  intros Hs. revert j i. induction Hs as [|x l Hs IH Hx]; intros j i Hj Hi Hji.
  - discriminate.
  - destruct i as [|i]; [lia|]. destruct j as [|j]; simpl in Hj, Hi.
    + inversion Hj; subst a. rewrite Forall_forall in Hx. apply Hx.
      eapply list_elem_of_lookup_2. exact Hi.
    + apply (IH j i Hj Hi). lia.
Qed.

(** X14. The sort makes the truncation harmless.  [__init__] sorts the examples
    by story length, longest first, so the first story of a batch is its
    longest, and with a positive [batch_size] the memory of an example
    whose story has at most [max_memory_size] sentences holds all of them,
    in their order, followed by rows of padding: no sentence is cut. *)
Theorem sorted_stories_keep_their_sentences
    (data : list item) (word_idx : gmap string Z) (sentence_size : Z) (b : nat)
    (max_memory_size : Z) (decoder_vocab : gmap string Z)
    (candidate_sentence_size : Z) :
  (0 < b)%nat ->
  let sorted := sort_reverse (fun x => len (item_story x)) data in
  exists d : data_obj,
    __init__ data word_idx sentence_size (Z.of_nat b) max_memory_size
      decoder_vocab candidate_sentence_size = (sorted, Some d) /\
    forall (i : nat) (x : item), sorted !! i = Some x ->
      len (item_story x) <= max_memory_size ->
      let m := memory_size_at max_memory_size b (map item_story sorted) i in
      len (item_story x) <= m /\
      stories d !! i =
        Some (map (word_row word_idx sentence_size) (item_story x) ++
              repeat_list (repeat_list 0 sentence_size)
                (m - len (item_story x))) /\
      _story_sizes d !! i =
        Some (map len (item_story x) ++
              repeat_list 0 (m - len (item_story x))).
Proof.
  intros Hb sorted.
  set (V := Z.of_nat (size decoder_vocab)).
  pose proof (vectorize_stories_lead word_idx sentence_size b V max_memory_size
                decoder_vocab Hb (map item_story sorted)) as Hvs.
  cbn zeta in Hvs.
  set (vs := imap _ (map item_story sorted)) in Hvs.
  assert (Hlen : length vs = length sorted).
  { unfold vs. rewrite length_imap, length_map. reflexivity. }
  destruct (answers_loop_Some decoder_vocab candidate_sentence_size
              (map st_oov_words vs) V 0 (map item_answer sorted))
    as (avs & Havs & _ & _).
  { rewrite !length_fmap. lia. }
  eexists. split.
  { unfold __init__, _extract_data_items. fold sorted. fold V.
    cbn zeta. rewrite Hvs. cbn.
    unfold _vectorize_answers. rewrite Havs. reflexivity. }
  intros i x Hi Hfit m.
  assert (Hlead : len (item_story x) <= m).
  { unfold m, memory_size_at.
    pose proof (batch_lead_le b i) as Hle.
    destruct (map item_story sorted !! batch_lead b i) as [lead|] eqn:Hl.
    2:{ apply lookup_ge_None in Hl. apply lookup_lt_Some in Hi.
        rewrite length_map in Hl. lia. }
    simpl. rewrite list_lookup_fmap in Hl.
    destruct (sorted !! batch_lead b i) as [y|] eqn:Hy; [|discriminate].
    simpl in Hl. inversion Hl; subst lead.
    assert (Hxy : len (item_story x) <= len (item_story y)).
    { destruct (decide (batch_lead b i = i)) as [Heq|Hne].
      - rewrite Heq, Hi in Hy. inversion Hy. lia.
      - apply (sorted_lookup (fun a c => len (item_story c) <= len (item_story a))
                 sorted (batch_lead b i) i y x); try assumption; [|lia].
        apply (sort_reverse_sorted (fun x => len (item_story x))). }
    lia. }
  split; [exact Hlead|].
  unfold stories. cbn.
  rewrite !list_lookup_fmap. unfold vs. rewrite list_lookup_imap.
  rewrite list_lookup_fmap, Hi. cbn. fold m.
  destruct (story_body_rows word_idx sentence_size V decoder_vocab m
              (item_story x)) as (Hss & Hsz).
  cbn zeta in Hss, Hsz. rewrite Hss, Hsz.
  assert (Hrows : rev_take_rev m (map (word_row word_idx sentence_size)
                                    (item_story x)) =
                  map (word_row word_idx sentence_size) (item_story x)).
  { apply rev_take_rev_all. unfold len in *. rewrite length_map. exact Hlead. }
  assert (Hsizes : rev_take_rev m (map len (item_story x)) =
                   map len (item_story x)).
  { apply rev_take_rev_all. unfold len in *. rewrite length_map. exact Hlead. }
  rewrite Hrows, Hsizes.
  assert (Hpad : Z.max 0 (m - len (map (word_row word_idx sentence_size)
                                     (item_story x))) =
                 Z.max 0 (m - len (item_story x))).
  { unfold len. rewrite length_map. reflexivity. }
  rewrite Hpad. unfold repeat_list.
  replace (Z.to_nat (Z.max 0 (m - len (item_story x))))
    with (Z.to_nat (m - len (item_story x))) by lia.
  split; reflexivity.
Qed.

Lemma sorted_stories_keep_their_sentences_witness :
  (0 < 2)%nat /\
  exists d : data_obj,
    __init__ example_data example_vocab 6 (Z.of_nat 2) 3 example_vocab 6 =
      (sort_reverse (fun x => len (item_story x)) example_data, Some d) /\
    _story_sizes d !! 1%nat = Some [4; 0].
Proof.
  split; [lia|].
  destruct (sorted_stories_keep_their_sentences example_data example_vocab 6 2 3
              example_vocab 6 ltac:(lia)) as (d & Hd & Hrows).
  exists d. split; [exact Hd|].
  exact (proj2 (proj2 (Hrows 1%nat
           {| item_story := [["rome"; "is"; "$u"; "#1"]];
              item_query := ["where"; "is"; "rome"];
              item_answer := ["italy"];
              item_dialog_id := 7 |} eq_refl ltac:(compute; discriminate)))).
Defined.

End ShapeProps.

Module BatchProps.

Import Py Data Batch BatchSpec.

(** ** Slices *)

Lemma slice_index_range {A} (l : list A) (i : Z) :
  0 <= slice_index l i <= len l.
Proof. unfold slice_index, len. destruct (i <? 0) eqn:E; lia. Qed.

Lemma slice_lookup {A} (start end_ : Z) (l : list A) (k : nat) :
  0 <= start -> 0 <= end_ ->
  slice start end_ l !! k =
  if decide (Z.of_nat k < end_ - start) then l !! (Z.to_nat start + k)%nat
  else None.
Proof.
  intros Hs He. unfold slice, slice_index, len.
  replace (start <? 0) with false by (symmetry; apply Z.ltb_ge; lia).
  replace (end_ <? 0) with false by (symmetry; apply Z.ltb_ge; lia).
  destruct (decide (Z.of_nat k < end_ - start)) as [Hk|Hk].
  - destruct (decide (Z.to_nat start + k < length l)%nat) as [Hin|Hout].
    + rewrite lookup_take_lt by lia. rewrite lookup_drop. f_equal. lia.
    + rewrite (lookup_ge_None_2 l) by lia.
      apply lookup_ge_None_2. rewrite length_take, length_drop. lia.
  - apply lookup_ge_None_2. rewrite length_take, length_drop. lia.
Qed.

Lemma take_drop_length {A} (n : nat) (x : list A) :
  take n x ++ drop (length (take n x)) x = x.
Proof.
  rewrite length_take.
  destruct (decide (n <= length x)%nat) as [Hle|Hgt].
  - rewrite Nat.min_l by lia. apply take_drop.
  - rewrite Nat.min_r by lia. rewrite take_ge, drop_ge by lia.
    apply app_nil_r.
Qed.

Lemma overwrite_slice {A} (start end_ : Z) (l : list A) :
  overwrite (Z.to_nat (slice_index l start)) (slice start end_ l) l = l.
Proof.
  unfold overwrite, slice.
  rewrite <- drop_drop, take_drop_length. apply take_drop.
Qed.

Lemma slice_length {A} (start end_ : Z) (l : list A) :
  length (slice start end_ l) =
  Z.to_nat (slice_index l end_ - slice_index l start).
Proof.
  unfold slice. rewrite length_take, length_drop.
  pose proof (slice_index_range l start). pose proof (slice_index_range l end_).
  unfold len in *. lia.
Qed.

Lemma slice_overwrite {A} (start end_ : Z) (new l : list A) :
  length new = length (slice start end_ l) ->
  let l' := overwrite (Z.to_nat (slice_index l start)) new l in
  length l' = length l /\ slice start end_ l' = new.
Proof.
  intros Hnew l'. rewrite slice_length in Hnew.
  pose proof (slice_index_range l start) as Hs.
  pose proof (slice_index_range l end_) as He. unfold len in *.
  assert (Hlen : length l' = length l).
  { unfold l', overwrite. rewrite !length_app, length_take, length_drop. lia. }
  split; [exact Hlen|].
  assert (Hidx : forall i, slice_index l' i = slice_index l i).
  { intros i. unfold slice_index, len. rewrite Hlen. reflexivity. }
  unfold slice. rewrite !Hidx. unfold l', overwrite.
  rewrite drop_app_length' by (rewrite length_take; lia).
  rewrite take_app_length' by lia. reflexivity.
Qed.

Lemma init_without_drop (rand : nat -> nat) (c : nat) (data : data_obj)
      (start end_ unk_size : Z) :
  exists batch : batch_obj,
    Batch.__init__ rand c data start end_ unk_size false =
      Some (data, batch, c) /\
    Batch._stories batch = slice start end_ (stories data) /\
    Batch._queries batch = slice start end_ (queries data) /\
    forall k : nat,
      batch_example batch k =
      (slice start end_ (stories data) !! k, slice start end_ (queries data) !! k,
       slice start end_ (answers data) !! k,
       slice start end_ (answers_emb_lookup data) !! k,
       slice start end_ (Data._story_sizes data) !! k,
       slice start end_ (Data._query_sizes data) !! k,
       slice start end_ (answer_sizes data) !! k,
       slice start end_ (Data._read_stories data) !! k,
       slice start end_ (Data._read_queries data) !! k,
       slice start end_ (Data._read_answers data) !! k,
       slice start end_ (oov_ids data) !! k,
       slice start end_ (Data._oov_sizes data) !! k,
       slice start end_ (dialog_ids data) !! k).
Proof.
  eexists. split.
  - unfold Batch.__init__. cbn [mbind option_bind].
    unfold stories, queries. rewrite !overwrite_slice.
    destruct data; reflexivity.
  - split; [reflexivity|]. split; [reflexivity|]. intros k. reflexivity.
Qed.

(** X15. A batch holds the examples of its range.  Without word drop,
    [Batch.__init__] never raises and leaves the [Data] object as it is,
    and for indices that are not negative the batch's example [k] is the
    data's example [start + k], in each of the thirteen lists at once, for
    [k] below [end - start]; an [end] past the data gives a shorter batch,
    not an error. *)
Theorem batch_holds_the_examples_of_its_range (rand : nat -> nat) (c : nat)
    (data : data_obj) (start end_ unk_size : Z) :
  0 <= start -> 0 <= end_ ->
  exists batch : batch_obj,
    Batch.__init__ rand c data start end_ unk_size false =
      Some (data, batch, c) /\
    forall k : nat,
      batch_example batch k =
      if decide (Z.of_nat k < end_ - start)
      then data_example data (Z.to_nat start + k)
      else no_example.
Proof.
  intros Hs He.
  destruct (init_without_drop rand c data start end_ unk_size)
    as (batch & Hb & _ & _ & Hk).
  exists batch. split; [exact Hb|].
  intros k. rewrite Hk. unfold data_example, no_example.
  rewrite !slice_lookup by assumption.
  destruct (decide (Z.of_nat k < end_ - start)); reflexivity.
Qed.

Lemma batch_holds_the_examples_of_its_range_witness :
  0 <= 1 /\ 0 <= 5 /\
  exists batch : batch_obj,
    Batch.__init__ (fun _ => 0%nat) 0 Batch.example 1 5 0 false =
      Some (Batch.example, batch, 0%nat) /\
    batch_example batch 1 = data_example Batch.example 2 /\
    batch_example batch 2 = no_example.
Proof.
  split; [lia|]. split; [lia|].
  destruct (batch_holds_the_examples_of_its_range (fun _ => 0%nat) 0
              Batch.example 1 5 0 ltac:(lia) ltac:(lia)) as (batch & Hb & Hk).
  exists batch. split; [exact Hb|]. split.
  - exact (Hk 1%nat).
  - rewrite (Hk 2%nat). reflexivity.
Defined.

(** ** Word drop *)

Lemma replace_then_drop (e : Z) (es : list Z) (x : Z) :
  drop_words_of es (if decide (x = e) then UNK_INDEX else x) =
  drop_words_of (e :: es) x.
Proof.
  unfold drop_words_of.
  destruct (decide (x = e)) as [->|Hne].
  - rewrite (decide_True (P := e ∈ e :: es)) by apply list_elem_of_here.
    destruct (decide (UNK_INDEX ∈ es)); reflexivity.
  - destruct (decide (x ∈ es)) as [Hin|Hout].
    + rewrite decide_True by (apply list_elem_of_further; exact Hin). reflexivity.
    + rewrite decide_False; [reflexivity|].
      intros H. apply elem_of_cons in H. destruct H; contradiction.
Qed.

(** The loop over the drawn words replaces them, and nothing else. *)
Lemma drop_words_spec (sampled : list Z) (story : list (list Z)) (query : list Z) :
  drop_words sampled story query =
  (map (map (drop_words_of sampled)) story, map (drop_words_of sampled) query).
Proof.
  unfold drop_words. revert story query.
  induction sampled as [|e es IH]; intros story query.
  - simpl. f_equal.
    + rewrite <- (map_id story) at 1. apply map_ext. intros row.
      rewrite <- (map_id row) at 1. apply map_ext. intros x. reflexivity.
    + rewrite <- (map_id query) at 1. apply map_ext. intros x. reflexivity.
  - simpl. rewrite IH. unfold replace_word. f_equal.
    + rewrite map_map. apply map_ext. intros row. rewrite map_map.
      apply map_ext. intros x. apply replace_then_drop.
    + rewrite map_map. apply map_ext. intros x. apply replace_then_drop.
Qed.

Lemma elem_of_concat {A} (x : A) (ls : list (list A)) :
  x ∈ concat ls <-> exists l, x ∈ l /\ l ∈ ls.
Proof.
  induction ls as [|l ls IH]; simpl.
  - split; [intros H; inversion H | intros (l & _ & H); inversion H].
  - rewrite elem_of_app, IH. split.
    + intros [H|(l' & Hx & Hl)].
      * exists l. split; [exact H | apply list_elem_of_here].
      * exists l'. split; [exact Hx | apply list_elem_of_further; exact Hl].
    + intros (l' & Hx & Hl). apply elem_of_cons in Hl.
      destruct Hl as [->|Hl]; [left; exact Hx | right; eauto].
Qed.

Lemma vocab_elem (story : list (list Z)) (query : list Z) (w : Z) :
  w ∈ _get_vocab_as_list story query <->
  w <> 0 /\ (w ∈ concat story \/ w ∈ query).
Proof.
  unfold _get_vocab_as_list.
  rewrite list_elem_of_filter, elem_of_remove_dups, elem_of_app. reflexivity.
Qed.

Lemma vocab_empty (story : list (list Z)) (query : list Z) :
  _get_vocab_as_list story query = [] <->
  Forall (Forall (fun x => x = 0)) story /\ Forall (fun x => x = 0) query.
Proof.
  split.
  - intros Hnil.
    assert (Hall : forall w, w ∈ concat story \/ w ∈ query -> w = 0).
    { intros w Hw. destruct (decide (w = 0)) as [|Hne]; [assumption|].
      assert (Hin : w ∈ _get_vocab_as_list story query).
      { apply vocab_elem. auto. }
      rewrite Hnil in Hin. inversion Hin. }
    split.
    + apply Forall_forall. intros row Hrow. apply Forall_forall. intros x Hx.
      apply Hall. left. apply elem_of_concat. eauto.
    + apply Forall_forall. intros x Hx. apply Hall. right. exact Hx.
  - intros (Hs & Hq).
    destruct (_get_vocab_as_list story query) as [|w vocab] eqn:E; [reflexivity|].
    assert (Hin : w ∈ _get_vocab_as_list story query).
    { rewrite E. apply list_elem_of_here. }
    apply vocab_elem in Hin. destruct Hin as (Hne & [Hin|Hin]).
    + apply elem_of_concat in Hin. destruct Hin as (row & Hx & Hrow).
      rewrite Forall_forall in Hs. specialize (Hs row Hrow).
      rewrite Forall_forall in Hs. specialize (Hs w Hx). contradiction.
    + rewrite Forall_forall in Hq. specialize (Hq w Hin). contradiction.
Qed.

Section Draws.
Variables (rand : nat -> nat) (unk_size : Z).

Lemma sampled_words_Some (c : nat) (vocab sampled : list Z) :
  sampled_words rand unk_size c vocab = Some sampled ->
  length sampled = Z.to_nat unk_size /\ forall w, w ∈ sampled -> w ∈ vocab.
Proof.
  unfold sampled_words. intros H. apply mapM_Some in H. split.
  - apply Forall2_length in H. rewrite length_seq in H. lia.
  - intros w Hw. apply list_elem_of_lookup in Hw. destruct Hw as (j & Hj).
    destruct (Forall2_lookup_r _ _ _ _ _ H Hj) as (i & _ & Hi).
    unfold random_choice in Hi. eapply list_elem_of_lookup_2. exact Hi.
Qed.

Lemma sampled_words_None (c : nat) (vocab : list Z) :
  sampled_words rand unk_size c vocab = None <-> 0 < unk_size /\ vocab = [].
Proof.
  unfold sampled_words. split.
  - intros H.
    destruct (decide (vocab = [])) as [->|Hne].
    + split; [|reflexivity].
      destruct (Z.to_nat unk_size) as [|n] eqn:E; [discriminate|]. lia.
    + exfalso.
      assert (Hsome : exists k, mapM (fun j => random_choice (rand (c + j)) vocab)
                                  (seq 0 (Z.to_nat unk_size)) = Some k).
      { generalize (seq 0 (Z.to_nat unk_size)). intros l.
        induction l as [|j l (k & Hk)]; [exists []; reflexivity|].
        assert (Hlt : (rand (c + j) mod length vocab < length vocab)%nat).
        { apply Nat.mod_upper_bound. destruct vocab; [contradiction|simpl; lia]. }
        apply lookup_lt_is_Some_2 in Hlt. destruct Hlt as (w & Hw).
        exists (w :: k). apply mapM_Some. constructor; [exact Hw|].
        apply mapM_Some. exact Hk. }
      destruct Hsome as (k & Hk). congruence.
  - intros (Hpos & ->).
    destruct (Z.to_nat unk_size) as [|n] eqn:E; [lia|]. reflexivity.
Qed.

Lemma random_unk_lengths (c : nat)
      (stories : list (list (list Z))) (queries : list (list Z))
      (new_stories : list (list (list Z))) (new_queries : list (list Z))
      (c' : nat) :
  _random_unk rand unk_size c stories queries =
    Some (new_stories, new_queries, c') ->
  length new_stories = (length stories `min` length queries)%nat /\
  length new_queries = (length stories `min` length queries)%nat.
Proof.
  revert queries c new_stories new_queries c'.
  induction stories as [|story stories IH];
    intros queries c new_stories new_queries c' H.
  { simpl in H. inversion H. split; reflexivity. }
  destruct queries as [|query queries].
  { simpl in H. inversion H. split; reflexivity. }
  cbn [_random_unk] in H.
  destruct (sampled_words rand unk_size c (_get_vocab_as_list story query))
    as [sampled|]; [|discriminate].
  cbn [mbind option_bind] in H.
  destruct (drop_words sampled story query) as [s q].
  destruct (_random_unk rand unk_size (c + Z.to_nat unk_size) stories queries)
    as [[[ns nq] c1]|] eqn:Hrest; [|discriminate].
  cbn [mbind option_bind] in H. inversion H; subst.
  destruct (IH queries _ ns nq _ Hrest) as (Hl1 & Hl2).
  simpl. split; lia.
Qed.


(** X17. Word drop raises on an example of padding only.  [_random_unk] raises
    the [IndexError] of [random.choice] exactly when [unk_size] is positive
    and one of the examples it handles has no word to draw from, its story
    and its query holding nothing but 0; otherwise it returns. *)
Theorem word_drop_raises_on_padding_only (c : nat)
    (stories : list (list (list Z))) (queries : list (list Z)) :
  _random_unk rand unk_size c stories queries = None <->
  0 < unk_size /\
  exists (k : nat) (story : list (list Z)) (query : list Z),
    stories !! k = Some story /\ queries !! k = Some query /\
    Forall (Forall (fun x => x = 0)) story /\ Forall (fun x => x = 0) query.
Proof.
  revert queries c. induction stories as [|story stories IH]; intros queries c.
  { simpl. split; [discriminate|]. intros (_ & k & s & q & Hk & _). discriminate. }
  destruct queries as [|query queries].
  { simpl. split; [discriminate|]. intros (_ & k & s & q & _ & Hk & _).
    discriminate. }
  cbn [_random_unk].
  destruct (sampled_words rand unk_size c (_get_vocab_as_list story query))
    as [sampled|] eqn:Hs.
  - cbn [mbind option_bind]. rewrite drop_words_spec.
    destruct (_random_unk rand unk_size (c + Z.to_nat unk_size) stories queries)
      as [[[ns nq] c1]|] eqn:Hrest; cbn [mbind option_bind].
    + split; [discriminate|]. intros (Hpos & k & s & q & Hk & Hq & Hzs & Hzq).
      exfalso. destruct k as [|k]; simpl in Hk, Hq.
      * inversion Hk; subst s. inversion Hq; subst q.
        assert (Hnone : sampled_words rand unk_size c
                          (_get_vocab_as_list story query) = None).
        { apply sampled_words_None. split; [exact Hpos|].
          apply vocab_empty. auto. }
        congruence.
      * assert (Hnone : _random_unk rand unk_size (c + Z.to_nat unk_size)
                          stories queries = None).
        { apply IH. split; [exact Hpos|]. exists k, s, q. auto. }
        congruence.
    + split; [|reflexivity]. intros _.
      apply IH in Hrest. destruct Hrest as (Hpos & k & s & q & Hk & Hq & Hz).
      split; [exact Hpos|]. exists (S k), s, q. auto.
  - cbn [mbind option_bind]. split; [|reflexivity]. intros _.
    apply sampled_words_None in Hs. destruct Hs as (Hpos & Hv).
    apply vocab_empty in Hv. split; [exact Hpos|].
    exists 0%nat, story, query. simpl. tauto.
Qed.

End Draws.


Lemma word_drop_raises_on_padding_only_witness :
  0 < 1 /\
  _random_unk (fun k => k) 1 0 (stories Batch.example) (queries Batch.example)
    = None.
Proof.
  split; [lia|].
  apply (word_drop_raises_on_padding_only (fun k => k) 1 0).
  split; [lia|].
  exists 2%nat, [[0; 0; 0]; [0; 0; 0]], [0; 0; 0].
  repeat split; repeat constructor.
Defined.

(** ** The batch and the [Data] object *)

(** X18. Word drop writes into the [Data] object.  The arrays of a batch are
    the arrays of the [Data] object it was cut from, so after a
    [Batch.__init__] with word drop the object holds the batch's stories
    and queries at the places of the range, with the dropped words
    replaced, and is otherwise as before; a batch cut from the same range
    afterwards, without word drop, has the same stories and queries: the
    words stay dropped. *)
Theorem word_drop_changes_the_data_object (rand : nat -> nat) (c c' : nat)
    (data data' : data_obj) (start end_ unk_size : Z) (batch : batch_obj) :
  length (stories data) = length (queries data) ->
  Batch.__init__ rand c data start end_ unk_size true = Some (data', batch, c') ->
  let s := Z.to_nat (slice_index (stories data) start) in
  let e := (s + length (slice start end_ (stories data)))%nat in
  data' =
    with_arrays data
      (take s (stories data) ++ Batch._stories batch ++ drop e (stories data))
      (take s (queries data) ++ Batch._queries batch ++ drop e (queries data)) /\
  slice start end_ (stories data') = Batch._stories batch /\
  slice start end_ (queries data') = Batch._queries batch /\
  exists batch2 : batch_obj,
    Batch.__init__ rand c' data' start end_ unk_size false =
      Some (data', batch2, c') /\
    Batch._stories batch2 = Batch._stories batch /\
    Batch._queries batch2 = Batch._queries batch.
Proof.
  intros Hlen H s e. unfold Batch.__init__ in H.
  destruct (_random_unk rand unk_size c (slice start end_ (stories data))
              (slice start end_ (queries data))) as [[[ns nq] c1]|] eqn:Hdrop;
    [|discriminate].
  cbn [mbind option_bind] in H.
  assert (Hq : Z.to_nat (slice_index (queries data) start) =
               Z.to_nat (slice_index (stories data) start)).
  { unfold slice_index, len. rewrite Hlen. reflexivity. }
  rewrite Hq in H.
  change (Data._stories data) with (stories data) in H.
  change (Data._queries data) with (queries data) in H.
  fold s in H. inversion H; subst data' batch c1; clear H.
  apply random_unk_lengths in Hdrop. destruct Hdrop as (Hns & Hnq).
  assert (Hsl : length (slice start end_ (queries data)) =
                length (slice start end_ (stories data))).
  { rewrite !slice_length. unfold slice_index, len. rewrite Hlen. reflexivity. }
  rewrite Hsl, Nat.min_id in Hns, Hnq.
  cbn [Batch._stories Batch._queries].
  destruct (slice_overwrite start end_ ns (stories data) Hns) as (_ & Hs1).
  destruct (slice_overwrite start end_ nq (queries data)) as (_ & Hs2).
  { rewrite Hnq, Hsl. reflexivity. }
  rewrite Hq in Hs2. fold s in Hs1, Hs2.
  set (S' := overwrite s ns (stories data)) in *.
  set (Q' := overwrite s nq (queries data)) in *.
  assert (HS : stories (with_arrays data S' Q') = S') by reflexivity.
  assert (HQ : queries (with_arrays data S' Q') = Q') by reflexivity.
  split.
  { unfold S', Q', overwrite, e. rewrite Hns, Hnq. reflexivity. }
  rewrite HS, HQ. split; [exact Hs1|]. split; [exact Hs2|].
  destruct (init_without_drop rand c' (with_arrays data S' Q') start end_ unk_size)
    as (batch2 & Hb2 & Hst & Hqu & _).
  exists batch2. split; [exact Hb2|].
  rewrite Hst, Hqu, HS, HQ. split; assumption.
Qed.

Lemma word_drop_changes_the_data_object_witness :
  length (stories Batch.example) = length (queries Batch.example) /\
  exists (data' : data_obj) (batch : batch_obj),
    Batch.__init__ (fun k => k) 0 Batch.example 0 2 1 true =
      Some (data', batch, 2%nat) /\
    slice 0 2 (stories data') = [[[4; 1; 0]; [1; 7; 0]]; [[6; 1; 0]; [0; 0; 0]]].
Proof.
  split; [reflexivity|].
  destruct (Batch.__init__ (fun k => k) 0 Batch.example 0 2 1 true)
    as [[[data' batch] c']|] eqn:H; [|exfalso; vm_compute in H; discriminate].
  assert (Hc : c' = 2%nat) by (vm_compute in H; congruence).
  subst c'.
  assert (Hb : Batch._stories batch =
               [[[4; 1; 0]; [1; 7; 0]]; [[6; 1; 0]; [0; 0; 0]]]).
  { vm_compute in H. inversion H. reflexivity. }
  exists data', batch. split; [reflexivity|].
  rewrite <- Hb.
  exact (proj1 (proj2 (word_drop_changes_the_data_object (fun k => k) 0 2
                         Batch.example data' 0 2 1 batch eq_refl H))).
Defined.

End BatchProps.
